(** * Cosmic Rocket League: arena physics, pickups, scoring and AI adaptation

    A shallow embedding of [rocket-league-5.py].  Python's [float] is read as
    a real number ([R]) and Python's [int] as [Z]; [math.sqrt], [math.cos],
    [math.sin] and [**] are the real functions [sqrt], [cos], [sin] and
    [Rpower].  Every class of the program has a module of the same name, the
    methods keep their names, and an object that a method mutates is passed
    in and returned.  Drawing code and the particle bursts are left out. *)

From Stdlib Require Import String.
From Stdlib Require Import Reals Lra Lia ZArith Bool List.
Import ListNotations.

Open Scope R_scope.

(** ** Comparisons of floats as booleans *)

Definition Rltb (a b : R) : bool := if Rlt_dec a b then true else false.
Definition Rleb (a b : R) : bool := if Rle_dec a b then true else false.

(** [int(x)] on a float: truncation toward zero. *)
Definition py_int (r : R) : Z :=
  if Rle_dec 0 r then Int_part r else (- Int_part (- r))%Z.

(** [a % b] on floats, for [b <> 0]: the remainder of the floored division,
    [a - b * floor(a / b)]. *)
Definition py_mod (a b : R) : R := a - b * IZR (Int_part (a / b)).

(** [math.atan2(y, x)]: the angle of the point [(x, y)], in [(-pi, pi]]. *)
Definition atan2 (y x : R) : R :=
  if Rltb 0 x then atan (y / x)
  else if Rltb x 0 then (if Rleb 0 y then atan (y / x) + PI else atan (y / x) - PI)
  else if Rltb 0 y then PI / 2
  else if Rltb y 0 then - PI / 2
  else 0.

(** ** CONFIG *)

Definition SCREEN_W : Z := 1280.
Definition SCREEN_H : Z := 720.
Definition BALL_RADIUS : Z := 16.
Definition CAR_W : Z := 36.
Definition CAR_H : Z := 22.
Definition GOAL_W : Z := 22.
Definition GOAL_H : Z := 150.
Definition BOOST_MAX : R := 100.
Definition BOOST_RECHARGE : R := 8.
Definition BOOST_COST : R := 30.
Definition BOOST_SPEED : R := 520.
Definition MAX_SPEED : R := 380.

(** ** LEVEL DEFINITIONS *)

Inductive anomaly_kind := black_hole | repulsor | nebula.

Definition anomaly_kind_eqb (a b : anomaly_kind) : bool :=
  match a, b with
  | black_hole, black_hole | repulsor, repulsor | nebula, nebula => true
  | _, _ => false
  end.

Definition colour : Type := Z * Z * Z.

Module Level.
(** One entry of [LEVELS]; the texts and the background colours only feed
    the menu and are not kept. *)
Record t := mk {
  id : Z;
  name : string;
  accent : colour;
  accent2 : colour;
  anomaly_types : list anomaly_kind;
  max_anomalies : nat;
  max_asteroids : nat;
  hazards : list string
}.
End Level.

Definition LEVELS : list Level.t := [
  Level.mk 0 "LUNAR COLOSSEUM" (180, 200, 255)%Z (100, 120, 200)%Z
           [repulsor] 1 0 [];
  Level.mk 1 "NEBULA RIFT" (0, 255, 200)%Z (200, 0, 255)%Z
           [nebula; repulsor] 3 0 ["crystal_shards"%string];
  Level.mk 2 "ASTEROID GRAVEYARD" (255, 140, 40)%Z (160, 80, 20)%Z
           [repulsor] 2 5 ["spinning_rocks"%string];
  Level.mk 3 "BLACK HOLE STATION" (255, 40, 80)%Z (180, 0, 80)%Z
           [black_hole] 2 2 ["gravity_corridors"%string];
  Level.mk 4 "PULSAR CORE" (0, 240, 255)%Z (255, 240, 0)%Z
           [repulsor; nebula] 2 1 ["pulse_rings"%string; "lightning_nodes"%string]
].

(** ** MATH HELPERS *)

Definition v2_len (v : R * R) : R := sqrt (fst v ^ 2 + snd v ^ 2).
Definition v2_norm (v : R * R) : R * R :=
  let l := v2_len v in
  if Rltb 0.001 l then (fst v / l, snd v / l) else (0, 0).
Definition lerp (a b t : R) : R := a + (b - a) * t.
Definition clamp (v lo hi : R) : R := Rmax lo (Rmin hi v).

(** ** HAZARDS and arena objects (the dataclasses) *)

Module CrystalShard.
Record t := mk { x : R; y : R; angle : R; size : R; spin : R }.
End CrystalShard.

Module GravityCorridor.
Record t := mk { x : R; y : R; width : R; height : R; strength : R; direction : R }.
End GravityCorridor.

Module PulseRing.
Record t := mk { cx : R; cy : R; radius : R; max_radius : R; speed : R; color : colour }.
End PulseRing.

Module LightningNode.
Record t := mk { x : R; y : R; timer : R; active : bool; radius : R }.
End LightningNode.

Module GravityAnomaly.
Record t := mk { x : R; y : R; radius : R; strength : R; kind : anomaly_kind }.
End GravityAnomaly.

Module BoostPad.
Record t := mk { x : R; y : R; radius : R; active : bool; cooldown : R }.
(** [BoostPad(px, py)]: the dataclass defaults. *)
Definition new (px py : R) : t := mk px py 22 true 0.
End BoostPad.

Module MovingAsteroid.
Record t := mk {
  x : R; y : R; radius : R; vx : R; vy : R; angle : R; spin : R; color : colour
}.
End MovingAsteroid.

(** ** The [random] module

    A generator of Python's [random.Random] class: [Random seed] builds one
    from an integer, [random] draws a float of [0, 1) and [_randbelow n] an
    integer of [0, n).  The three derived draws below are CPython's own
    definitions over these two.  The module-level functions of [random] used
    by the game ([random.uniform]) are the same draws on a hidden generator
    that nothing seeds: that generator's state is passed explicitly. *)

Class PyRandom := {
  gen : Type;
  Random : Z -> gen;
  random : gen -> R * gen;
  _randbelow : Z -> gen -> Z * gen;
  random_range : forall g, 0 <= fst (random g) < 1;
  _randbelow_range : forall n g, (0 < n)%Z -> (0 <= fst (_randbelow n g) < n)%Z
}.

(** Generator-passing computations that may raise. *)
Definition Rng `{PyRandom} (A : Type) : Type := gen -> option (A * gen).

Definition ret `{PyRandom} {A : Type} (a : A) : Rng A := fun g => Some (a, g).

Definition bind `{PyRandom} {A B : Type} (c : Rng A) (k : A -> Rng B) : Rng B :=
  fun g => match c g with
           | Some (a, g') => k a g'
           | None => None
           end.

Definition raise `{PyRandom} {A : Type} : Rng A := fun _ => None.

Notation "x <- c ;; k" := (bind c (fun x => k))
  (at level 61, c at next level, right associativity).

Section Draws.
Context `{PyRandom}.

(** [rng.uniform(a, b)] is [a + (b - a) * rng.random()]. *)
Definition uniform (a b : R) : Rng R :=
  fun g => let (u, g') := random g in Some (a + (b - a) * u, g').

(** [rng.randint(a, b)] is [a + rng._randbelow(b - a + 1)], a [ValueError]
    on an empty range. *)
Definition randint (a b : Z) : Rng Z :=
  fun g => if (0 <? b - a + 1)%Z
           then let (k, g') := _randbelow (b - a + 1) g in Some ((a + k)%Z, g')
           else None.

(** [rng.choice(seq)] is [seq[rng._randbelow(len(seq))]]. *)
Definition choice {A : Type} (seq : list A) : Rng A :=
  fun g => let (k, g') := _randbelow (Z.of_nat (length seq)) g in
           match nth_error seq (Z.to_nat k) with
           | Some a => Some (a, g')
           | None => None
           end.

(** [for _ in range(n): out.append(body)]. *)
Fixpoint repeatM {A : Type} (n : nat) (body : Rng A) : Rng (list A) :=
  match n with
  | O => ret []
  | S n' => a <- body ;; rest <- repeatM n' body ;; ret (a :: rest)
  end.

(** [for i in xs: body(i)], for a body run for its draws only. *)
Fixpoint forM_ {B : Type} (xs : list B) (body : B -> Rng unit) : Rng unit :=
  match xs with
  | [] => ret tt
  | i :: rest => _ <- body i ;; forM_ rest body
  end.

(** The module-level [random.uniform] on the unseeded generator [g]. *)
Definition random_uniform (a b : R) (g : gen) : R * gen :=
  let (u, g') := random g in (a + (b - a) * u, g').
End Draws.

(** [range(n)] as a list. *)
Definition range (n : nat) : list Z := map Z.of_nat (seq 0 n).

(** [seq[i]] with Python's negative indices, [None] for an [IndexError]. *)
Definition py_index {A : Type} (l : list A) (i : Z) : option A :=
  if (0 <=? i)%Z then nth_error l (Z.to_nat i)
  else if (- Z.of_nat (length l) <=? i)%Z then nth_error l (Z.to_nat (i + Z.of_nat (length l)))
  else None.

(** ** PARTICLE SYSTEM *)

Module Particle.
Record t := mk {
  x : R; y : R; vx : R; vy : R; life : R; max_life : R;
  color : colour; size : R; fade : bool
}.
End Particle.

Module ParticleSystem.
(** [self.particles]. *)
Definition t : Type := list Particle.t.

Definition __init__ : t := [].

(** One round of the loop of [emit]: an angle and a speed drawn from the
    module-level generator. *)
Definition spawn `{PyRandom} (x y vx vy : R) (color : colour) (spread life size : R)
    (fade : bool) (g : gen) : Particle.t * gen :=
  let (angle, g1) := random_uniform 0 (PI * 2) g in
  let (spd, g2) := random_uniform 0 spread g1 in
  (Particle.mk x y (vx + cos angle * spd) (vy + sin angle * spd) life life color size fade,
   g2).

Fixpoint emit `{PyRandom} (self : t) (x y vx vy : R) (color : colour) (count : nat)
    (spread life size : R) (fade : bool) (g : gen) : t * gen :=
  match count with
  | O => (self, g)
  | S n =>
      let (p, g1) := spawn x y vx vy color spread life size fade g in
      emit (self ++ [p]) x y vx vy color n spread life size fade g1
  end.

(** The body of the loop of [update], before the test on [life]. *)
Definition age (dt : R) (p : Particle.t) : Particle.t :=
  Particle.mk (Particle.x p + Particle.vx p * dt) (Particle.y p + Particle.vy p * dt)
              (Particle.vx p * 0.97) (Particle.vy p * 0.97) (Particle.life p - dt)
              (Particle.max_life p) (Particle.color p) (Particle.size p)
              (Particle.fade p).

Definition update (self : t) (dt : R) : t :=
  filter (fun p => Rltb 0 (Particle.life p)) (map (age dt) self).
End ParticleSystem.

(** ** TERRAIN LAYER

    [TerrainRenderer.__init__] bakes decoration out of the level's seeded
    generator before the arena is generated.  The geometry only feeds the
    drawing code and is not kept; the draws are made in the source's order,
    since the arena is generated from the generator state they leave. *)

Module TerrainRenderer.
Section Bake.
Context `{PyRandom}.

Definition stars (n : nat) (lo hi : Z) (sizes : list Z) : Rng unit :=
_ <- repeatM n (_ <- randint 0 SCREEN_W ;; _ <- randint 0 SCREEN_H ;;
                _ <- randint lo hi ;; _ <- choice sizes ;; ret tt) ;;
ret tt.

(** [while x < SCREEN_W: pts.append(...); x += rng.randint(30, 80)]; the fuel
  bounds the number of iterations. *)
Fixpoint ridge (fuel : nat) (x : Z) : Rng unit :=
if (x <? SCREEN_W)%Z then
  match fuel with
  | O => raise
  | S fuel' => _ <- randint (-25) 25 ;; d <- randint 30 80 ;; ridge fuel' (x + d)%Z
  end
else ret tt.

Definition _bake_lunar : Rng unit :=
_ <- stars 200 150 255 [1; 1; 2]%Z ;;
_ <- repeatM 12 (_ <- randint 80 (SCREEN_W - 80) ;; _ <- randint 80 (SCREEN_H - 80) ;;
                 _ <- randint 20 80 ;; ret tt) ;;
_ <- repeatM 8 (_ <- randint 50 (SCREEN_W - 50) ;;
                _ <- randint (SCREEN_H - 150) (SCREEN_H - 30) ;;
                _ <- randint 60 180 ;; _ <- randint 10 30 ;; ret tt) ;;
_ <- repeatM 3 (_ <- randint (SCREEN_H - 120) (SCREEN_H - 40) ;;
                ridge (Z.to_nat SCREEN_W) 0%Z) ;;
ret tt.

Definition _bake_nebula : Rng unit :=
_ <- stars 250 100 220 [1; 1; 2; 3]%Z ;;
_ <- repeatM 15 (_ <- randint 0 SCREEN_W ;; _ <- randint 0 SCREEN_H ;;
                 _ <- randint 60 220 ;; _ <- randint 40 150 ;;
                 _ <- choice ["teal"; "magenta"; "purple"]%string ;;
                 _ <- randint 15 45 ;; ret tt) ;;
_ <- repeatM 30 (_ <- randint 0 SCREEN_W ;; _ <- randint 0 SCREEN_H ;;
                 _ <- randint 4 18 ;; _ <- uniform 0 PI ;;
                 _ <- choice [0; 1; 2]%Z ;; ret tt) ;;
_ <- repeatM 20 (_ <- randint 0 SCREEN_W ;; _ <- randint 0 SCREEN_H ;;
                 _ <- randint 0 SCREEN_W ;; _ <- randint 0 SCREEN_H ;;
                 _ <- choice [0; 1; 2]%Z ;; ret tt) ;;
ret tt.

Definition _bake_asteroid_graveyard : Rng unit :=
_ <- stars 180 100 200 [1; 1; 2]%Z ;;
_ <- repeatM 25 (_ <- randint 0 SCREEN_W ;; _ <- randint 0 SCREEN_H ;;
                 _ <- randint 15 70 ;;
                 _ <- repeatM 8 (_ <- uniform (-0.3) 0.3 ;; _ <- uniform 0.6 1.0 ;; ret tt) ;;
                 _ <- randint 30 80 ;; ret tt) ;;
_ <- repeatM 60 (_ <- randint 20 (SCREEN_W - 20) ;; _ <- randint 20 (SCREEN_H - 20) ;;
                 _ <- randint 3 10 ;; _ <- randint 40 120 ;; ret tt) ;;
_ <- repeatM 5 (_ <- randint 100 (SCREEN_W - 100) ;; _ <- randint 100 (SCREEN_H - 100) ;;
                _ <- randint 50 140 ;; _ <- uniform 0 PI ;; _ <- uniform 0.5 2.5 ;;
                ret tt) ;;
_ <- repeatM 12 (_ <- randint 0 SCREEN_W ;; _ <- randint 0 SCREEN_H ;;
                 _ <- randint 40 200 ;; _ <- randint 3 10 ;; _ <- randint 10 35 ;;
                 ret tt) ;;
ret tt.

Definition panel (side : string) : Rng unit :=
if String.eqb side "top" then
  _ <- randint 0 (SCREEN_W - 80) ;; _ <- randint 64 130 ;;
  _ <- randint 40 120 ;; _ <- randint 8 25 ;; ret tt
else if String.eqb side "bottom" then
  _ <- randint 0 (SCREEN_W - 80) ;; _ <- randint (SCREEN_H - 130) (SCREEN_H - 64) ;;
  _ <- randint 40 120 ;; _ <- randint 8 25 ;; ret tt
else if String.eqb side "left" then
  _ <- randint 10 100 ;; _ <- randint 64 (SCREEN_H - 64) ;;
  _ <- randint 8 22 ;; _ <- randint 30 100 ;; ret tt
else
  _ <- randint (SCREEN_W - 110) (SCREEN_W - 30) ;; _ <- randint 64 (SCREEN_H - 64) ;;
  _ <- randint 8 22 ;; _ <- randint 30 100 ;; ret tt.

Definition _bake_black_hole_station : Rng unit :=
_ <- stars 160 80 180 [1; 1; 2]%Z ;;
_ <- repeatM 18 (side <- choice ["top"; "bottom"; "left"; "right"]%string ;; panel side) ;;
_ <- repeatM 6 (_ <- randint 50 (SCREEN_W - 50) ;; _ <- randint 80 (SCREEN_H - 80) ;;
                _ <- randint 30 80 ;; _ <- randint 100 220 ;; _ <- uniform (-0.4) 0.4 ;;
                ret tt) ;;
_ <- repeatM 8 (_ <- randint 60 (SCREEN_W - 60) ;; _ <- randint 80 (SCREEN_H - 80) ;;
                _ <- randint 8 22 ;; ret tt) ;;
ret tt.

(** One cell of the hexagonal grid: a draw only where the node is kept. *)
Definition hex_node (r c : Z) : Rng unit :=
let hx := (100 + c * 175 + (if (r mod 2 =? 0) then 0 else 80))%Z in
let hy := (140 + r * 155)%Z in
if ((60 <? hx) && (hx <? SCREEN_W - 60) && (80 <? hy) && (hy <? SCREEN_H - 80))%Z%bool
then _ <- randint 18 35 ;; ret tt
else ret tt.

(** [list(range(start, stop, step))] draws the step; a zero step raises. *)
Definition grid_lines (lo hi : Z) : Rng unit :=
step <- randint lo hi ;; if (step =? 0)%Z then raise else ret tt.

Definition _bake_pulsar_core : Rng unit :=
_ <- stars 300 150 255 [1; 1; 2; 2; 3]%Z ;;
_ <- grid_lines 55 80 ;;
_ <- grid_lines 55 80 ;;
_ <- forM_ (range 4) (fun r => forM_ (range 7) (fun c => hex_node r c)) ;;
_ <- repeatM 10 (_ <- randint 0 SCREEN_W ;; _ <- randint 64 SCREEN_H ;;
                 _ <- randint 0 SCREEN_W ;; _ <- randint 64 SCREEN_H ;;
                 _ <- randint 8 25 ;; ret tt) ;;
ret tt.

Definition _bake (lid : Z) : Rng unit :=
if (lid =? 0)%Z then _bake_lunar
else if (lid =? 1)%Z then _bake_nebula
else if (lid =? 2)%Z then _bake_asteroid_graveyard
else if (lid =? 3)%Z then _bake_black_hole_station
else if (lid =? 4)%Z then _bake_pulsar_core
else ret tt.
End Bake.
End TerrainRenderer.

(** ** LEVEL MAP *)

Module LevelMap.
Record t := mk {
  level_id : Z;
  cfg : Level.t;
  anomalies : list GravityAnomaly.t;
  boost_pads : list BoostPad.t;
  asteroids : list MovingAsteroid.t;
  pulse_rings : list PulseRing.t;
  lightning : list LightningNode.t;
  crystal_shards : list CrystalShard.t;
  gravity_corridors : list GravityCorridor.t
}.

(** [name in cfg["hazards"]]. *)
Definition has_hazard (name : string) (c : Level.t) : bool :=
  existsb (String.eqb name) (Level.hazards c).

Section Generate.
Context `{PyRandom}.

Definition gen_pad : Rng (Z * Z) :=
  px <- randint 120 (SCREEN_W - 120) ;;
  py <- randint 90 (SCREEN_H - 90) ;;
  ret (px, py).

Definition gen_anomaly (kinds : list anomaly_kind) : Rng GravityAnomaly.t :=
  kind <- choice kinds ;;
  ax <- randint 220 (SCREEN_W - 220) ;;
  ay <- randint 130 (SCREEN_H - 130) ;;
  r <- randint 55 115 ;;
  s <- (if anomaly_kind_eqb kind black_hole then uniform 100 220
        else uniform (-50) (-110)) ;;
  s <- (if anomaly_kind_eqb kind nebula then uniform 25 55 else ret s) ;;
  ret (GravityAnomaly.mk (IZR ax) (IZR ay) (IZR r) s kind).

Definition gen_asteroid (lid : Z) : Rng MovingAsteroid.t :=
  let spd : R := if (lid =? 3)%Z then 60 else 80 in
  let col : colour :=
    if (lid =? 2)%Z then (160, 100, 50)%Z
    else if (lid =? 3)%Z then (120, 20, 40)%Z
    else (130, 110, 90)%Z in
  ax <- randint 200 (SCREEN_W - 200) ;;
  ay <- randint 90 (SCREEN_H - 90) ;;
  r <- randint 14 32 ;;
  avx <- uniform (- spd) spd ;;
  avy <- uniform (- spd * 0.8) (spd * 0.8) ;;
  ang <- uniform 0 (PI * 2) ;;
  spin <- uniform (-2.5) 2.5 ;;
  ret (MovingAsteroid.mk (IZR ax) (IZR ay) (IZR r) avx avy ang spin col).

Definition gen_shard : Rng CrystalShard.t :=
  sx <- randint 100 (SCREEN_W - 100) ;;
  sy <- randint 80 (SCREEN_H - 80) ;;
  ang <- uniform 0 (PI * 2) ;;
  size <- randint 18 45 ;;
  spin <- uniform (-0.8) 0.8 ;;
  ret (CrystalShard.mk (IZR sx) (IZR sy) ang (IZR size) spin).

Definition gen_corridor : Rng GravityCorridor.t :=
  gx <- randint 200 (SCREEN_W - 200) ;;
  gy <- randint 100 (SCREEN_H - 100) ;;
  w <- randint 40 80 ;;
  h <- randint 80 180 ;;
  s <- uniform 150 300 ;;
  dir <- uniform 0 (PI * 2) ;;
  ret (GravityCorridor.mk (IZR gx) (IZR gy) (IZR w) (IZR h) s dir).

Definition gen_ring (accent : colour) : Rng PulseRing.t :=
  rx <- randint 200 (SCREEN_W - 200) ;;
  ry <- randint 100 (SCREEN_H - 100) ;;
  mr <- randint 80 160 ;;
  sp <- uniform 80 160 ;;
  ret (PulseRing.mk (IZR rx) (IZR ry) 10 (IZR mr) sp accent).

Definition gen_node : Rng LightningNode.t :=
  nx <- randint 150 (SCREEN_W - 150) ;;
  ny <- randint 80 (SCREEN_H - 80) ;;
  tm <- uniform 1.5 4.0 ;;
  r <- randint 50 90 ;;
  ret (LightningNode.mk (IZR nx) (IZR ny) tm false (IZR r)).

Definition _generate (lid : Z) (c : Level.t) : Rng t :=
  n <- randint 3 6 ;;
  more <- repeatM (Z.to_nat n) gen_pad ;;
  let pads := (SCREEN_W / 2, SCREEN_H / 2)%Z :: more in
  let boost_pads := map (fun p => BoostPad.new (IZR (fst p)) (IZR (snd p))) pads in
  anomalies <- repeatM (Level.max_anomalies c) (gen_anomaly (Level.anomaly_types c)) ;;
  asteroids <- repeatM (Level.max_asteroids c) (gen_asteroid lid) ;;
  shards <- (if has_hazard "crystal_shards" c then repeatM 8 gen_shard else ret []) ;;
  corridors <- (if has_hazard "gravity_corridors" c then repeatM 3 gen_corridor
                else ret []) ;;
  rings <- (if has_hazard "pulse_rings" c then repeatM 3 (gen_ring (Level.accent c))
            else ret []) ;;
  nodes <- (if has_hazard "lightning_nodes" c then repeatM 5 gen_node else ret []) ;;
  ret (mk lid c anomalies boost_pads asteroids rings nodes shards corridors).

(** [LevelMap(level_id)]: [None] when the constructor raises. *)
Definition __init__ (lid : Z) : option t :=
  match py_index LEVELS lid with
  | None => None
  | Some c =>
      match (_ <- TerrainRenderer._bake lid ;; _generate lid c)
              (Random (lid * 137 + 42)%Z) with
      | Some (m, _) => Some m
      | None => None
      end
  end.
End Generate.

(** *** [update]: the loop bodies, then the method *)

Definition update_pad (dt : R) (pad : BoostPad.t) : BoostPad.t :=
  if negb (BoostPad.active pad) then
    let cd := BoostPad.cooldown pad - dt in
    BoostPad.mk (BoostPad.x pad) (BoostPad.y pad) (BoostPad.radius pad)
                (if Rleb cd 0 then true else BoostPad.active pad) cd
  else pad.

Definition update_asteroid (dt : R) (ast : MovingAsteroid.t) : MovingAsteroid.t :=
  let r := MovingAsteroid.radius ast in
  let x := MovingAsteroid.x ast + MovingAsteroid.vx ast * dt in
  let y := MovingAsteroid.y ast + MovingAsteroid.vy ast * dt in
  let angle := MovingAsteroid.angle ast + MovingAsteroid.spin ast * dt in
  let vx := if Rltb x r || Rltb (IZR SCREEN_W - r) x
            then MovingAsteroid.vx ast * -1 else MovingAsteroid.vx ast in
  let vy := if Rltb y r || Rltb (IZR SCREEN_H - r) y
            then MovingAsteroid.vy ast * -1 else MovingAsteroid.vy ast in
  MovingAsteroid.mk x y r vx vy angle (MovingAsteroid.spin ast) (MovingAsteroid.color ast).

Definition update_shard (dt : R) (cs : CrystalShard.t) : CrystalShard.t :=
  CrystalShard.mk (CrystalShard.x cs) (CrystalShard.y cs)
                  (CrystalShard.angle cs + CrystalShard.spin cs * dt)
                  (CrystalShard.size cs) (CrystalShard.spin cs).

Definition update_ring (dt : R) (pr : PulseRing.t) : PulseRing.t :=
  let radius := PulseRing.radius pr + PulseRing.speed pr * dt in
  PulseRing.mk (PulseRing.cx pr) (PulseRing.cy pr)
               (if Rltb (PulseRing.max_radius pr) radius then 10 else radius)
               (PulseRing.max_radius pr) (PulseRing.speed pr) (PulseRing.color pr).

Section Update.
Context `{PyRandom}.

(** One lightning node; a toggle draws the next duration from the
    module-level generator [g]. *)
Definition update_node (dt : R) (ln : LightningNode.t) (g : gen)
  : LightningNode.t * gen :=
  let timer := LightningNode.timer ln - dt in
  if Rleb timer 0 then
    let active := negb (LightningNode.active ln) in
    let (timer', g') := if active then random_uniform 0.4 2.5 g
                        else random_uniform 1.0 4.0 g in
    (LightningNode.mk (LightningNode.x ln) (LightningNode.y ln) timer' active
                      (LightningNode.radius ln), g')
  else
    (LightningNode.mk (LightningNode.x ln) (LightningNode.y ln) timer
                      (LightningNode.active ln) (LightningNode.radius ln), g).

Fixpoint update_nodes (dt : R) (l : list LightningNode.t) (g : gen)
  : list LightningNode.t * gen :=
  match l with
  | [] => ([], g)
  | ln :: rest =>
      let (ln', g1) := update_node dt ln g in
      let (rest', g2) := update_nodes dt rest g1 in
      (ln' :: rest', g2)
  end.

Definition update (self : t) (dt : R) (g : gen) : t * gen :=
  let (nodes, g') := update_nodes dt (lightning self) g in
  (mk (level_id self) (cfg self) (anomalies self)
      (map (update_pad dt) (boost_pads self))
      (map (update_asteroid dt) (asteroids self))
      (map (update_ring dt) (pulse_rings self))
      nodes
      (map (update_shard dt) (crystal_shards self))
      (gravity_corridors self), g').

(** The map after the ticks [dts], one [update] each. *)
Fixpoint run (self : t) (dts : list R) (g : gen) : t * gen :=
  match dts with
  | [] => (self, g)
  | dt :: rest => let (m, g') := update self dt g in run m rest g'
  end.
End Update.

(** *** [apply_gravity] *)

Definition anomaly_step (ox oy mass dt : R) (v : R * R) (a : GravityAnomaly.t) : R * R :=
  let (vx, vy) := v in
  let dx := GravityAnomaly.x a - ox in
  let dy := GravityAnomaly.y a - oy in
  let dist := Rmax 1 (sqrt (dx ^ 2 + dy ^ 2)) in
  if anomaly_kind_eqb (GravityAnomaly.kind a) nebula then
    if Rltb dist (GravityAnomaly.radius a)
    then (vx * (1 - 0.35 * dt), vy * (1 - 0.35 * dt))
    else (vx, vy)
  else
    if Rltb dist (GravityAnomaly.radius a * 3) then
      let force := (GravityAnomaly.strength a / Rpower dist 1.2) * dt / mass in
      let nx := dx / dist in
      let ny := dy / dist in
      (vx + nx * force, vy + ny * force)
    else (vx, vy).

Definition in_corridor (ox oy : R) (gc : GravityCorridor.t) : bool :=
  let dx := ox - GravityCorridor.x gc in
  let dy := oy - GravityCorridor.y gc in
  Rltb (Rabs dx) (GravityCorridor.width gc / 2)
  && Rltb (Rabs dy) (GravityCorridor.height gc / 2).

Definition corridor_step (ox oy mass dt : R) (v : R * R) (gc : GravityCorridor.t) : R * R :=
  let (vx, vy) := v in
  if in_corridor ox oy gc then
    let nx := cos (GravityCorridor.direction gc) in
    let ny := sin (GravityCorridor.direction gc) in
    (vx + nx * GravityCorridor.strength gc * dt / mass,
     vy + ny * GravityCorridor.strength gc * dt / mass)
  else (vx, vy).

Definition apply_gravity (self : t) (ox oy vx vy mass dt : R) : R * R :=
  let v := fold_left (anomaly_step ox oy mass dt) (anomalies self) (vx, vy) in
  fold_left (corridor_step ox oy mass dt) (gravity_corridors self) v.

(** *** [check_hazard_hit] *)

Definition node_hit (ox oy radius : R) (ln : LightningNode.t) : bool :=
  LightningNode.active ln
  && Rltb (sqrt ((ox - LightningNode.x ln) ^ 2 + (oy - LightningNode.y ln) ^ 2))
          (LightningNode.radius ln + radius).

Definition ring_hit (ox oy radius : R) (pr : PulseRing.t) : bool :=
  let d := sqrt ((ox - PulseRing.cx pr) ^ 2 + (oy - PulseRing.cy pr) ^ 2) in
  Rltb (Rabs (d - PulseRing.radius pr)) (10 + radius).

Definition check_hazard_hit (self : t) (ox oy radius : R) : bool :=
  if existsb (node_hit ox oy radius) (lightning self) then true
  else if existsb (ring_hit ox oy radius) (pulse_rings self) then true
  else false.
End LevelMap.

(** ** CAR *)

(** The two consecutive [if] lines that keep one coordinate [p] (velocity [v])
    between [pad] and [hi - pad], bouncing with restitution [e]:
    [if p < pad: p = pad; v = abs(v) * e] and then
    [if p > hi - pad: p = hi - pad; v = -abs(v) * e]. *)
Definition clamp_axis (pad hi e : R) (pv : R * R) : R * R :=
  let (p, v) := pv in
  let (p1, v1) := if Rltb p pad then (pad, Rabs v * e) else (p, v) in
  if Rltb (hi - pad) p1 then (hi - pad, - Rabs v1 * e) else (p1, v1).

(** [trail.append(p); if len(trail) > n: trail.pop(0)]. *)
Definition push_trail (n : nat) (trail : list (R * R)) (p : R * R) : list (R * R) :=
  let tr := trail ++ [p] in
  if (n <? List.length tr)%nat then tl tr else tr.

Module Car.
Record t := mk {
  x : R; y : R; vx : R; vy : R;
  angle : R;
  is_player : bool;
  boost : R;
  score : Z;
  boosting : bool;
  trail : list (R * R);
  invincible : R;
  color : colour;
  color2 : colour
}.

Definition darker (c : colour) : colour :=
  let '(r, g, b) := c in (Z.max 0 (r - 80), Z.max 0 (g - 80), Z.max 0 (b - 80))%Z.

Definition __init__ (x0 y0 : Z) (is_player : bool) (level_cfg : option Level.t) : t :=
  let col := match level_cfg, LEVELS with
             | Some c, _ | None, c :: _ =>
                 if is_player then Level.accent c else Level.accent2 c
             | None, [] => (0, 0, 0)%Z
             end in
  mk (IZR x0) (IZR y0) 0 0 0 is_player BOOST_MAX 0 false [] 0 col (darker col).

Definition apply_input (self : t) (left right forward back boost_key : bool) (dt : R) : t :=
  let rot_spd := 220 * dt in
  let a1 := if left then angle self - rot_spd * (PI / 180) else angle self in
  let a2 := if right then a1 + rot_spd * (PI / 180) else a1 in
  let accel := 400 in
  let '(vx1, vy1) :=
    if forward then (vx self + cos a2 * accel * dt, vy self + sin a2 * accel * dt)
    else (vx self, vy self) in
  let '(vx2, vy2) :=
    if back then (vx1 - cos a2 * accel * 0.5 * dt, vy1 - sin a2 * accel * 0.5 * dt)
    else (vx1, vy1) in
  let boosting' := boost_key && Rltb 5 (boost self) && forward in
  let '(vx3, vy3, boost') :=
    if boosting'
    then (vx2 + cos a2 * BOOST_SPEED * dt, vy2 + sin a2 * BOOST_SPEED * dt,
          boost self - BOOST_COST * dt)
    else (vx2, vy2, Rmin BOOST_MAX (boost self + BOOST_RECHARGE * dt)) in
  let spd := v2_len (vx3, vy3) in
  let max_s := if boosting' then BOOST_SPEED else MAX_SPEED in
  let '(vx4, vy4) :=
    if Rltb max_s spd then (vx3 * (max_s / spd), vy3 * (max_s / spd)) else (vx3, vy3) in
  let drag := if negb forward && negb back then 0.992 else 0.999 in
  mk (x self) (y self) (vx4 * drag) (vy4 * drag) a2 (is_player self) boost'
     (score self) boosting' (trail self) (invincible self) (color self) (color2 self).

(** Lines 981-985 of [update]: keep the car 30 inside the screen. *)
Definition clamp_bounds (p v : R * R) : (R * R) * (R * R) :=
  let pad := 30 in
  let (x1, vx1) := clamp_axis pad (IZR SCREEN_W) 0.6 (fst p, fst v) in
  let (y1, vy1) := clamp_axis pad (IZR SCREEN_H) 0.6 (snd p, snd v) in
  ((x1, y1), (vx1, vy1)).

(** The asteroid loop of [update]: a push of 220 away from each asteroid
    in contact. *)
Definition asteroid_push (px py : R) (v : R * R) (ast : MovingAsteroid.t) : R * R :=
  let (vx0, vy0) := v in
  let dx := px - MovingAsteroid.x ast in
  let dy := py - MovingAsteroid.y ast in
  let d := sqrt (dx ^ 2 + dy ^ 2) in
  let min_d := MovingAsteroid.radius ast + IZR (Z.max CAR_W CAR_H / 2) in
  if Rltb d min_d && Rltb 0.1 d
  then (vx0 + dx / d * 220, vy0 + dy / d * 220)
  else (vx0, vy0).

(** [bp.active] and the car at [(px, py)] within [bp.radius + 16]. *)
Definition picks_up (px py : R) (bp : BoostPad.t) : bool :=
  BoostPad.active bp
  && Rltb (sqrt ((px - BoostPad.x bp) ^ 2 + (py - BoostPad.y bp) ^ 2))
          (BoostPad.radius bp + 16).

(** The boost pad loop of [update]: the meter and the pads after it. *)
Fixpoint pickup (px py : R) (b : R) (pads : list BoostPad.t) : R * list BoostPad.t :=
  match pads with
  | [] => (b, [])
  | bp :: rest =>
      if picks_up px py bp then
        let (b', rest') := pickup px py (Rmin BOOST_MAX (b + 45)) rest in
        (b', BoostPad.mk (BoostPad.x bp) (BoostPad.y bp) (BoostPad.radius bp) false 5.0
               :: rest')
      else
        let (b', rest') := pickup px py b rest in (b', bp :: rest')
  end.

Definition update (self : t) (dt : R) (level_map : LevelMap.t) : t * LevelMap.t :=
  let (vx1, vy1) :=
    LevelMap.apply_gravity level_map (x self) (y self) (vx self) (vy self) 1.0 dt in
  let x1 := x self + vx1 * dt in
  let y1 := y self + vy1 * dt in
  let trail' := push_trail 22 (trail self) (x1, y1) in
  let '((x2, y2), v2) := clamp_bounds (x1, y1) (vx1, vy1) in
  let (vx3, vy3) := fold_left (asteroid_push x2 y2) (LevelMap.asteroids level_map) v2 in
  let inv := if Rltb 0 (invincible self) then invincible self - dt else invincible self in
  let (boost', pads') := pickup x2 y2 (boost self) (LevelMap.boost_pads level_map) in
  (mk x2 y2 vx3 vy3 (angle self) (is_player self) boost' (score self) (boosting self)
      trail' inv (color self) (color2 self),
   LevelMap.mk (LevelMap.level_id level_map) (LevelMap.cfg level_map)
               (LevelMap.anomalies level_map) pads' (LevelMap.asteroids level_map)
               (LevelMap.pulse_rings level_map) (LevelMap.lightning level_map)
               (LevelMap.crystal_shards level_map) (LevelMap.gravity_corridors level_map)).
End Car.

(** ** BALL *)

Module Ball.
Record t := mk { x : R; y : R; vx : R; vy : R; trail : list (R * R); spin : R }.

(** [reset]: back to the centre, with a velocity drawn from the module-level
    generator. *)
Definition reset `{PyRandom} (g : gen) : t * gen :=
  let (vx0, g1) := random_uniform (-120) 120 g in
  let (vy0, g2) := random_uniform (-90) 90 g1 in
  (mk (IZR (SCREEN_W / 2)) (IZR (SCREEN_H / 2)) vx0 vy0 [] 0, g2).

(** Lines 1044-1047 of [update]: keep the ball a radius inside the screen. *)
Definition clamp_bounds (p v : R * R) : (R * R) * (R * R) :=
  let (x1, vx1) := clamp_axis (IZR BALL_RADIUS) (IZR SCREEN_W) 0.9 (fst p, fst v) in
  let (y1, vy1) := clamp_axis (IZR BALL_RADIUS) (IZR SCREEN_H) 0.9 (snd p, snd v) in
  ((x1, y1), (vx1, vy1)).

(** The asteroid loop of [update], on position and velocity. *)
Definition asteroid_bounce (s : (R * R) * (R * R)) (ast : MovingAsteroid.t)
  : (R * R) * (R * R) :=
  let '((px, py), (vx0, vy0)) := s in
  let dx := px - MovingAsteroid.x ast in
  let dy := py - MovingAsteroid.y ast in
  let d := sqrt (dx ^ 2 + dy ^ 2) in
  if Rltb d (IZR BALL_RADIUS + MovingAsteroid.radius ast) && Rltb 0.1 d then
    let nx := dx / d in
    let ny := dy / d in
    let spd := v2_len (vx0, vy0) in
    ((MovingAsteroid.x ast + nx * (IZR BALL_RADIUS + MovingAsteroid.radius ast + 2),
      MovingAsteroid.y ast + ny * (IZR BALL_RADIUS + MovingAsteroid.radius ast + 2)),
     (nx * Rmax spd 160, ny * Rmax spd 160))
  else s.

Definition update (self : t) (dt : R) (level_map : LevelMap.t) : t :=
  let (vx1, vy1) :=
    LevelMap.apply_gravity level_map (x self) (y self) (vx self) (vy self) 0.7 dt in
  let x1 := x self + vx1 * dt in
  let y1 := y self + vy1 * dt in
  let spin' := spin self + 0.05 in
  let trail' := push_trail 16 (trail self) (x1, y1) in
  let s2 := clamp_bounds (x1, y1) (vx1, vy1) in
  let '((x3, y3), (vx3, vy3)) :=
    fold_left asteroid_bounce (LevelMap.asteroids level_map) s2 in
  let spd := v2_len (vx3, vy3) in
  let (vx4, vy4) :=
    if Rltb 750 spd then (vx3 / spd * 750, vy3 / spd * 750) else (vx3, vy3) in
  mk x3 y3 vx4 vy4 trail' spin'.

(** [car_hit(car, particles)]: the result, the ball and the car after the
    call. *)
Definition car_hit (self : t) (car : Car.t) : bool * t * Car.t :=
  let dx := x self - Car.x car in
  let dy := y self - Car.y car in
  let d := sqrt (dx ^ 2 + dy ^ 2) in
  let min_d := IZR (BALL_RADIUS + Z.max CAR_W CAR_H / 2) in
  if Rltb d min_d && Rltb 0.1 d then
    let nx := dx / d in
    let ny := dy / d in
    let car_spd := v2_len (Car.vx car, Car.vy car) in
    let impact := Rmax (car_spd * 0.8) 260 + (if Car.boosting car then 200 else 0) in
    (true,
     mk (Car.x car + nx * (min_d + 2)) (Car.y car + ny * (min_d + 2))
        (nx * impact + Car.vx car * 0.3) (ny * impact + Car.vy car * 0.3)
        (trail self) (spin self),
     Car.mk (Car.x car) (Car.y car) (Car.vx car - nx * 80) (Car.vy car - ny * 80)
            (Car.angle car) (Car.is_player car) (Car.boost car) (Car.score car)
            (Car.boosting car) (Car.trail car) (Car.invincible car)
            (Car.color car) (Car.color2 car))
  else (false, self, car).
End Ball.

(** ** AI BRAIN *)

Inductive AIDifficulty := EASY | MEDIUM | HARD | ELITE.

Module AIBrain.
Record t := mk {
  diff : AIDifficulty;
  state : string;
  state_timer : R;
  think_timer : R;
  goals_conceded : Z;
  goals_scored : Z;
  reaction_delay : R;
  aim_noise : R
}.

Definition __init__ (d : AIDifficulty) : t :=
  mk d "idle" 0 0 0 0
     (match d with EASY => 0.5 | MEDIUM => 0.25 | HARD => 0.1 | ELITE => 0.0 end)
     (match d with EASY => 30.0 | MEDIUM => 15.0 | HARD => 6.0 | ELITE => 1.0 end).

Definition adapt (self : t) : t :=
  let d := (goals_scored self - goals_conceded self)%Z in
  if (d <? -2)%Z then
    mk (diff self) (state self) (state_timer self) (think_timer self)
       (goals_conceded self) (goals_scored self)
       (Rmax 0.0 (reaction_delay self - 0.05))
       (Rmax 1.0 (aim_noise self - 3.0))
  else if (2 <? d)%Z then
    mk (diff self) (state self) (state_timer self) (think_timer self)
       (goals_conceded self) (goals_scored self)
       (Rmin 0.6 (reaction_delay self + 0.03))
       (Rmin 40.0 (aim_noise self + 2.0))
  else self.

(** [self.goals_scored += 1] and [self.goals_conceded += 1], as the match
    does before it calls [adapt]. *)
Definition scored (self : t) : t :=
  mk (diff self) (state self) (state_timer self) (think_timer self)
     (goals_conceded self) (goals_scored self + 1)%Z
     (reaction_delay self) (aim_noise self).

Definition conceded (self : t) : t :=
  mk (diff self) (state self) (state_timer self) (think_timer self)
     (goals_conceded self + 1)%Z (goals_scored self)
     (reaction_delay self) (aim_noise self).
(** [d.get(k)] on a dict with string keys, kept as its list of items. *)
Fixpoint dict_get {A : Type} (d : list (string * A)) (k : string) : option A :=
  match d with
  | [] => None
  | (k', a) :: rest => if String.eqb k k' then Some a else dict_get rest k
  end.

Definition q_weights : list (string * list (string * R)) := [
  ("idle",        [("chase_ball", 0.7); ("defend_goal", 0.3)]);
  ("chase_ball",  [("attack_goal", 0.6); ("defend_goal", 0.3); ("boost_hunt", 0.1)]);
  ("attack_goal", [("chase_ball", 0.5); ("defend_goal", 0.3); ("retreat", 0.2)]);
  ("defend_goal", [("chase_ball", 0.6); ("attack_goal", 0.2); ("boost_hunt", 0.2)]);
  ("retreat",     [("defend_goal", 0.5); ("chase_ball", 0.4); ("boost_hunt", 0.1)]);
  ("boost_hunt",  [("chase_ball", 0.7); ("attack_goal", 0.3)])
]%string.

(** [self.q_weights.get(state, self.q_weights["idle"])]. *)
Definition weights_for (st : string) : list (string * R) :=
  match dict_get q_weights st with
  | Some w => w
  | None => match dict_get q_weights "idle" with Some w => w | None => [] end
  end.

(** The loop of [predict_ball]. *)
Fixpoint predict_steps (steps : nat) (dt px py pvx pvy : R) : R * R :=
  match steps with
  | O => (px, py)
  | S n => predict_steps n dt (px + pvx * dt) (py + pvy * dt) pvx pvy
  end.

Definition predict_ball (ball : Ball.t) (steps : nat) (dt : R) : R * R :=
  predict_steps steps dt (Ball.x ball) (Ball.y ball) (Ball.vx ball) (Ball.vy ball).

(** [choose_state]; [np_choice candidates probs] stands for the draw of
    [np.random.choice(candidates, p=probs)]. *)
Definition choose_state (self : t) (car : Car.t) (ball : Ball.t) (level_map : LevelMap.t)
    (np_choice : list string -> list R -> string) : string :=
  let goal_x := IZR (SCREEN_W - GOAL_W / 2) in
  let ball_to_goal := Rabs (Ball.x ball - goal_x) in
  let car_to_ball :=
    sqrt ((Car.x car - Ball.x ball) ^ 2 + (Car.y car - Ball.y ball) ^ 2) in
  let ball_danger := Rltb (IZR SCREEN_W * 0.65) (Ball.x ball) && Rltb ball_to_goal 250 in
  let boost_low := Rltb (Car.boost car) 30 in
  let boost_near :=
    existsb (fun p => BoostPad.active p
                      && Rltb (sqrt ((Car.x car - BoostPad.x p) ^ 2
                                     + (Car.y car - BoostPad.y p) ^ 2)) 200)
            (LevelMap.boost_pads level_map) in
  if ball_danger then "defend_goal"%string
  else if boost_low && boost_near then "boost_hunt"%string
  else if Rltb car_to_ball 150 && Rltb (Ball.x ball) (IZR SCREEN_W * 0.5)
       then "attack_goal"%string
  else
    let weights := weights_for (state self) in
    let candidates := map fst weights in
    let total := fold_right Rplus 0 (map snd weights) in
    let probs := map (fun w => snd w / total) weights in
    np_choice candidates probs.

(** The loop of [get_controls] that looks for the nearest active pad. *)
Definition nearer (car : Car.t) (acc : option BoostPad.t * R) (pad : BoostPad.t)
  : option BoostPad.t * R :=
  if BoostPad.active pad then
    let d := sqrt ((Car.x car - BoostPad.x pad) ^ 2 + (Car.y car - BoostPad.y pad) ^ 2) in
    if Rltb d (snd acc) then (Some pad, d) else acc
  else acc.

(** The target of [get_controls], before the jitter. *)
Definition target (st : string) (car : Car.t) (pred : R * R) (level_map : LevelMap.t)
  : R * R :=
  let (pred_bx, pred_by) := pred in
  let ai_goal_x := IZR (SCREEN_W - GOAL_W - 30) in
  let player_goal_x := IZR (GOAL_W + 30) in
  if String.eqb st "defend_goal" then
    (lerp pred_bx ai_goal_x 0.6, lerp pred_by (IZR (SCREEN_H / 2)) 0.3)
  else if String.eqb st "attack_goal" then
    (pred_bx + (player_goal_x - pred_bx) * 0.3, pred_by)
  else if String.eqb st "boost_hunt" then
    match fst (fold_left (nearer car) (LevelMap.boost_pads level_map) (None, 9999)) with
    | Some nearest => (BoostPad.x nearest, BoostPad.y nearest)
    | None => (pred_bx, pred_by)
    end
  else if String.eqb st "retreat" then (ai_goal_x, IZR (SCREEN_H / 2))
  else (pred_bx, pred_by).

(** The five flags [get_controls] returns. *)
Record controls := mk_controls {
  left : bool; right : bool; forward : bool; back : bool; use_boost : bool
}.

(** [get_controls], on the module-level generator [g]: the brain after the
    call, the flags, and the generator. *)
Definition get_controls `{PyRandom} (self : t) (car : Car.t) (ball : Ball.t)
    (level_map : LevelMap.t) (dt : R) (np_choice : list string -> list R -> string)
    (g : gen) : t * controls * gen :=
  let think := think_timer self - dt in
  let timer := state_timer self + dt in
  let '(st, think', g1) :=
    if Rleb think 0 then
      let st := choose_state self car ball level_map np_choice in
      let (j, g') := random_uniform (-0.05) 0.05 g in
      (st, reaction_delay self + j, g')
    else (state self, think, g) in
  let pred := predict_ball ball 20 0.05 in
  let (tx0, ty0) := target st car pred level_map in
  let (jx, g2) := random_uniform (- aim_noise self) (aim_noise self) g1 in
  let (jy, g3) := random_uniform (- aim_noise self) (aim_noise self) g2 in
  let tx := tx0 + jx in
  let ty := ty0 + jy in
  let dx := tx - Car.x car in
  let dy := ty - Car.y car in
  let ta := atan2 dy dx in
  let ad := py_mod (ta - Car.angle car + PI) (PI * 2) - PI in
  let dist := sqrt (dx ^ 2 + dy ^ 2) in
  (mk (diff self) st timer think' (goals_conceded self) (goals_scored self)
      (reaction_delay self) (aim_noise self),
   mk_controls (Rltb ad (-0.08)) (Rltb 0.08 ad) (Rltb 40 dist) false
               (Rltb 40 (Car.boost car) && Rltb 150 dist
                && (String.eqb st "attack_goal" || String.eqb st "defend_goal")),
   g3).
End AIBrain.

(** ** GOAL ZONE *)

(** [pygame.Rect], on integer coordinates.  [collidepoint] is the library's:
    a point is inside from the left and top edges on, up to but without the
    right and bottom edges. *)
Module Rect.
Record t := mk { left : Z; top : Z; width : Z; height : Z }.

Definition collidepoint (r : t) (px py : Z) : bool :=
  ((left r <=? px) && (px <? left r + width r)
   && (top r <=? py) && (py <? top r + height r))%Z.
End Rect.

Module GoalZone.
Record t := mk { side : string; x : Z; y : Z; rect : Rect.t; color : colour }.

Definition __init__ (side : string) (level_cfg : Level.t) : t :=
  let x0 := if String.eqb side "left" then 0%Z else (SCREEN_W - GOAL_W)%Z in
  let y0 := ((SCREEN_H - GOAL_H) / 2)%Z in
  mk side x0 y0 (Rect.mk x0 y0 GOAL_W GOAL_H)
     (if String.eqb side "left" then Level.accent level_cfg else Level.accent2 level_cfg).

Definition check_goal (self : t) (ball : Ball.t) : bool :=
  Rect.collidepoint (rect self) (py_int (Ball.x ball)) (py_int (Ball.y ball)).
End GoalZone.

(** ** GAME: the match, as far as scoring goes *)

Inductive phase := select | playing | goal_flash | gameover.

Module Game.
Definition MATCH_TIME : R := 120.0.

(** The fields of the match that the scoring and the clock read or write;
    the screen, fonts, particles and messages are not kept. *)
Record t := mk {
  state : phase;
  level_id : Z;
  level_map : LevelMap.t;
  player : Car.t;
  ai_car : Car.t;
  ball : Ball.t;
  goal_l : GoalZone.t;
  goal_r : GoalZone.t;
  ai_brain : AIBrain.t;
  time_left : R;
  combo : Z;
  flash_timer : R;
  winner : option string
}.

(** [_init_game(level_id)] on the module-level generator [g], in a game
    whose phase is [st] (the caller sets it); [None] when the level map
    cannot be built. *)
Definition _init_game `{PyRandom} (st : phase) (lid : Z) (g : gen) : option (t * gen) :=
  match LevelMap.__init__ lid with
  | None => None
  | Some lm =>
      let c := LevelMap.cfg lm in
      let (b, g') := Ball.reset g in
      Some (mk st lid lm
               (Car.__init__ 180 (SCREEN_H / 2) true (Some c))
               (Car.__init__ (SCREEN_W - 180) (SCREEN_H / 2) false (Some c))
               b (GoalZone.__init__ "left" c) (GoalZone.__init__ "right" c)
               (AIBrain.__init__ MEDIUM) MATCH_TIME 1 0 None, g')
  end.

(** [reset_positions], on one car placed back at [x0]. *)
Definition kickoff (c : Car.t) (x0 : Z) : Car.t :=
  Car.mk (IZR x0) (IZR (SCREEN_H / 2)) 0 0 (Car.angle c) (Car.is_player c)
         (Car.boost c) (Car.score c) (Car.boosting c) [] (Car.invincible c)
         (Car.color c) (Car.color2 c).

(** The velocity kick of a hazard hit: [vx += kx; vy += ky]. *)
Definition kick (c : Car.t) (kx ky : R) : Car.t :=
  Car.mk (Car.x c) (Car.y c) (Car.vx c + kx) (Car.vy c + ky) (Car.angle c)
         (Car.is_player c) (Car.boost c) (Car.score c) (Car.boosting c) (Car.trail c)
         (Car.invincible c) (Car.color c) (Car.color2 c).

(** The hazard check of [update] on the player's car: two draws of the
    module-level generator on a hit. *)
Definition hazard_check `{PyRandom} (lm : LevelMap.t) (c : Car.t) (g : gen) : Car.t * gen :=
  if LevelMap.check_hazard_hit lm (Car.x c) (Car.y c) (IZR (Z.max CAR_W CAR_H / 2)) then
    let (kx, g1) := random_uniform (-120) 120 g in
    let (ky, g2) := random_uniform (-120) 120 g1 in
    (kick c kx ky, g2)
  else (c, g).

Definition add_score (c : Car.t) : Car.t :=
  Car.mk (Car.x c) (Car.y c) (Car.vx c) (Car.vy c) (Car.angle c) (Car.is_player c)
         (Car.boost c) (Car.score c + 1)%Z (Car.boosting c) (Car.trail c)
         (Car.invincible c) (Car.color c) (Car.color2 c).

(** Lines 1527-1536 of [update], with the [_goal_event] they call: the left
    goal scores for the AI, otherwise the right goal for the player. *)
Definition goals (self : t) : t :=
  if GoalZone.check_goal (goal_l self) (ball self) then
    mk goal_flash (level_id self) (level_map self) (player self)
       (add_score (ai_car self)) (ball self) (goal_l self) (goal_r self)
       (AIBrain.adapt (AIBrain.scored (ai_brain self)))
       (time_left self) 1 1.2 (winner self)
  else if GoalZone.check_goal (goal_r self) (ball self) then
    mk goal_flash (level_id self) (level_map self) (add_score (player self))
       (ai_car self) (ball self) (goal_l self) (goal_r self)
       (AIBrain.adapt (AIBrain.conceded (ai_brain self)))
       (time_left self) (Z.min (combo self + 1) 8) 1.2 (winner self)
  else self.
(** [reset_positions]: both cars and the ball back to the kick-off. *)
Definition reset_positions `{PyRandom} (self : t) (g : gen) : t * gen :=
  let (b, g') := Ball.reset g in
  (mk (state self) (level_id self) (level_map self)
      (kickoff (player self) 180) (kickoff (ai_car self) (SCREEN_W - 180)) b
      (goal_l self) (goal_r self) (ai_brain self) (time_left self) (combo self)
      (flash_timer self) (winner self), g').


End Game.

(** ** What a match does to a car and to the combo counter *)

(** The states of a car in a match: built by [Car.__init__], then driven by
    [apply_input] and [update] with the clock's [dt], which [Game.run] keeps
    in [[0, 0.05]], and written by the ball's recoil, a hazard kick, a goal
    and the kick-off. *)
Inductive car_reachable : Car.t -> Prop :=
| car_new : forall x0 y0 p cfg, car_reachable (Car.__init__ x0 y0 p cfg)
| car_input : forall c l r f b k dt,
    car_reachable c -> 0 <= dt <= 0.05 ->
    car_reachable (Car.apply_input c l r f b k dt)
| car_update : forall c dt lm,
    car_reachable c -> 0 <= dt <= 0.05 ->
    car_reachable (fst (Car.update c dt lm))
| car_recoil : forall c ball,
    car_reachable c -> car_reachable (snd (Ball.car_hit ball c))
| car_kick : forall c kx ky,
    car_reachable c -> car_reachable (Game.kick c kx ky)
| car_goal : forall c,
    car_reachable c -> car_reachable (Game.add_score c)
| car_kickoff : forall c x0,
    car_reachable c -> car_reachable (Game.kickoff c x0).

(** The states of a match: started by [_init_game], then the goal check of
    [update], and every other statement of the program, none of which
    assigns the combo counter. *)
Inductive game_reachable `{PyRandom} : Game.t -> Prop :=
| game_init : forall st lid g game g',
    Game._init_game st lid g = Some (game, g') -> game_reachable game
| game_goals : forall game,
    game_reachable game -> game_reachable (Game.goals game)
| game_other : forall game game',
    game_reachable game -> Game.combo game' = Game.combo game -> game_reachable game'.

(** ** EVENTS

    [Game.handle_events]: the window's QUIT and the key presses it reads;
    every other event is passed over. *)

Inductive key :=
  K_LEFT | K_a | K_RIGHT | K_d | K_RETURN | K_SPACE | K_ESCAPE | K_n | K_r | K_other.


Module Events.
Section Handle.
Context `{PyRandom}.

(** How the handler leaves the program: [sys.exit()], or running with the
    match, [sel_level] and the module-level generator. *)
Inductive outcome := Exit | Go (self : Game.t) (sel_level : Z) (g : gen).

(** [self.state = st]. *)
Definition set_state (self : Game.t) (st : phase) : Game.t :=
  Game.mk st (Game.level_id self) (Game.level_map self) (Game.player self)
          (Game.ai_car self) (Game.ball self) (Game.goal_l self) (Game.goal_r self)
          (Game.ai_brain self) (Game.time_left self) (Game.combo self)
          (Game.flash_timer self) (Game.winner self).

(** [self._init_game(lid); self.state = "playing"]; [None] when it raises. *)
Definition start (lid sel_level : Z) (g : gen) : option outcome :=
  match Game._init_game playing lid g with
  | Some (game, g') => Some (Go game sel_level g')
  | None => None
  end.

(** [Game.__init__], as far as the match goes: the menu, on level 0. *)
Definition __init__ (g : gen) : option outcome :=
  match Game._init_game select 0 g with
  | Some (game, g') => Some (Go game 0 g')
  | None => None
  end.

(** One [KEYDOWN] event. *)
Definition keydown (self : Game.t) (sel_level : Z) (k : key) (g : gen) : option outcome :=
  let n := Z.of_nat (List.length LEVELS) in
  match Game.state self with
  | select =>
      match k with
      | K_LEFT | K_a => Some (Go self ((sel_level - 1) mod n) g)
      | K_RIGHT | K_d => Some (Go self ((sel_level + 1) mod n) g)
      | K_RETURN | K_SPACE => start sel_level sel_level g
      | K_ESCAPE => Some Exit
      | _ => Some (Go self sel_level g)
      end
  | playing =>
      match k with
      | K_ESCAPE => Some (Go (set_state self select) sel_level g)
      | K_n => start ((sel_level + 1) mod n) ((sel_level + 1) mod n) g
      | K_r => start (Game.level_id self) sel_level g
      | _ => Some (Go self sel_level g)
      end
  | goal_flash =>
      match k with
      | K_SPACE =>
          let (game, g') := Game.reset_positions (set_state self playing) g in
          Some (Go game sel_level g')
      | _ => Some (Go self sel_level g)
      end
  | gameover =>
      match k with
      | K_r => start (Game.level_id self) sel_level g
      | K_n => start ((sel_level + 1) mod n) ((sel_level + 1) mod n) g
      | K_ESCAPE => Some (Go (set_state self select) sel_level g)
      | _ => Some (Go self sel_level g)
      end
  end.

End Handle.
End Events.

(** The states of a match as the scoreboard sees them: started by
    [_init_game], then the goal check of [update], and every other statement
    of the program, none of which assigns a car's score or the brain's goal
    counters. *)
Inductive scoreboard_reachable `{PyRandom} : Game.t -> Prop :=
| scoreboard_init : forall st lid g game g',
    Game._init_game st lid g = Some (game, g') -> scoreboard_reachable game
| scoreboard_goals : forall game,
    scoreboard_reachable game -> scoreboard_reachable (Game.goals game)
| scoreboard_other : forall game game',
    scoreboard_reachable game ->
    Car.score (Game.player game') = Car.score (Game.player game) ->
    Car.score (Game.ai_car game') = Car.score (Game.ai_car game) ->
    AIBrain.goals_scored (Game.ai_brain game')
    = AIBrain.goals_scored (Game.ai_brain game) ->
    AIBrain.goals_conceded (Game.ai_brain game')
    = AIBrain.goals_conceded (Game.ai_brain game) ->
    scoreboard_reachable game'.

(** ** A generator to run the model on

    A lawful [PyRandom]: the state counts the draws made, the [n]-th float
    is [1 / (n + 2)] and the [n]-th integer below [k] is [n mod k]. *)

Definition counter_draw (n : nat) : R := / INR (n + 2).

Lemma counter_draw_range : forall n, 0 <= fst (counter_draw n, S n) < 1.
Proof.
  intro n. unfold counter_draw. simpl fst.
  assert (Hn : 2 <= INR (n + 2)).
  { rewrite plus_INR. simpl. pose proof (pos_INR n). lra. }
  split.
  - left. apply Rinv_0_lt_compat. lra.
  - rewrite <- Rinv_1. apply Rinv_lt_contravar; lra.
Qed.

Lemma counter_below_range :
  forall (k : Z) (n : nat), (0 < k)%Z -> (0 <= fst ((Z.of_nat n mod k)%Z, S n) < k)%Z.
Proof. intros k n Hk. simpl. apply Z.mod_pos_bound. exact Hk. Qed.

Definition counter_random : PyRandom := {|
  gen := nat;
  Random := fun seed => Z.abs_nat seed;
  random := fun n => (counter_draw n, S n);
  _randbelow := fun k n => ((Z.of_nat n mod k)%Z, S n);
  random_range := counter_draw_range;
  _randbelow_range := counter_below_range
|}.

(** ** Sample states, for the concrete runs below *)

(** A MEDIUM brain three goals down. *)
Definition brain_losing : AIBrain.t :=
  AIBrain.mk MEDIUM "chase_ball" 0 0 3 0 0.25 15.0.

(** The first level and its left goal. *)
Definition level0 : Level.t :=
  Level.mk 0 "LUNAR COLOSSEUM" (180, 200, 255)%Z (100, 120, 200)%Z [repulsor] 1 0 [].

Definition goal_left : GoalZone.t := GoalZone.__init__ "left" level0.

(** A ball at rest on the goal line [x = 0], and one on the opposite edge of
    the left goal's rectangle, [x = GOAL_W]. *)
Definition ball_on_goal_line : Ball.t := Ball.mk 0 300 0 0 [] 0.
Definition ball_on_right_edge : Ball.t := Ball.mk 22 300 0 0 [] 0.

(** An asteroid of radius 14 drifting left, one unit off the left margin. *)
Definition rock : MovingAsteroid.t :=
  MovingAsteroid.mk 15 100 14 (-40) 0 0 0 (130, 110, 90)%Z.

(** An arena with the centre pad alone, and a car on that pad with the meter
    at 10. *)
Definition centre_pad : BoostPad.t := BoostPad.new 640 360.

Definition one_pad_map : LevelMap.t :=
  LevelMap.mk 0 level0 [] [centre_pad] [] [] [] [] [].

Definition car_on_pad : Car.t :=
  Car.mk 640 360 0 0 0 true 10 0 false [] 0 (180, 200, 255)%Z (100, 120, 175)%Z.

(** An arena with one nebula of radius 80 around [(100, 100)]. *)
Definition nebula_map : LevelMap.t :=
  LevelMap.mk 1 level0 [GravityAnomaly.mk 100 100 80 40 nebula] [] [] [] [] [] [].

(** An arena with one lightning node, switched on, and a ball lying exactly
    on [car_on_pad]. *)
Definition storm_map : LevelMap.t :=
  LevelMap.mk 4 level0 [] [] [] [] [LightningNode.mk 200 200 1.0 true 60] [] [].

Definition ball_on_car : Ball.t := Ball.mk 640 360 30 0 [] 0.

(** An arena with one pulse ring. *)
Definition ring_map : LevelMap.t :=
  LevelMap.mk 4 level0 [] [] [] [PulseRing.mk 400 300 10 80 160 (0, 240, 255)%Z] [] [] [].

(** An arena with one black hole. *)
Definition hole_map : LevelMap.t :=
  LevelMap.mk 3 level0 [GravityAnomaly.mk 400 300 60 150 black_hole] [] [] [] [] [] [].

(** A match in play at its first tick, nothing scored. *)
Definition idle_match : Game.t :=
  Game.mk playing 0 one_pad_map
          (Car.__init__ 180 360 true None) (Car.__init__ 1100 360 false None)
          (Ball.mk 640 360 30 20 [] 0)
          (GoalZone.__init__ "left" level0) (GoalZone.__init__ "right" level0)
          (AIBrain.__init__ MEDIUM) 120 1 0 None.

(** [game] with the ball put at [b]. *)
Definition with_ball (game : Game.t) (b : Ball.t) : Game.t :=
  Game.mk (Game.state game) (Game.level_id game) (Game.level_map game)
          (Game.player game) (Game.ai_car game) b (Game.goal_l game) (Game.goal_r game)
          (Game.ai_brain game) (Game.time_left game) (Game.combo game)
          (Game.flash_timer game) (Game.winner game).

(** [idle_match] on a streak of [combo], the ball rolling into the left
    goal; and the same with the ball rolling into the right goal. *)
Definition ai_goal_match (combo : Z) : Game.t :=
  Game.mk playing 0 one_pad_map
          (Car.__init__ 180 360 true None) (Car.__init__ 1100 360 false None)
          (Ball.mk 10 300 (-200) 0 [] 0)
          (GoalZone.__init__ "left" level0) (GoalZone.__init__ "right" level0)
          (AIBrain.__init__ MEDIUM) 100 combo 0 None.

Definition player_goal_match (combo : Z) : Game.t :=
  Game.mk playing 0 one_pad_map
          (Car.__init__ 180 360 true None) (Car.__init__ 1100 360 false None)
          (Ball.mk 1270 300 200 0 [] 0)
          (GoalZone.__init__ "left" level0) (GoalZone.__init__ "right" level0)
          (AIBrain.__init__ MEDIUM) 100 combo 0 None.


(** * Properties *)

(** ** Comparisons *)

Lemma Rltb_true_iff (a b : R) : Rltb a b = true <-> a < b.
Proof. unfold Rltb. destruct (Rlt_dec a b); split; intro; try easy; discriminate. Qed.

Lemma Rltb_false_iff (a b : R) : Rltb a b = false <-> b <= a.
Proof.
  unfold Rltb. destruct (Rlt_dec a b); split; intro; try easy; try discriminate; lra.
Qed.

Lemma Rleb_true_iff (a b : R) : Rleb a b = true <-> a <= b.
Proof. unfold Rleb. destruct (Rle_dec a b); split; intro; try easy; discriminate. Qed.

Lemma Rleb_false_iff (a b : R) : Rleb a b = false <-> b < a.
Proof.
  unfold Rleb. destruct (Rle_dec a b); split; intro; try easy; try discriminate; lra.
Qed.

(** Decide a comparison of the goal whose sides are numerals. *)
Ltac rcompare :=
  repeat match goal with
    | |- context [Rltb ?a ?b] =>
        first [ rewrite (proj2 (Rltb_true_iff a b)) by lra
              | rewrite (proj2 (Rltb_false_iff a b)) by lra ]
    | |- context [Rleb ?a ?b] =>
        first [ rewrite (proj2 (Rleb_true_iff a b)) by lra
              | rewrite (proj2 (Rleb_false_iff a b)) by lra ]
    end.

(** ** AI adaptation *)

(** C7. One call of [adapt] lowers [aim_noise] by 3.0 down to the floor 1.0
    and [reaction_delay] by 0.05 down to the floor 0.0 when
    [goals_scored - goals_conceded < -2]; raises them by 2.0 up to the cap
    40.0 and by 0.03 up to the cap 0.6 when the differential is above 2;
    and changes nothing when the differential is in [[-2, 2]].  The three
    cases cover every state, so a brain within its floors and caps gets
    sharper only in the first case and looser only in the second, and stays
    within them. *)
Theorem adapt_rubber_band (b : AIBrain.t) :
  let d := (AIBrain.goals_scored b - AIBrain.goals_conceded b)%Z in
  ((d < -2)%Z ->
     AIBrain.aim_noise (AIBrain.adapt b) = Rmax 1.0 (AIBrain.aim_noise b - 3.0)
     /\ AIBrain.reaction_delay (AIBrain.adapt b)
        = Rmax 0.0 (AIBrain.reaction_delay b - 0.05))
  /\ ((2 < d)%Z ->
     AIBrain.aim_noise (AIBrain.adapt b) = Rmin 40.0 (AIBrain.aim_noise b + 2.0)
     /\ AIBrain.reaction_delay (AIBrain.adapt b)
        = Rmin 0.6 (AIBrain.reaction_delay b + 0.03))
  /\ ((-2 <= d <= 2)%Z -> AIBrain.adapt b = b)
  /\ (1.0 <= AIBrain.aim_noise b <= 40.0 -> 0.0 <= AIBrain.reaction_delay b <= 0.6 ->
      (AIBrain.aim_noise (AIBrain.adapt b) < AIBrain.aim_noise b
       \/ AIBrain.reaction_delay (AIBrain.adapt b) < AIBrain.reaction_delay b
       -> (d < -2)%Z)
      /\ (AIBrain.aim_noise b < AIBrain.aim_noise (AIBrain.adapt b)
          \/ AIBrain.reaction_delay b < AIBrain.reaction_delay (AIBrain.adapt b)
          -> (2 < d)%Z)
      /\ 1.0 <= AIBrain.aim_noise (AIBrain.adapt b) <= 40.0
      /\ 0.0 <= AIBrain.reaction_delay (AIBrain.adapt b) <= 0.6).
Proof.
  intro d. unfold AIBrain.adapt. fold d.
  destruct (Z.ltb_spec d (-2)) as [Hlo | Hlo];
    [ | destruct (Z.ltb_spec 2 d) as [Hhi | Hhi] ]; simpl;
  (split; [ intro; try lia; split; reflexivity
          | split; [ intro; try lia; split; reflexivity
                   | split; [ intro; try lia; reflexivity | ] ] ]);
  intros Ha Hr; unfold Rmax, Rmin;
  repeat destruct (Rle_dec _ _);
  (split; [ intros [Hc | Hc]; try lia; lra
          | split; [ intros [Hc | Hc]; try lia; lra | lra ] ]).
Qed.

(** [brain_losing]: the noise drops from 15 to 12 and the delay from 0.25
    to 0.2. *)
Lemma adapt_rubber_band_witness :
  AIBrain.aim_noise (AIBrain.adapt brain_losing) = Rmax 1.0 (15.0 - 3.0)
  /\ AIBrain.reaction_delay (AIBrain.adapt brain_losing) = Rmax 0.0 (0.25 - 0.05).
Proof.
  apply (proj1 (adapt_rubber_band brain_losing)).
  simpl. lia.
Defined.

(** ** Hazard contact *)

(** C9. [check_hazard_hit] answers true exactly when some lightning node is
    active and closer than [node.radius + radius], or the distance [d] to
    some pulse ring's centre has [|d - ring.radius| < 10 + radius]: the body
    touches the ring's band. *)
Theorem check_hazard_hit_iff (m : LevelMap.t) (ox oy radius : R) :
  LevelMap.check_hazard_hit m ox oy radius = true <->
  (exists ln, In ln (LevelMap.lightning m)
              /\ LightningNode.active ln = true
              /\ sqrt ((ox - LightningNode.x ln) ^ 2 + (oy - LightningNode.y ln) ^ 2)
                 < LightningNode.radius ln + radius)
  \/ (exists pr, In pr (LevelMap.pulse_rings m)
                 /\ Rabs (sqrt ((ox - PulseRing.cx pr) ^ 2 + (oy - PulseRing.cy pr) ^ 2)
                          - PulseRing.radius pr)
                    < 10 + radius).
Proof.
  unfold LevelMap.check_hazard_hit.
  destruct (existsb (LevelMap.node_hit ox oy radius) (LevelMap.lightning m)) eqn:Hn.
  - split; [ intros _ | reflexivity ].
    left. apply existsb_exists in Hn. destruct Hn as [ln [Hin Hhit]].
    unfold LevelMap.node_hit in Hhit. apply andb_true_iff in Hhit.
    destruct Hhit as [Ha Hd]. apply Rltb_true_iff in Hd.
    exists ln. auto.
  - destruct (existsb (LevelMap.ring_hit ox oy radius) (LevelMap.pulse_rings m)) eqn:Hr.
    + split; [ intros _ | reflexivity ].
      right. apply existsb_exists in Hr. destruct Hr as [pr [Hin Hhit]].
      unfold LevelMap.ring_hit in Hhit. apply Rltb_true_iff in Hhit.
      exists pr. auto.
    + split; [ discriminate | ].
      intros [[ln [Hin [Ha Hd]]] | [pr [Hin Hd]]]; exfalso.
      * assert (Ht : existsb (LevelMap.node_hit ox oy radius) (LevelMap.lightning m) = true).
        { apply existsb_exists. exists ln. split; [ exact Hin | ].
          unfold LevelMap.node_hit. rewrite Ha. simpl. apply Rltb_true_iff. exact Hd. }
        congruence.
      * assert (Ht : existsb (LevelMap.ring_hit ox oy radius) (LevelMap.pulse_rings m) = true).
        { apply existsb_exists. exists pr. split; [ exact Hin | ].
          unfold LevelMap.ring_hit. apply Rltb_true_iff. exact Hd. }
        congruence.
Qed.

(** ** Ball against car *)

(** C10. [car_hit] answers true exactly when the distance [d] between the
    centres has [0.1 < d < BALL_RADIUS + max(CAR_W, CAR_H) // 2], which is
    34; when it answers false, the exact overlap [d <= 0.1] included, the ball
    and the car come back as they went in. *)
Theorem car_hit_iff (ball : Ball.t) (car : Car.t) :
  let d := sqrt ((Ball.x ball - Car.x car) ^ 2 + (Ball.y ball - Car.y car) ^ 2) in
  IZR (BALL_RADIUS + Z.max CAR_W CAR_H / 2) = 34
  /\ (fst (fst (Ball.car_hit ball car)) = true <->
      0.1 < d < IZR (BALL_RADIUS + Z.max CAR_W CAR_H / 2))
  /\ (fst (fst (Ball.car_hit ball car)) = false ->
      Ball.car_hit ball car = (false, ball, car)).
Proof.
  intro d. split; [ reflexivity | ].
  unfold Ball.car_hit. fold d.
  destruct (Rltb d (IZR (BALL_RADIUS + Z.max CAR_W CAR_H / 2)) && Rltb 0.1 d) eqn:Hc.
  - apply andb_true_iff in Hc. destruct Hc as [H1 H2].
    apply Rltb_true_iff in H1. apply Rltb_true_iff in H2.
    cbn [fst]. split; [ | discriminate ]. split; auto.
  - cbn [fst]. split; [ | reflexivity ].
    split; [ discriminate | ]. intros [H2 H1].
    apply Rltb_true_iff in H1. apply Rltb_true_iff in H2.
    rewrite H1, H2 in Hc. discriminate.
Qed.

(** ** Draws that return *)

Section Returns.
Context `{PyRandom}.

(** [c] raises on no generator state, and what it returns satisfies [P]. *)
Definition returns {A : Type} (P : A -> Prop) (c : Rng A) : Prop :=
  forall g, exists a g', c g = Some (a, g') /\ P a.

Lemma returns_ret {A : Type} (P : A -> Prop) (a : A) : P a -> returns P (ret a).
Proof. intros Ha g. exists a, g. split; [ reflexivity | exact Ha ]. Qed.

Lemma returns_bind {A B : Type} (P : A -> Prop) (Q : B -> Prop)
      (c : Rng A) (k : A -> Rng B) :
  returns P c -> (forall a, P a -> returns Q (k a)) -> returns Q (bind c k).
Proof.
  intros Hc Hk g. destruct (Hc g) as [a [g1 [Ec Pa]]].
  destruct (Hk a Pa g1) as [b [g2 [Ek Qb]]].
  exists b, g2. unfold bind. rewrite Ec. split; assumption.
Qed.

Lemma returns_weaken {A : Type} (P Q : A -> Prop) (c : Rng A) :
  returns P c -> (forall a, P a -> Q a) -> returns Q c.
Proof.
  intros Hc HPQ g. destruct (Hc g) as [a [g1 [Ec Pa]]].
  exists a, g1. split; [ exact Ec | apply HPQ; exact Pa ].
Qed.

Lemma returns_randint (a b : Z) :
  (a <= b)%Z -> returns (fun v => (a <= v <= b)%Z) (randint a b).
Proof.
  intros Hab g. unfold randint.
  destruct (Z.ltb_spec 0 (b - a + 1)) as [Hw | Hw]; [ | lia ].
  pose proof (_randbelow_range (b - a + 1)%Z g Hw) as Hk.
  destruct (_randbelow (b - a + 1) g) as [k g1]. simpl in Hk.
  exists (a + k)%Z, g1. split; [ reflexivity | lia ].
Qed.

Lemma returns_uniform (a b : R) :
  returns (fun v => exists u, 0 <= u < 1 /\ v = a + (b - a) * u) (uniform a b).
Proof.
  intro g. unfold uniform. pose proof (random_range g) as Hu.
  destruct (random g) as [u g1]. simpl in Hu.
  exists (a + (b - a) * u), g1. split; [ reflexivity | ]. exists u. auto.
Qed.

Lemma returns_uniform_between (a b : R) :
  a <= b -> returns (fun v => a <= v <= b) (uniform a b).
Proof.
  intro Hab. apply (returns_weaken _ _ _ (returns_uniform a b)).
  intros v [u [Hu Ev]]. subst v. split; nra.
Qed.

Lemma returns_choice {A : Type} (a0 : A) (rest : list A) :
  returns (fun a => In a (a0 :: rest)) (choice (a0 :: rest)).
Proof.
  intro g. unfold choice.
  assert (Hlen : (0 < Z.of_nat (List.length (a0 :: rest)))%Z) by (simpl; lia).
  pose proof (_randbelow_range _ g Hlen) as Hk.
  destruct (_randbelow (Z.of_nat (List.length (a0 :: rest))) g) as [k g1].
  simpl fst in Hk.
  destruct (nth_error (a0 :: rest) (Z.to_nat k)) as [a | ] eqn:En.
  - exists a, g1. split; [ reflexivity | ]. eapply nth_error_In. exact En.
  - exfalso. apply nth_error_None in En. lia.
Qed.

Lemma returns_repeatM {A : Type} (P : A -> Prop) (n : nat) (body : Rng A) :
  returns P body ->
  returns (fun l => List.length l = n /\ Forall P l) (repeatM n body).
Proof.
  intro Hb. induction n as [ | n IH]; simpl.
  - apply returns_ret. split; [ reflexivity | constructor ].
  - eapply returns_bind; [ exact Hb | ]. intros a Pa.
    eapply returns_bind; [ exact IH | ]. intros l [Hl Fl].
    apply returns_ret. split; [ simpl; congruence | constructor; assumption ].
Qed.

Lemma returns_forM_ {B : Type} (xs : list B) (body : B -> Rng unit) :
  (forall i, returns (fun _ => True) (body i)) ->
  returns (fun _ => True) (forM_ xs body).
Proof.
  intro Hb. induction xs as [ | i xs IH]; simpl.
  - apply returns_ret. exact I.
  - eapply returns_bind; [ apply Hb | ]. intros _ _. exact IH.
Qed.

(** A computation that returns, whatever it returns. *)
Definition total {A : Type} (c : Rng A) : Prop := returns (fun _ => True) c.

Lemma returns_total {A : Type} (P : A -> Prop) (c : Rng A) : returns P c -> total c.
Proof. intro Hc. apply (returns_weaken P); auto. Qed.

Lemma total_randint (a b : Z) : (a <= b)%Z -> total (randint a b).
Proof. intro Hab. eapply returns_total. apply returns_randint. exact Hab. Qed.

Lemma total_uniform (a b : R) : total (uniform a b).
Proof. eapply returns_total. apply returns_uniform. Qed.

Lemma total_choice {A : Type} (a0 : A) (rest : list A) : total (choice (a0 :: rest)).
Proof. eapply returns_total. apply returns_choice. Qed.

Lemma total_bind {A B : Type} (c : Rng A) (k : A -> Rng B) :
  total c -> (forall a, total (k a)) -> total (bind c k).
Proof. intros Hc Hk. eapply returns_bind; [ exact Hc | ]. intros a _. apply Hk. Qed.

Lemma returns_after {A B : Type} (Q : B -> Prop) (c : Rng A) (k : A -> Rng B) :
  total c -> (forall a, returns Q (k a)) -> returns Q (bind c k).
Proof. intros Hc Hk. eapply returns_bind; [ exact Hc | ]. intros a _. apply Hk. Qed.

Lemma total_ret {A : Type} (a : A) : total (ret a).
Proof. apply returns_ret. exact I. Qed.

Lemma total_repeatM {A : Type} (n : nat) (body : Rng A) :
  total body -> total (repeatM n body).
Proof. intro Hb. eapply returns_total. apply returns_repeatM. exact Hb. Qed.

(** Chains of draws that return: one rule per shape of a body. *)
Ltac total_steps :=
  repeat lazymatch goal with
    | |- returns (fun _ => True) ?c => change (total c)
    | |- total (ret _) => apply total_ret
    | |- total (uniform _ _) => apply total_uniform
    | |- total (choice (_ :: _)) => apply total_choice
    | |- total (randint _ _) => apply total_randint; unfold SCREEN_W, SCREEN_H; lia
    | |- total (repeatM _ _) => apply total_repeatM
    | |- total (bind _ _) => apply total_bind; [ | intro ]
    end.

(** *** The terrain bake returns *)

Lemma total_ridge (fuel : nat) (x : Z) :
  (IZR SCREEN_W - IZR x <= 30 * INR fuel) -> total (TerrainRenderer.ridge fuel x).
Proof.
  revert x. induction fuel as [ | fuel IH]; intros x Hx; simpl.
  - destruct (Z.ltb_spec x SCREEN_W) as [Hlt | Hge]; [ | apply total_ret ].
    exfalso. apply IZR_lt in Hlt. simpl in Hx. lra.
  - destruct (Z.ltb_spec x SCREEN_W) as [Hlt | Hge]; [ | apply total_ret ].
    apply total_bind; [ apply total_randint; lia | intros _ ].
    eapply returns_bind; [ apply (returns_randint 30 80); lia | ].
    intros d Hd. cbv beta in Hd. apply IH.
    rewrite plus_IZR. rewrite S_INR in Hx.
    assert (30 <= IZR d) by (apply IZR_le; lia). lra.
Qed.

Lemma total_grid_lines (lo hi : Z) :
  (0 < lo <= hi)%Z -> total (TerrainRenderer.grid_lines lo hi).
Proof.
  intro Hb. unfold TerrainRenderer.grid_lines.
  eapply returns_bind; [ apply (returns_randint lo hi); lia | ].
  intros step Hs. cbv beta in Hs.
  destruct (Z.eqb_spec step 0); [ lia | apply total_ret ].
Qed.

Lemma total_bake (lid : Z) : total (TerrainRenderer._bake lid).
Proof.
  unfold TerrainRenderer._bake.
  destruct (lid =? 0)%Z; [ | destruct (lid =? 1)%Z; [ | destruct (lid =? 2)%Z;
    [ | destruct (lid =? 3)%Z; [ | destruct (lid =? 4)%Z; [ | apply total_ret ] ] ] ] ].
  - unfold TerrainRenderer._bake_lunar, TerrainRenderer.stars. total_steps.
    apply total_ridge. unfold SCREEN_W. rewrite INR_IZR_INZ.
    rewrite Z2Nat.id by lia. lra.
  - unfold TerrainRenderer._bake_nebula, TerrainRenderer.stars. total_steps.
  - unfold TerrainRenderer._bake_asteroid_graveyard, TerrainRenderer.stars. total_steps.
  - unfold TerrainRenderer._bake_black_hole_station, TerrainRenderer.stars. total_steps.
    unfold TerrainRenderer.panel.
    repeat match goal with |- context [if ?c then _ else _] => destruct c end;
      total_steps.
  - unfold TerrainRenderer._bake_pulsar_core, TerrainRenderer.stars. total_steps.
    + apply total_grid_lines; lia.
    + apply total_grid_lines; lia.
    + apply returns_forM_. intro r. apply returns_forM_. intro c.
      unfold TerrainRenderer.hex_node.
      match goal with |- context [if ?c then _ else _] => destruct c end; total_steps.
Qed.

(** *** The generated layout *)

(** A lightning node as the generator leaves it: off, with a first timer of
    1.5 to 4 seconds. *)
Definition fresh_node (ln : LightningNode.t) : Prop :=
  LightningNode.active ln = false /\ 1.5 <= LightningNode.timer ln <= 4.0.

Lemma returns_gen_node : returns fresh_node LevelMap.gen_node.
Proof.
  unfold LevelMap.gen_node.
  apply returns_after; [ total_steps | intro nx ].
  apply returns_after; [ total_steps | intro ny ].
  eapply returns_bind; [ apply (returns_uniform_between 1.5 4.0); lra | ].
  intros tm Htm. cbv beta in Htm.
  apply returns_after; [ total_steps | intro r ].
  apply returns_ret. split; [ reflexivity | exact Htm ].
Qed.

Lemma total_gen_anomaly (k0 : anomaly_kind) (kinds : list anomaly_kind) :
  total (LevelMap.gen_anomaly (k0 :: kinds)).
Proof.
  unfold LevelMap.gen_anomaly. total_steps.
  - match goal with |- context [if ?c then _ else _] => destruct c end; total_steps.
  - match goal with |- context [if ?c then _ else _] => destruct c end; total_steps.
Qed.

Lemma total_gen_asteroid (lid : Z) : total (LevelMap.gen_asteroid lid).
Proof. unfold LevelMap.gen_asteroid. total_steps. Qed.

(** What [_generate] builds for a level whose [anomaly_types] is not empty:
    the centre pad and three to six more, [max_anomalies] anomalies,
    [max_asteroids] asteroids, and each hazard list filled, with its fixed
    count, only when the level enables it. *)
Definition generated (lid : Z) (c : Level.t) (m : LevelMap.t) : Prop :=
  LevelMap.level_id m = lid
  /\ LevelMap.cfg m = c
  /\ (4 <= List.length (LevelMap.boost_pads m) <= 7)%nat
  /\ hd_error (LevelMap.boost_pads m)
     = Some (BoostPad.new (IZR (SCREEN_W / 2)) (IZR (SCREEN_H / 2)))
  /\ List.length (LevelMap.anomalies m) = Level.max_anomalies c
  /\ List.length (LevelMap.asteroids m) = Level.max_asteroids c
  /\ List.length (LevelMap.crystal_shards m)
     = (if LevelMap.has_hazard "crystal_shards" c then 8 else 0)%nat
  /\ List.length (LevelMap.gravity_corridors m)
     = (if LevelMap.has_hazard "gravity_corridors" c then 3 else 0)%nat
  /\ List.length (LevelMap.pulse_rings m)
     = (if LevelMap.has_hazard "pulse_rings" c then 3 else 0)%nat
  /\ List.length (LevelMap.lightning m)
     = (if LevelMap.has_hazard "lightning_nodes" c then 5 else 0)%nat
  /\ Forall fresh_node (LevelMap.lightning m).

Lemma returns_generate (lid : Z) (c : Level.t) :
  Level.anomaly_types c <> [] -> returns (generated lid c) (LevelMap._generate lid c).
Proof.
  intro Hk. unfold LevelMap._generate.
  eapply returns_bind; [ apply (returns_randint 3 6); lia | ].
  intros n Hn. cbv beta in Hn.
  eapply returns_bind;
    [ apply (returns_repeatM (fun _ => True)); unfold LevelMap.gen_pad; total_steps | ].
  intros more [Hmore _].
  eapply returns_bind.
  { apply (returns_repeatM (fun _ => True)).
    destruct (Level.anomaly_types c) as [ | k0 kinds]; [ congruence | ].
    apply total_gen_anomaly. }
  intros anomalies [Han _].
  eapply returns_bind;
    [ apply (returns_repeatM (fun _ => True)); apply total_gen_asteroid | ].
  intros asteroids [Hast _].
  eapply (returns_bind
            (fun l => List.length l
                      = (if LevelMap.has_hazard "crystal_shards" c then 8 else 0)%nat)).
  { destruct (LevelMap.has_hazard "crystal_shards" c).
    - eapply returns_weaken; [ apply (returns_repeatM (fun _ => True)) | ].
      + unfold LevelMap.gen_shard. total_steps.
      + intros l [Hl _]. exact Hl.
    - apply returns_ret. reflexivity. }
  intros shards Hsh.
  eapply (returns_bind
            (fun l => List.length l
                      = (if LevelMap.has_hazard "gravity_corridors" c then 3 else 0)%nat)).
  { destruct (LevelMap.has_hazard "gravity_corridors" c).
    - eapply returns_weaken; [ apply (returns_repeatM (fun _ => True)) | ].
      + unfold LevelMap.gen_corridor. total_steps.
      + intros l [Hl _]. exact Hl.
    - apply returns_ret. reflexivity. }
  intros corridors Hco.
  eapply (returns_bind
            (fun l => List.length l
                      = (if LevelMap.has_hazard "pulse_rings" c then 3 else 0)%nat)).
  { destruct (LevelMap.has_hazard "pulse_rings" c).
    - eapply returns_weaken; [ apply (returns_repeatM (fun _ => True)) | ].
      + unfold LevelMap.gen_ring. total_steps.
      + intros l [Hl _]. exact Hl.
    - apply returns_ret. reflexivity. }
  intros rings Hri.
  eapply (returns_bind
            (fun l => List.length l
                      = (if LevelMap.has_hazard "lightning_nodes" c then 5 else 0)%nat
                      /\ Forall fresh_node l)).
  { destruct (LevelMap.has_hazard "lightning_nodes" c).
    - apply returns_repeatM. apply returns_gen_node.
    - apply returns_ret. split; [ reflexivity | constructor ]. }
  intros nodes [Hno Hfresh].
  apply returns_ret. unfold generated. cbn [LevelMap.level_id LevelMap.cfg
    LevelMap.boost_pads LevelMap.anomalies LevelMap.asteroids LevelMap.crystal_shards
    LevelMap.gravity_corridors LevelMap.pulse_rings LevelMap.lightning].
  repeat split; try assumption; try reflexivity.
  - rewrite length_map. simpl. lia.
  - rewrite length_map. simpl. lia.
Qed.

(** Every level of the catalogue builds: [LevelMap(level_id)] returns a map
    of the shape [generated] describes. *)
Lemma init_returns (lid : Z) :
  (0 <= lid < 5)%Z ->
  exists c m, py_index LEVELS lid = Some c
              /\ LevelMap.__init__ lid = Some m
              /\ generated lid c m.
Proof.
  intro Hlid. unfold LevelMap.__init__.
  assert (Hc : exists c, py_index LEVELS lid = Some c /\ Level.anomaly_types c <> []).
  { assert (Hcases : lid = 0%Z \/ lid = 1%Z \/ lid = 2%Z \/ lid = 3%Z \/ lid = 4%Z) by lia.
    destruct Hcases as [-> | [-> | [-> | [-> | ->]]]];
      (eexists; split; [ reflexivity | discriminate ]). }
  destruct Hc as [c [Ec Hk]]. rewrite Ec.
  assert (Hr : returns (generated lid c)
                 (_ <- TerrainRenderer._bake lid ;; LevelMap._generate lid c)).
  { eapply returns_bind; [ apply total_bake | ]. intros _ _.
    apply returns_generate. exact Hk. }
  destruct (Hr (Random (lid * 137 + 42)%Z)) as [m [g' [Em Hm]]].
  rewrite Em. exists c, m. auto.
Qed.
End Returns.
(** ** Evolution of the arena *)

(** Two maps that agree on everything but the lightning nodes. *)
Definition same_but_lightning (m1 m2 : LevelMap.t) : Prop :=
  LevelMap.level_id m1 = LevelMap.level_id m2
  /\ LevelMap.cfg m1 = LevelMap.cfg m2
  /\ LevelMap.anomalies m1 = LevelMap.anomalies m2
  /\ LevelMap.boost_pads m1 = LevelMap.boost_pads m2
  /\ LevelMap.asteroids m1 = LevelMap.asteroids m2
  /\ LevelMap.pulse_rings m1 = LevelMap.pulse_rings m2
  /\ LevelMap.crystal_shards m1 = LevelMap.crystal_shards m2
  /\ LevelMap.gravity_corridors m1 = LevelMap.gravity_corridors m2.

(** A lightning node whose timer runs on: [ln.timer -= dt], no toggle. *)
Definition node_tick (dt : R) (ln : LightningNode.t) : LightningNode.t :=
  LightningNode.mk (LightningNode.x ln) (LightningNode.y ln) (LightningNode.timer ln - dt)
                   (LightningNode.active ln) (LightningNode.radius ln).

Section Evolution.
Context `{PyRandom}.

Lemma update_fields (m : LevelMap.t) (dt : R) (g : gen) :
  LevelMap.lightning (fst (LevelMap.update m dt g))
  = fst (LevelMap.update_nodes dt (LevelMap.lightning m) g)
  /\ snd (LevelMap.update m dt g) = snd (LevelMap.update_nodes dt (LevelMap.lightning m) g)
  /\ forall g0, same_but_lightning (fst (LevelMap.update m dt g))
                                   (fst (LevelMap.update m dt g0)).
Proof.
  unfold LevelMap.update.
  destruct (LevelMap.update_nodes dt (LevelMap.lightning m) g) as [nodes g'].
  repeat split; intros;
    destruct (LevelMap.update_nodes dt (LevelMap.lightning m) g0); reflexivity.
Qed.

Lemma update_respects (m1 m2 : LevelMap.t) (dt : R) (g1 g2 : gen) :
  same_but_lightning m1 m2 ->
  same_but_lightning (fst (LevelMap.update m1 dt g1)) (fst (LevelMap.update m2 dt g2)).
Proof.
  intros (E1 & E2 & E3 & E4 & E5 & E6 & E7 & E8). unfold LevelMap.update.
  destruct (LevelMap.update_nodes dt (LevelMap.lightning m1) g1).
  destruct (LevelMap.update_nodes dt (LevelMap.lightning m2) g2).
  unfold same_but_lightning. simpl.
  rewrite E1, E2, E3, E4, E5, E6, E7, E8. repeat split; reflexivity.
Qed.

Lemma run_respects (dts : list R) :
  forall m1 m2 g1 g2,
    same_but_lightning m1 m2 ->
    same_but_lightning (fst (LevelMap.run m1 dts g1)) (fst (LevelMap.run m2 dts g2)).
Proof.
  induction dts as [ | dt dts IH]; intros m1 m2 g1 g2 Hs; simpl.
  - exact Hs.
  - pose proof (update_respects m1 m2 dt g1 g2 Hs) as Hu.
    destruct (LevelMap.update m1 dt g1) as [m1' g1'].
    destruct (LevelMap.update m2 dt g2) as [m2' g2'].
    apply IH. exact Hu.
Qed.

Lemma same_but_lightning_refl (m : LevelMap.t) : same_but_lightning m m.
Proof. unfold same_but_lightning. repeat split; reflexivity. Qed.

(** Without lightning nodes an update draws nothing. *)
Lemma update_no_lightning (m : LevelMap.t) (dt : R) (g : gen) :
  LevelMap.lightning m = [] ->
  LevelMap.lightning (fst (LevelMap.update m dt g)) = []
  /\ forall g0, fst (LevelMap.update m dt g0) = fst (LevelMap.update m dt g).
Proof.
  intro Hl. unfold LevelMap.update. rewrite Hl. simpl. split; reflexivity.
Qed.

Lemma run_no_lightning (dts : list R) :
  forall m g1 g2,
    LevelMap.lightning m = [] ->
    fst (LevelMap.run m dts g1) = fst (LevelMap.run m dts g2).
Proof.
  induction dts as [ | dt dts IH]; intros m g1 g2 Hl; simpl.
  - reflexivity.
  - destruct (update_no_lightning m dt g1 Hl) as [Hl' Hsame].
    specialize (Hsame g2).
    destruct (LevelMap.update m dt g1) as [m1 g1'].
    destruct (LevelMap.update m dt g2) as [m2 g2'].
    simpl in *. subst m2. apply IH. exact Hl'.
Qed.

(** A tick on which no node's timer runs out draws nothing. *)
Lemma update_nodes_quiet (dt : R) (l : list LightningNode.t) (g : gen) :
  Forall (fun ln => 0 < LightningNode.timer ln - dt) l ->
  LevelMap.update_nodes dt l g = (map (node_tick dt) l, g).
Proof.
  induction 1 as [ | ln l Hq _ IH]; simpl; [ reflexivity | ].
  unfold LevelMap.update_node.
  rewrite (proj2 (Rleb_false_iff _ _)) by exact Hq.
  rewrite IH. reflexivity.
Qed.

Lemma random_uniform_fst (a b : R) (g : gen) :
  fst (random_uniform a b g) = a + (b - a) * fst (random g).
Proof. unfold random_uniform. destruct (random g). reflexivity. Qed.

(** A tick on which some timer runs out gives that node a duration that
    depends on the draw. *)
Lemma update_nodes_toggle (dt : R) (l : list LightningNode.t) (g1 g2 : gen) :
  Exists (fun ln => LightningNode.timer ln - dt <= 0) l ->
  fst (random g1) <> fst (random g2) ->
  fst (LevelMap.update_nodes dt l g1) <> fst (LevelMap.update_nodes dt l g2).
Proof.
  intros Hex Hdraw. induction l as [ | ln l IH]; [ inversion Hex | ].
  simpl. unfold LevelMap.update_node.
  destruct (Rleb (LightningNode.timer ln - dt) 0) eqn:Hrun.
  - clear IH Hex.
    assert (Ht : forall a b, a <> b ->
                 fst (random_uniform a b g1) <> fst (random_uniform a b g2)).
    { intros a b Hab. rewrite !random_uniform_fst. intro E. apply Hdraw. nra. }
    destruct (negb (LightningNode.active ln)).
    + specialize (Ht 0.4 2.5 ltac:(lra)).
      destruct (random_uniform 0.4 2.5 g1) as [t1 g1'].
      destruct (random_uniform 0.4 2.5 g2) as [t2 g2'].
      destruct (LevelMap.update_nodes dt l g1'). destruct (LevelMap.update_nodes dt l g2').
      simpl in *. intro E. inversion E. contradiction.
    + specialize (Ht 1.0 4.0 ltac:(lra)).
      destruct (random_uniform 1.0 4.0 g1) as [t1 g1'].
      destruct (random_uniform 1.0 4.0 g2) as [t2 g2'].
      destruct (LevelMap.update_nodes dt l g1'). destruct (LevelMap.update_nodes dt l g2').
      simpl in *. intro E. inversion E. contradiction.
  - apply Rleb_false_iff in Hrun.
    assert (Hex' : Exists (fun ln => LightningNode.timer ln - dt <= 0) l).
    { inversion Hex; subst; [ lra | assumption ]. }
    specialize (IH Hex').
    destruct (LevelMap.update_nodes dt l g1). destruct (LevelMap.update_nodes dt l g2).
    simpl in *. intro E. inversion E. contradiction.
Qed.

(** Timers of at most [dt * k] run out within [k + 1] ticks of [dt]; on the
    first tick that one does, two generators whose next draws differ leave
    different lightning nodes. *)
Lemma nodes_diverge (dt : R) (g1 g2 : gen) :
  0 < dt -> fst (random g1) <> fst (random g2) ->
  forall (k : nat) (m : LevelMap.t),
    LevelMap.lightning m <> [] ->
    Forall (fun ln => LightningNode.timer ln <= dt * INR k) (LevelMap.lightning m) ->
    exists n, (n <= S k)%nat
              /\ LevelMap.lightning (fst (LevelMap.run m (repeat dt n) g1))
                 <> LevelMap.lightning (fst (LevelMap.run m (repeat dt n) g2)).
Proof.
  intros Hdt Hdraw. induction k as [ | k IH]; intros m Hne Hle.
  - exists 1%nat. split; [ lia | ]. simpl.
    destruct (update_fields m dt g1) as [E1 _].
    destruct (update_fields m dt g2) as [E2 _].
    destruct (LevelMap.update m dt g1). destruct (LevelMap.update m dt g2).
    simpl in *. rewrite E1, E2. apply update_nodes_toggle; [ | exact Hdraw ].
    destruct (LevelMap.lightning m) as [ | ln l]; [ congruence | ].
    apply Exists_cons_hd. inversion Hle; subst. simpl in *. lra.
  - destruct (Forall_Exists_dec (fun ln => 0 < LightningNode.timer ln - dt)
                (fun ln => Rlt_dec 0 (LightningNode.timer ln - dt))
                (LevelMap.lightning m)) as [Hq | Hx].
    + destruct (update_fields m dt g1) as [E1 [S1 F1]].
      destruct (update_fields m dt g2) as [E2 [S2 _]].
      rewrite (update_nodes_quiet dt _ g1 Hq) in E1, S1.
      rewrite (update_nodes_quiet dt _ g2 Hq) in E2, S2.
      assert (Hsame : fst (LevelMap.update m dt g1) = fst (LevelMap.update m dt g2)).
      { specialize (F1 g2). destruct F1 as (F1 & F2 & F3 & F4 & F5 & F6 & F7 & F8).
        destruct (fst (LevelMap.update m dt g1)), (fst (LevelMap.update m dt g2)).
        simpl in *. congruence. }
      destruct (IH (fst (LevelMap.update m dt g1))) as [n [Hn Hdiff]].
      * rewrite E1. simpl.
        destruct (LevelMap.lightning m); [ congruence | discriminate ].
      * rewrite E1. simpl. apply Forall_map.
        eapply Forall_impl; [ | exact Hle ].
        intros ln Hln. simpl. rewrite S_INR in Hln. lra.
      * exists (S n). split; [ lia | ]. simpl.
        destruct (LevelMap.update m dt g1) as [m1 g1'].
        destruct (LevelMap.update m dt g2) as [m2 g2'].
        simpl in *. subst. exact Hdiff.
    + exists 1%nat. split; [ lia | ]. simpl.
      destruct (update_fields m dt g1) as [E1 _].
      destruct (update_fields m dt g2) as [E2 _].
      destruct (LevelMap.update m dt g1). destruct (LevelMap.update m dt g2).
      simpl in *. rewrite E1, E2. apply update_nodes_toggle; [ | exact Hdraw ].
      eapply Exists_impl; [ | exact Hx ]. intros ln Hln. simpl in Hln. lra.
Qed.

(** On level 4 the arena's evolution depends on the unseeded generator:
    within 81 ticks of 0.05 s, the clock's largest [dt], two runs from the
    same layout differ as soon as the draws do. *)
Lemma level4_diverges (m : LevelMap.t) (g1 g2 : gen) :
  LevelMap.__init__ 4 = Some m ->
  fst (random g1) <> fst (random g2) ->
  exists n, (n <= 81)%nat
            /\ LevelMap.lightning (fst (LevelMap.run m (repeat 0.05 n) g1))
               <> LevelMap.lightning (fst (LevelMap.run m (repeat 0.05 n) g2)).
Proof.
  intros Hm Hdraw.
  destruct (init_returns 4 ltac:(lia)) as [c [m' [Ec [Em Hgen]]]].
  rewrite Hm in Em. injection Em as <-.
  injection Ec as <-.
  destruct Hgen as (_ & _ & _ & _ & _ & _ & _ & _ & _ & Hlen & Hfresh).
  change (LevelMap.has_hazard "lightning_nodes" _) with true in Hlen.
  apply (nodes_diverge 0.05 g1 g2 ltac:(lra) Hdraw 80 m).
  - destruct (LevelMap.lightning m); [ discriminate | discriminate ].
  - eapply Forall_impl; [ | exact Hfresh ].
    intros ln [_ Ht]. change (INR 80) with (IZR (Z.of_nat 80)) || rewrite INR_IZR_INZ.
    simpl. lra.
Qed.
End Evolution.
(** ** Seeded layouts *)

(** C2 (amended). For every level id of [[0, 5)] the constructor returns one
    layout, the same at every construction (it draws from a generator seeded
    with [level_id * 137 + 42] and from nothing else).  Under [update] with
    the same [dt] sequence, the boost pads, asteroids, crystal shards, pulse
    rings, anomalies and corridors of two such maps stay identical whatever
    the module-level generator draws, and so does the whole map on the
    levels without lightning nodes (0 to 3). *)
Theorem arena_layout_determinism `{PyRandom} (lid : Z) :
  (0 <= lid < 5)%Z ->
  exists m,
    (forall m', LevelMap.__init__ lid = Some m' <-> m' = m)
    /\ (forall dts g1 g2,
           same_but_lightning (fst (LevelMap.run m dts g1)) (fst (LevelMap.run m dts g2)))
    /\ ((lid < 4)%Z ->
        forall dts g1 g2, fst (LevelMap.run m dts g1) = fst (LevelMap.run m dts g2)).
Proof.
  intro Hlid. destruct (init_returns lid Hlid) as [c [m [Ec [Em Hgen]]]].
  exists m. split; [ | split ].
  - intro m'. rewrite Em. split; [ intro E; injection E; auto | intros ->; reflexivity ].
  - intros dts g1 g2. apply run_respects. apply same_but_lightning_refl.
  - intros Hlt dts g1 g2. apply run_no_lightning.
    destruct Hgen as (_ & _ & _ & _ & _ & _ & _ & _ & _ & Hlen & _).
    assert (Hcases : lid = 0%Z \/ lid = 1%Z \/ lid = 2%Z \/ lid = 3%Z) by lia.
    destruct Hcases as [-> | [-> | [-> | ->]]];
      injection Ec as <-; simpl in Hlen;
      destruct (LevelMap.lightning m); (reflexivity || discriminate).
Qed.

(** The lunar level on the counting generator. *)
Lemma arena_layout_determinism_witness :
  exists m,
    (forall m', LevelMap.__init__ (H := counter_random) 0 = Some m' <-> m' = m)
    /\ (forall dts g1 g2,
           same_but_lightning (fst (LevelMap.run (H := counter_random) m dts g1))
                              (fst (LevelMap.run (H := counter_random) m dts g2)))
    /\ ((0 < 4)%Z ->
        forall dts g1 g2, fst (LevelMap.run (H := counter_random) m dts g1)
                          = fst (LevelMap.run (H := counter_random) m dts g2)).
Proof.
  apply (arena_layout_determinism (H := counter_random) 0). lia.
Defined.

(** C2, as stated, fails on level 4: two maps built for it and updated with
    the same ticks of 0.05 s differ in their lightning nodes once the
    module-level generator, here after no draw and after one, hands them
    different toggle durations. *)
Lemma level4_evolution_not_determined :
  exists (m : LevelMap.t) (n : nat),
    LevelMap.__init__ (H := counter_random) 4 = Some m
    /\ LevelMap.lightning
         (fst (LevelMap.run (H := counter_random) m (repeat 0.05 n) 0%nat))
       <> LevelMap.lightning
            (fst (LevelMap.run (H := counter_random) m (repeat 0.05 n) 1%nat)).
Proof.
  destruct (init_returns (H := counter_random) 4 ltac:(lia)) as [c [m [_ [Em _]]]].
  destruct (level4_diverges (H := counter_random) m 0%nat 1%nat Em) as [n [_ Hn]].
  - simpl. unfold counter_draw. simpl. intro E.
    apply Rinv_eq_reg in E. lra.
  - exists m, n. split; [ exact Em | exact Hn ].
Qed.

(** ** The combo counter *)

(** C6. The goal check sets the combo to 1 when the AI scores (ball in the
    left goal) and to [min(combo + 1, 8)] when the player scores (ball in the
    right goal only): one more while it is below 8.  It starts at 1, so in
    every state of a match it is between 1 and 8. *)
Theorem combo_counter `{PyRandom} :
  (forall game,
      GoalZone.check_goal (Game.goal_l game) (Game.ball game) = true ->
      Game.combo (Game.goals game) = 1%Z)
  /\ (forall game,
         GoalZone.check_goal (Game.goal_l game) (Game.ball game) = false ->
         GoalZone.check_goal (Game.goal_r game) (Game.ball game) = true ->
         Game.combo (Game.goals game) = Z.min (Game.combo game + 1) 8
         /\ ((Game.combo game < 8)%Z ->
             Game.combo (Game.goals game) = (Game.combo game + 1)%Z))
  /\ (forall game,
         GoalZone.check_goal (Game.goal_l game) (Game.ball game) = false ->
         GoalZone.check_goal (Game.goal_r game) (Game.ball game) = false ->
         Game.goals game = game)
  /\ (forall game, game_reachable game -> (1 <= Game.combo game <= 8)%Z).
Proof.
  split; [ | split; [ | split ] ].
  - intros game Hl. unfold Game.goals. rewrite Hl. reflexivity.
  - intros game Hl Hr. unfold Game.goals. rewrite Hl, Hr.
    split; [ reflexivity | intro Hlt; simpl; lia ].
  - intros game Hl Hr. unfold Game.goals. rewrite Hl, Hr. reflexivity.
  - intros game Hreach.
    induction Hreach as [st lid g game g' Hinit | game Hreach IH | game game' Hreach IH Hc].
    + unfold Game._init_game in Hinit.
      destruct (LevelMap.__init__ lid); [ | discriminate ].
      destruct (Ball.reset g). injection Hinit as <- _. simpl. lia.
    + unfold Game.goals.
      destruct (GoalZone.check_goal _ _); [ simpl; lia | ].
      destruct (GoalZone.check_goal _ _); simpl; lia.
    + lia.
Qed.

(** ** Goal containment *)

Lemma py_int_floor (r : R) : 0 <= r -> IZR (py_int r) <= r < IZR (py_int r) + 1.
Proof.
  intro Hr. unfold py_int. destruct (Rle_dec 0 r) as [_ | Hn]; [ | contradiction ].
  destruct (base_Int_part r) as [H1 H2]. lra.
Qed.

Lemma py_int_ge (r : R) (z : Z) : 0 <= r -> ((z <= py_int r)%Z <-> IZR z <= r).
Proof.
  intro Hr. destruct (py_int_floor r Hr) as [H1 H2]. split; intro Hz.
  - apply IZR_le in Hz. lra.
  - destruct (Z_le_gt_dec z (py_int r)) as [Hle | Hgt]; [ exact Hle | exfalso ].
    assert (Hs : (py_int r + 1 <= z)%Z) by lia.
    apply IZR_le in Hs. rewrite plus_IZR in Hs. lra.
Qed.

Lemma py_int_lt (r : R) (z : Z) : 0 <= r -> ((py_int r < z)%Z <-> r < IZR z).
Proof.
  intro Hr. pose proof (py_int_ge r z Hr) as Hge. split; intro Hz.
  - destruct (Rlt_le_dec r (IZR z)) as [Hlt | Hle]; [ exact Hlt | exfalso ].
    apply Hge in Hle. lia.
  - destruct (Z_lt_ge_dec (py_int r) z) as [Hlt | Hge']; [ exact Hlt | exfalso ].
    assert (Hle : (z <= py_int r)%Z) by lia. apply Hge in Hle. lra.
Qed.

Lemma py_int_IZR (z : Z) : (0 <= z)%Z -> py_int (IZR z) = z.
Proof.
  intro Hz. assert (Hr : 0 <= IZR z) by (apply IZR_le; exact Hz).
  assert (H1 : (z <= py_int (IZR z))%Z) by (apply py_int_ge; [ exact Hr | lra ]).
  assert (H2 : (py_int (IZR z) < z + 1)%Z).
  { apply py_int_lt; [ exact Hr | ]. rewrite plus_IZR. lra. }
  lia.
Qed.

(** The point [(px, py)] lies on the outline of the rectangle [r]. *)
Definition on_boundary (r : Rect.t) (px py : R) : Prop :=
  let x0 := IZR (Rect.left r) in
  let x1 := IZR (Rect.left r + Rect.width r) in
  let y0 := IZR (Rect.top r) in
  let y1 := IZR (Rect.top r + Rect.height r) in
  ((px = x0 \/ px = x1) /\ y0 <= py <= y1)
  \/ ((py = y0 \/ py = y1) /\ x0 <= px <= x1).

Lemma check_goal_iff (gz : GoalZone.t) (ball : Ball.t) :
  GoalZone.check_goal gz ball = true <->
  (Rect.left (GoalZone.rect gz) <= py_int (Ball.x ball)
   < Rect.left (GoalZone.rect gz) + Rect.width (GoalZone.rect gz))%Z
  /\ (Rect.top (GoalZone.rect gz) <= py_int (Ball.y ball)
      < Rect.top (GoalZone.rect gz) + Rect.height (GoalZone.rect gz))%Z.
Proof.
  unfold GoalZone.check_goal, Rect.collidepoint.
  rewrite !andb_true_iff, !Z.leb_le, !Z.ltb_lt. tauto.
Qed.

(** C8 (amended). [check_goal] truncates the ball's coordinates with [int]
    and asks [collidepoint], which counts the left and top edges of the
    [GOAL_W] by [GOAL_H] rectangle and leaves out the right and bottom ones.
    So a ball on the outline of a goal registers exactly when it is on
    neither the right edge ([x = rect.x + GOAL_W]) nor the bottom edge
    ([y = rect.y + GOAL_H]). *)
Theorem check_goal_boundary (side : string) (cfg : Level.t) (ball : Ball.t) :
  let gz := GoalZone.__init__ side cfg in
  (GoalZone.check_goal gz ball = true <->
   (GoalZone.x gz <= py_int (Ball.x ball) < GoalZone.x gz + GOAL_W)%Z
   /\ (GoalZone.y gz <= py_int (Ball.y ball) < GoalZone.y gz + GOAL_H)%Z)
  /\ (on_boundary (GoalZone.rect gz) (Ball.x ball) (Ball.y ball) ->
      (GoalZone.check_goal gz ball = true <->
       Ball.x ball < IZR (GoalZone.x gz + GOAL_W)
       /\ Ball.y ball < IZR (GoalZone.y gz + GOAL_H))).
Proof.
  intro gz. split; [ apply check_goal_iff | ].
  intro Hb. rewrite check_goal_iff.
  assert (Hx0 : (0 <= GoalZone.x gz)%Z).
  { unfold gz, GoalZone.__init__. simpl. destruct (String.eqb side "left"); simpl.
    - lia.
    - unfold SCREEN_W, GOAL_W. lia. }
  assert (Hy0 : (0 <= GoalZone.y gz)%Z).
  { unfold gz, GoalZone.__init__. simpl. unfold SCREEN_H, GOAL_H.
    apply Z.div_pos; lia. }
  change (Rect.left (GoalZone.rect gz)) with (GoalZone.x gz) in *.
  change (Rect.top (GoalZone.rect gz)) with (GoalZone.y gz) in *.
  change (Rect.width (GoalZone.rect gz)) with GOAL_W in *.
  change (Rect.height (GoalZone.rect gz)) with GOAL_H in *.
  assert (Hpos : 0 <= Ball.x ball /\ 0 <= Ball.y ball
                 /\ IZR (GoalZone.x gz) <= Ball.x ball
                 /\ IZR (GoalZone.y gz) <= Ball.y ball).
  { apply IZR_le in Hx0. apply IZR_le in Hy0.
    assert (IZR (GoalZone.x gz) <= IZR (GoalZone.x gz + GOAL_W))
      by (apply IZR_le; unfold GOAL_W; lia).
    assert (IZR (GoalZone.y gz) <= IZR (GoalZone.y gz + GOAL_H))
      by (apply IZR_le; unfold GOAL_H; lia).
    unfold on_boundary in Hb. cbv zeta in Hb.
    change (Rect.left (GoalZone.rect gz)) with (GoalZone.x gz) in *.
    change (Rect.top (GoalZone.rect gz)) with (GoalZone.y gz) in *.
    change (Rect.width (GoalZone.rect gz)) with GOAL_W in *.
    change (Rect.height (GoalZone.rect gz)) with GOAL_H in *.
    destruct Hb as [[[Hx | Hx] Hy] | [[Hy | Hy] Hx]]; repeat split; lra. }
  destruct Hpos as (Px & Py & Lx & Ly).
  rewrite <- (py_int_lt _ _ Px), <- (py_int_lt _ _ Py).
  apply (py_int_ge _ _ Px) in Lx. apply (py_int_ge _ _ Py) in Ly.
  clear Hb. clearbody gz. lia.
Qed.

(** [ball_on_goal_line]: on the left edge of the left goal, counted. *)
Lemma check_goal_boundary_witness :
  GoalZone.check_goal goal_left ball_on_goal_line = true <->
  Ball.x ball_on_goal_line < IZR (GoalZone.x goal_left + GOAL_W)
  /\ Ball.y ball_on_goal_line < IZR (GoalZone.y goal_left + GOAL_H).
Proof.
  apply (proj2 (check_goal_boundary "left" level0 ball_on_goal_line)).
  left. split; [ left; reflexivity | ].
  change (285 <= 300 <= 435). lra.
Defined.

(** C8, as stated, fails on the right edge of the left goal: the point
    [(22, 300)] is on the outline of the rectangle and is no goal. *)
Lemma goal_right_edge_not_counted :
  on_boundary (GoalZone.rect goal_left) (Ball.x ball_on_right_edge)
              (Ball.y ball_on_right_edge)
  /\ GoalZone.check_goal goal_left ball_on_right_edge = false.
Proof.
  split.
  - left. split; [ right; reflexivity | ].
    change (285 <= 300 <= 435). lra.
  - unfold GoalZone.check_goal. simpl Ball.x. simpl Ball.y.
    rewrite (py_int_IZR 22) by lia. rewrite (py_int_IZR 300) by lia.
    reflexivity.
Qed.

(** *** The combo counter on a goal

    The goal check of C6 on balls that are in a goal. *)

(** A streak of 5 ended by an AI goal, a streak of 3 going to 4, and a
    streak of 8 staying at 8. *)
Lemma combo_counter_witness :
  Game.combo (Game.goals (ai_goal_match 5)) = 1%Z
  /\ Game.combo (Game.goals (player_goal_match 3)) = 4%Z
  /\ Game.combo (Game.goals (player_goal_match 8)) = 8%Z.
Proof.
  destruct (combo_counter (H := counter_random)) as (Hai & Hplayer & _ & _).
  assert (Hleft : forall k,
             GoalZone.check_goal (Game.goal_l (ai_goal_match k))
                                 (Game.ball (ai_goal_match k)) = true).
  { intro k. unfold GoalZone.check_goal.
    cbn [ai_goal_match Game.goal_l Game.ball Ball.x Ball.y].
    rewrite (py_int_IZR 10) by lia. rewrite (py_int_IZR 300) by lia. reflexivity. }
  assert (Hnot : forall k,
             GoalZone.check_goal (Game.goal_l (player_goal_match k))
                                 (Game.ball (player_goal_match k)) = false).
  { intro k. unfold GoalZone.check_goal.
    cbn [player_goal_match Game.goal_l Game.ball Ball.x Ball.y].
    rewrite (py_int_IZR 1270) by lia. rewrite (py_int_IZR 300) by lia. reflexivity. }
  assert (Hright : forall k,
             GoalZone.check_goal (Game.goal_r (player_goal_match k))
                                 (Game.ball (player_goal_match k)) = true).
  { intro k. unfold GoalZone.check_goal.
    cbn [player_goal_match Game.goal_r Game.ball Ball.x Ball.y].
    rewrite (py_int_IZR 1270) by lia. rewrite (py_int_IZR 300) by lia. reflexivity. }
  split; [ apply Hai; apply Hleft | ].
  split.
  - destruct (Hplayer (player_goal_match 3) (Hnot 3%Z) (Hright 3%Z)) as [_ Hinc].
    rewrite Hinc; [ reflexivity | cbn [player_goal_match Game.combo]; lia ].
  - destruct (Hplayer (player_goal_match 8) (Hnot 8%Z) (Hright 8%Z)) as [Hcap _].
    rewrite Hcap. reflexivity.
Defined.

(** ** Screen bounds *)

(** One coordinate [p] with velocity [v] becomes [p'] with [v'], kept
    between [pad] and [hi - pad]: beyond a wall it is put on the bound and
    the velocity becomes [abs(v) * e] pointing back in, so an outward
    velocity is reversed and scaled by [e]; inside, nothing changes. *)
Definition bounces (pad hi e p v p' v' : R) : Prop :=
  pad <= p' <= hi - pad
  /\ (p < pad -> p' = pad /\ v' = Rabs v * e /\ (v <= 0 -> v' = - v * e))
  /\ (hi - pad < p ->
      p' = hi - pad /\ v' = - Rabs v * e /\ (0 <= v -> v' = - v * e))
  /\ (pad <= p <= hi - pad -> p' = p /\ v' = v).

Lemma clamp_axis_spec (pad hi e p v : R) :
  pad <= hi - pad ->
  bounces pad hi e p v (fst (clamp_axis pad hi e (p, v)))
          (snd (clamp_axis pad hi e (p, v))).
Proof.
  intro Hroom. unfold clamp_axis, bounces.
  assert (Hneg : v <= 0 -> Rabs v * e = - v * e)
    by (intro Hv; rewrite Rabs_left1 by exact Hv; reflexivity).
  assert (Hpos : 0 <= v -> - Rabs v * e = - v * e)
    by (intro Hv; rewrite Rabs_right by lra; reflexivity).
  destruct (Rltb p pad) eqn:Hlo.
  - apply Rltb_true_iff in Hlo.
    rewrite (proj2 (Rltb_false_iff (hi - pad) pad)) by lra. simpl.
    repeat split; intros; auto; lra.
  - apply Rltb_false_iff in Hlo.
    destruct (Rltb (hi - pad) p) eqn:Hhi; simpl.
    + apply Rltb_true_iff in Hhi. repeat split; intros; auto; lra.
    + apply Rltb_false_iff in Hhi. repeat split; intros; auto; lra.
Qed.

Lemma car_clamp_bounds_spec (p v : R * R) :
  bounces 30 (IZR SCREEN_W) 0.6 (fst p) (fst v)
          (fst (fst (Car.clamp_bounds p v))) (fst (snd (Car.clamp_bounds p v)))
  /\ bounces 30 (IZR SCREEN_H) 0.6 (snd p) (snd v)
             (snd (fst (Car.clamp_bounds p v))) (snd (snd (Car.clamp_bounds p v))).
Proof.
  destruct p as [px py], v as [vx vy]. unfold Car.clamp_bounds. cbn [fst snd].
  pose proof (clamp_axis_spec 30 (IZR SCREEN_W) 0.6 px vx) as Hx.
  pose proof (clamp_axis_spec 30 (IZR SCREEN_H) 0.6 py vy) as Hy.
  destruct (clamp_axis 30 (IZR SCREEN_W) 0.6 (px, vx)) as [x1 vx1].
  destruct (clamp_axis 30 (IZR SCREEN_H) 0.6 (py, vy)) as [y1 vy1].
  cbn [fst snd] in *. split; [ apply Hx | apply Hy ]; unfold SCREEN_W, SCREEN_H; lra.
Qed.

Lemma car_update_position (c : Car.t) (dt : R) (lm : LevelMap.t) :
  let v := LevelMap.apply_gravity lm (Car.x c) (Car.y c) (Car.vx c) (Car.vy c) 1.0 dt in
  let p := (Car.x c + fst v * dt, Car.y c + snd v * dt) in
  (Car.x (fst (Car.update c dt lm)), Car.y (fst (Car.update c dt lm)))
  = fst (Car.clamp_bounds p v).
Proof.
  intros v p. unfold Car.update. fold v.
  destruct v as [vx1 vy1] eqn:Ev. simpl in p. fold p.
  destruct (Car.clamp_bounds p (vx1, vy1)) as [[x2 y2] v2].
  destruct (fold_left (Car.asteroid_push x2 y2) (LevelMap.asteroids lm) v2) as [vx3 vy3].
  destruct (Car.pickup x2 y2 (Car.boost c) (LevelMap.boost_pads lm)) as [b' pads'].
  reflexivity.
Qed.

(** C4 (amended). The bounds step of a car keeps it 30 inside the screen and
    that of the ball a [BALL_RADIUS] inside: [pad <= position <= dimension - pad]
    on both axes, the position untouched when it was already there, and
    beyond a wall the velocity component set to [abs(v)] times 0.6 (car) or
    0.9 (ball), pointing back in: an outward component is reversed and
    scaled.  A car ends its [update] inside these bounds.  An asteroid is not
    clamped: [update] moves it by [v * dt] and, where that leaves it less
    than its radius from a wall, reverses that velocity component unscaled
    and leaves the position as it is. *)
Theorem bounds_clamping :
  (forall p v : R * R,
      bounces 30 (IZR SCREEN_W) 0.6 (fst p) (fst v)
              (fst (fst (Car.clamp_bounds p v))) (fst (snd (Car.clamp_bounds p v)))
      /\ bounces 30 (IZR SCREEN_H) 0.6 (snd p) (snd v)
                 (snd (fst (Car.clamp_bounds p v))) (snd (snd (Car.clamp_bounds p v))))
  /\ (forall (c : Car.t) (dt : R) (lm : LevelMap.t),
         30 <= Car.x (fst (Car.update c dt lm)) <= IZR SCREEN_W - 30
         /\ 30 <= Car.y (fst (Car.update c dt lm)) <= IZR SCREEN_H - 30)
  /\ (forall p v : R * R,
         bounces (IZR BALL_RADIUS) (IZR SCREEN_W) 0.9 (fst p) (fst v)
                 (fst (fst (Ball.clamp_bounds p v))) (fst (snd (Ball.clamp_bounds p v)))
         /\ bounces (IZR BALL_RADIUS) (IZR SCREEN_H) 0.9 (snd p) (snd v)
                    (snd (fst (Ball.clamp_bounds p v)))
                    (snd (snd (Ball.clamp_bounds p v))))
  /\ (forall (dt : R) (ast : MovingAsteroid.t),
         let ast' := LevelMap.update_asteroid dt ast in
         let r := MovingAsteroid.radius ast in
         MovingAsteroid.x ast' = MovingAsteroid.x ast + MovingAsteroid.vx ast * dt
         /\ MovingAsteroid.y ast' = MovingAsteroid.y ast + MovingAsteroid.vy ast * dt
         /\ (MovingAsteroid.x ast' < r \/ IZR SCREEN_W - r < MovingAsteroid.x ast' ->
             MovingAsteroid.vx ast' = - MovingAsteroid.vx ast)
         /\ (r <= MovingAsteroid.x ast' <= IZR SCREEN_W - r ->
             MovingAsteroid.vx ast' = MovingAsteroid.vx ast)
         /\ (MovingAsteroid.y ast' < r \/ IZR SCREEN_H - r < MovingAsteroid.y ast' ->
             MovingAsteroid.vy ast' = - MovingAsteroid.vy ast)
         /\ (r <= MovingAsteroid.y ast' <= IZR SCREEN_H - r ->
             MovingAsteroid.vy ast' = MovingAsteroid.vy ast)).
Proof.
  split; [ exact car_clamp_bounds_spec | ]. split; [ | split ].
  - intros c dt lm. pose proof (car_update_position c dt lm) as Hp. cbv zeta in Hp.
    match type of Hp with _ = fst (Car.clamp_bounds ?p ?v) =>
      destruct (car_clamp_bounds_spec p v) as [[Hx _] [Hy _]];
      rewrite <- Hp in Hx, Hy end.
    split; [ exact Hx | exact Hy ].
  - intros [px py] [vx vy]. unfold Ball.clamp_bounds. cbn [fst snd].
    pose proof (clamp_axis_spec (IZR BALL_RADIUS) (IZR SCREEN_W) 0.9 px vx) as Hx.
    pose proof (clamp_axis_spec (IZR BALL_RADIUS) (IZR SCREEN_H) 0.9 py vy) as Hy.
    destruct (clamp_axis (IZR BALL_RADIUS) (IZR SCREEN_W) 0.9 (px, vx)) as [x1 vx1].
    destruct (clamp_axis (IZR BALL_RADIUS) (IZR SCREEN_H) 0.9 (py, vy)) as [y1 vy1].
    cbn [fst snd] in *.
    split; [ apply Hx | apply Hy ]; unfold SCREEN_W, SCREEN_H, BALL_RADIUS; lra.
  - intros dt ast. unfold LevelMap.update_asteroid. cbn [MovingAsteroid.x
      MovingAsteroid.y MovingAsteroid.vx MovingAsteroid.vy MovingAsteroid.radius].
    split; [ reflexivity | ]. split; [ reflexivity | ].
    repeat split.
    + intros [Hl | Hr].
      * rewrite (proj2 (Rltb_true_iff _ _) Hl). simpl. lra.
      * rewrite (proj2 (Rltb_true_iff _ _) Hr). rewrite orb_true_r. lra.
    + intros [Hl Hr].
      rewrite (proj2 (Rltb_false_iff _ _) Hl), (proj2 (Rltb_false_iff _ _) Hr).
      reflexivity.
    + intros [Hl | Hr].
      * rewrite (proj2 (Rltb_true_iff _ _) Hl). simpl. lra.
      * rewrite (proj2 (Rltb_true_iff _ _) Hr). rewrite orb_true_r. lra.
    + intros [Hl Hr].
      rewrite (proj2 (Rltb_false_iff _ _) Hl), (proj2 (Rltb_false_iff _ _) Hr).
      reflexivity.
Qed.

(** A car 20 beyond the left wall, moving out at 50: put back at 30 with
    velocity 30 inward. *)
Lemma bounds_clamping_witness :
  fst (fst (Car.clamp_bounds (10, 100) (-50, 0))) = 30
  /\ fst (snd (Car.clamp_bounds (10, 100) (-50, 0))) = - (-50) * 0.6.
Proof.
  destruct (proj1 bounds_clamping (10, 100) (-50, 0)) as [(_ & Hleft & _) _].
  cbn [fst snd] in Hleft. destruct Hleft as (Hp & _ & Hv); [ lra | ].
  split; [ exact Hp | apply Hv; lra ].
Defined.

(** C4, as stated, fails for asteroids: [rock], of radius 14, is at
    [x = 15] moving left at 40; after a tick of 0.05 s it is at [x = 13],
    less than its radius from the wall, and its velocity is reversed at full
    speed. *)
Lemma asteroid_not_clamped :
  MovingAsteroid.x (LevelMap.update_asteroid 0.05 rock) = 13
  /\ MovingAsteroid.x (LevelMap.update_asteroid 0.05 rock)
     < MovingAsteroid.radius (LevelMap.update_asteroid 0.05 rock)
  /\ MovingAsteroid.vx (LevelMap.update_asteroid 0.05 rock) = 40.
Proof.
  unfold LevelMap.update_asteroid, rock. cbn [MovingAsteroid.x MovingAsteroid.y
    MovingAsteroid.vx MovingAsteroid.vy MovingAsteroid.radius].
  split; [ lra | ]. split; [ lra | ].
  rewrite (proj2 (Rltb_true_iff (15 + -40 * 0.05) 14)) by lra. simpl. lra.
Qed.

(** ** Boost pads and the boost meter *)

(** A pad as a pick-up leaves it. *)
Definition picked_up (bp : BoostPad.t) : BoostPad.t :=
  BoostPad.mk (BoostPad.x bp) (BoostPad.y bp) (BoostPad.radius bp) false 5.0.

Lemma pickup_pads (px py : R) (pads : list BoostPad.t) :
  forall b,
    snd (Car.pickup px py b pads)
    = map (fun bp => if Car.picks_up px py bp then picked_up bp else bp) pads.
Proof.
  induction pads as [ | bp rest IH]; intro b; simpl; [ reflexivity | ].
  destruct (Car.picks_up px py bp).
  - specialize (IH (Rmin BOOST_MAX (b + 45))).
    destruct (Car.pickup px py (Rmin BOOST_MAX (b + 45)) rest). simpl in *.
    rewrite IH. reflexivity.
  - specialize (IH b). destruct (Car.pickup px py b rest). simpl in *.
    rewrite IH. reflexivity.
Qed.

Lemma pickup_boost (px py : R) (pads : list BoostPad.t) :
  forall b,
    fst (Car.pickup px py b pads)
    = match List.length (filter (Car.picks_up px py) pads) with
      | O => b
      | S k => Rmin BOOST_MAX (b + 45 * INR (S k))
      end.
Proof.
  induction pads as [ | bp rest IH]; intro b; [ reflexivity | ].
  cbn [Car.pickup filter].
  destruct (Car.picks_up px py bp); cbn [List.length].
  - specialize (IH (Rmin BOOST_MAX (b + 45))).
    destruct (Car.pickup px py (Rmin BOOST_MAX (b + 45)) rest) as [b' rest'].
    cbn [fst] in *. rewrite IH.
    destruct (List.length (filter (Car.picks_up px py) rest)) as [ | k].
    + change (INR 1) with 1. f_equal. lra.
    + rewrite (S_INR (S k)). pose proof (pos_INR (S k)) as Hk.
      unfold BOOST_MAX, Rmin.
      repeat destruct (Rle_dec _ _); lra.
  - specialize (IH b). destruct (Car.pickup px py b rest). cbn [fst] in *. exact IH.
Qed.

Lemma pickup_bounds (px py : R) (pads : list BoostPad.t) (b : R) :
  b <= BOOST_MAX ->
  b <= fst (Car.pickup px py b pads) <= BOOST_MAX.
Proof.
  intro Hb. rewrite pickup_boost.
  destruct (List.length (filter (Car.picks_up px py) pads)) as [ | k]; [ lra | ].
  pose proof (pos_INR (S k)) as Hk. unfold BOOST_MAX in *. unfold Rmin.
  destruct (Rle_dec _ _); lra.
Qed.

(** What [update] leaves of the meter and the pads: the pick-up loop, run at
    the car's position after the move. *)
Lemma car_update_pickup (c : Car.t) (dt : R) (lm : LevelMap.t) :
  let c' := fst (Car.update c dt lm) in
  Car.boost c'
  = fst (Car.pickup (Car.x c') (Car.y c') (Car.boost c) (LevelMap.boost_pads lm))
  /\ LevelMap.boost_pads (snd (Car.update c dt lm))
     = snd (Car.pickup (Car.x c') (Car.y c') (Car.boost c) (LevelMap.boost_pads lm)).
Proof.
  unfold Car.update.
  destruct (LevelMap.apply_gravity lm (Car.x c) (Car.y c) (Car.vx c) (Car.vy c) 1.0 dt)
    as [vx1 vy1].
  destruct (Car.clamp_bounds _ _) as [[x2 y2] v2].
  destruct (fold_left (Car.asteroid_push x2 y2) (LevelMap.asteroids lm) v2) as [vx3 vy3].
  destruct (Car.pickup x2 y2 (Car.boost c) (LevelMap.boost_pads lm)) as [b' pads'] eqn:Ep.
  cbn [fst snd Car.x Car.y Car.boost LevelMap.boost_pads].
  rewrite Ep. split; reflexivity.
Qed.

(** C1 (amended). In a car's [update], every active pad whose centre is
    closer than [pad.radius + 16] to the car (at its position after the move)
    comes out inactive with a cooldown of 5.0, the other pads come out as
    they were, and the meter gains 45 per pad picked up, capped at 100:
    [min(100, boost + 45 * k)] for [k >= 1] pads, the old value for none.  It
    is full afterwards when it was at 55 or more, and unchanged at the cap. *)
Theorem boost_pad_pickup (c : Car.t) (dt : R) (lm : LevelMap.t) :
  let c' := fst (Car.update c dt lm) in
  let pads' := LevelMap.boost_pads (snd (Car.update c dt lm)) in
  let near := Car.picks_up (Car.x c') (Car.y c') in
  (forall bp, near bp = true <->
              BoostPad.active bp = true
              /\ sqrt ((Car.x c' - BoostPad.x bp) ^ 2 + (Car.y c' - BoostPad.y bp) ^ 2)
                 < BoostPad.radius bp + 16)
  /\ pads' = map (fun bp => if near bp then picked_up bp else bp) (LevelMap.boost_pads lm)
  /\ (forall i bp, nth_error (LevelMap.boost_pads lm) i = Some bp -> near bp = true ->
        exists bp', nth_error pads' i = Some bp'
                    /\ BoostPad.active bp' = false /\ BoostPad.cooldown bp' = 5.0)
  /\ Car.boost c'
     = match List.length (filter near (LevelMap.boost_pads lm)) with
       | O => Car.boost c
       | S k => Rmin BOOST_MAX (Car.boost c + 45 * INR (S k))
       end
  /\ (forall bp, In bp (LevelMap.boost_pads lm) -> near bp = true ->
        Rmin BOOST_MAX (Car.boost c + 45) <= Car.boost c'
        /\ (55 <= Car.boost c <= BOOST_MAX -> Car.boost c' = BOOST_MAX)).
Proof.
  intros c' pads' near.
  destruct (car_update_pickup c dt lm) as [Hb Hp]. fold c' in Hb, Hp. fold pads' in Hp.
  rewrite pickup_pads in Hp. rewrite pickup_boost in Hb. fold near in Hb, Hp.
  split; [ | split; [ exact Hp | split; [ | split; [ exact Hb | ] ] ] ].
  - intro bp. unfold near, Car.picks_up.
    rewrite andb_true_iff, Rltb_true_iff. tauto.
  - intros i bp Hi Hn. exists (picked_up bp). rewrite Hp.
    rewrite nth_error_map, Hi. simpl. rewrite Hn. auto.
  - intros bp Hin Hn. rewrite Hb.
    assert (Hf : In bp (filter near (LevelMap.boost_pads lm)))
      by (apply filter_In; auto).
    destruct (filter near (LevelMap.boost_pads lm)) as [ | bp0 l]; [ contradiction | ].
    cbn [List.length]. rewrite S_INR. pose proof (pos_INR (List.length l)) as Hk.
    unfold BOOST_MAX, Rmin. split; [ | intro H55 ];
      repeat destruct (Rle_dec _ _); lra.
Qed.
(** A distance below a bound, from the squares. *)
Lemma dist_lt (dx dy r : R) :
  0 < r -> dx ^ 2 + dy ^ 2 < r ^ 2 -> sqrt (dx ^ 2 + dy ^ 2) < r.
Proof.
  intros Hr Hsq. rewrite <- (sqrt_pow2 r) by lra.
  apply sqrt_lt_1_alt. split; [ nra | exact Hsq ].
Qed.

(** [car_on_pad] after one [update] of 16 ms on [one_pad_map]: it has not
    moved, the meter reads 55 and the pad is off. *)
Lemma car_on_pad_update :
  Car.update car_on_pad 0.016 one_pad_map
  = (Car.mk (640 + 0 * 0.016) (360 + 0 * 0.016) 0 0 0 true (Rmin BOOST_MAX (10 + 45)) 0
            false [(640 + 0 * 0.016, 360 + 0 * 0.016)] 0
            (180, 200, 255)%Z (100, 120, 175)%Z,
     LevelMap.mk 0 level0 [] [picked_up centre_pad] [] [] [] [] []).
Proof.
  unfold Car.update, car_on_pad, one_pad_map, LevelMap.apply_gravity.
  cbn [LevelMap.anomalies LevelMap.gravity_corridors LevelMap.asteroids
       LevelMap.boost_pads fold_left Car.x Car.y Car.vx Car.vy Car.trail Car.boost
       Car.invincible Car.angle Car.is_player Car.score Car.boosting Car.color
       Car.color2 LevelMap.level_id LevelMap.cfg LevelMap.pulse_rings
       LevelMap.lightning LevelMap.crystal_shards].
  unfold Car.clamp_bounds, clamp_axis. cbn [fst snd]. unfold SCREEN_W, SCREEN_H.
  rcompare. cbn [fold_left Car.pickup].
  unfold Car.picks_up, centre_pad, BoostPad.new.
  cbn [BoostPad.active BoostPad.x BoostPad.y BoostPad.radius andb].
  rewrite (proj2 (Rltb_true_iff _ _)) by (apply dist_lt; lra).
  reflexivity.
Qed.
Lemma car_on_pad_near :
  Car.picks_up (Car.x (fst (Car.update car_on_pad 0.016 one_pad_map)))
               (Car.y (fst (Car.update car_on_pad 0.016 one_pad_map))) centre_pad
  = true.
Proof.
  rewrite car_on_pad_update. cbn [fst Car.x Car.y].
  unfold Car.picks_up, centre_pad, BoostPad.new.
  cbn [BoostPad.active BoostPad.x BoostPad.y BoostPad.radius andb].
  apply Rltb_true_iff. apply dist_lt; lra.
Qed.

(** [car_on_pad] on [one_pad_map]: the centre pad comes out inactive with a
    cooldown of 5.0. *)
Lemma boost_pad_pickup_witness :
  exists bp',
    nth_error (LevelMap.boost_pads (snd (Car.update car_on_pad 0.016 one_pad_map))) 0
    = Some bp'
    /\ BoostPad.active bp' = false /\ BoostPad.cooldown bp' = 5.0.
Proof.
  destruct (boost_pad_pickup car_on_pad 0.016 one_pad_map) as (_ & _ & Hpads & _).
  apply (Hpads 0%nat centre_pad); [ reflexivity | exact car_on_pad_near ].
Defined.

(** C1, as stated, fails: [car_on_pad] sits on the active centre pad with 10
    in the meter, and after the update the meter reads 55, not 100. *)
Lemma pad_pickup_is_not_a_refill :
  Car.picks_up (Car.x (fst (Car.update car_on_pad 0.016 one_pad_map)))
               (Car.y (fst (Car.update car_on_pad 0.016 one_pad_map))) centre_pad
  = true
  /\ BoostPad.active centre_pad = true
  /\ Car.boost car_on_pad = 10
  /\ Car.boost (fst (Car.update car_on_pad 0.016 one_pad_map)) = 55.
Proof.
  split; [ exact car_on_pad_near | ]. split; [ reflexivity | ]. split; [ reflexivity | ].
  rewrite car_on_pad_update. cbn [fst Car.boost].
  unfold BOOST_MAX, Rmin. destruct (Rle_dec _ _); lra.
Qed.

(** ** The boost meter *)

Lemma apply_input_meter (c : Car.t) (l r f b k : bool) (dt : R) :
  Car.boosting (Car.apply_input c l r f b k dt) = k && Rltb 5 (Car.boost c) && f
  /\ Car.boost (Car.apply_input c l r f b k dt)
     = if k && Rltb 5 (Car.boost c) && f
       then Car.boost c - BOOST_COST * dt
       else Rmin BOOST_MAX (Car.boost c + BOOST_RECHARGE * dt).
Proof.
  unfold Car.apply_input.
  destruct f, b, (k && Rltb 5 (Car.boost c) && _);
    cbv zeta; cbn [fst snd];
    match goal with |- context [Rltb ?a ?b] => destruct (Rltb a b) end;
    split; reflexivity.
Qed.

(** C3. The meter of a car stays in [[0, 100]] through every [apply_input]
    and [update] of a match, the clock's [dt] being in [[0, 0.05]].  The
    [boosting] flag after [apply_input] is [boost_key and boost > 5 and
    forward]; the meter goes down in [apply_input] only when that flag is
    set, and never in [update]. *)
Theorem boost_meter_invariant :
  (forall c, car_reachable c -> 0 <= Car.boost c <= BOOST_MAX)
  /\ (forall c l r f b k dt,
         Car.boosting (Car.apply_input c l r f b k dt) = true <->
         k = true /\ 5 < Car.boost c /\ f = true)
  /\ (forall c l r f b k dt,
         0 <= dt -> Car.boost c <= BOOST_MAX ->
         Car.boost (Car.apply_input c l r f b k dt) < Car.boost c ->
         Car.boosting (Car.apply_input c l r f b k dt) = true)
  /\ (forall c dt lm,
         Car.boost c <= BOOST_MAX ->
         Car.boost c <= Car.boost (fst (Car.update c dt lm))).
Proof.
  split; [ | split; [ | split ] ].
  - intros c Hc.
    induction Hc as [ x0 y0 p cfg | c l r f b k dt Hc IH Hdt | c dt lm Hc IH Hdt
                    | c ball Hc IH | c kx ky Hc IH | c Hc IH | c x0 Hc IH ].
    + unfold Car.__init__. cbn [Car.boost]. unfold BOOST_MAX. lra.
    + destruct (apply_input_meter c l r f b k dt) as [_ Hb]. rewrite Hb.
      unfold BOOST_MAX, BOOST_COST, BOOST_RECHARGE in *.
      destruct (k && Rltb 5 (Car.boost c) && f) eqn:Hflag.
      * apply andb_true_iff in Hflag. destruct Hflag as [Hflag _].
        apply andb_true_iff in Hflag. destruct Hflag as [_ H5].
        apply Rltb_true_iff in H5. lra.
      * unfold Rmin. destruct (Rle_dec _ _); lra.
    + destruct (car_update_pickup c dt lm) as [Hb _]. cbv zeta in Hb. rewrite Hb.
      pose proof (pickup_bounds (Car.x (fst (Car.update c dt lm)))
                    (Car.y (fst (Car.update c dt lm)))
                    (LevelMap.boost_pads lm) (Car.boost c)) as Hp.
      lra.
    + unfold Ball.car_hit.
      destruct (Rltb _ _ && Rltb _ _); cbn [snd Car.boost]; exact IH.
    + exact IH.
    + exact IH.
    + exact IH.
  - intros c l r f b k dt.
    destruct (apply_input_meter c l r f b k dt) as [Hflag _]. rewrite Hflag.
    rewrite !andb_true_iff, Rltb_true_iff. tauto.
  - intros c l r f b k dt Hdt Hmax Hdrop.
    destruct (apply_input_meter c l r f b k dt) as [Hflag Hb].
    rewrite Hflag. rewrite Hb in Hdrop.
    destruct (k && Rltb 5 (Car.boost c) && f); [ reflexivity | exfalso ].
    unfold BOOST_MAX, BOOST_RECHARGE, Rmin in *.
    destruct (Rle_dec _ _); nra.
  - intros c dt lm Hmax.
    destruct (car_update_pickup c dt lm) as [Hb _]. cbv zeta in Hb. rewrite Hb.
    apply pickup_bounds. exact Hmax.
Qed.

(** A new car that boosts for one tick of 0.05 s. *)
Lemma boost_meter_invariant_witness :
  0 <= Car.boost (Car.apply_input (Car.__init__ 180 360 true None)
                    false false true false true 0.05) <= BOOST_MAX.
Proof.
  apply (proj1 boost_meter_invariant).
  apply car_input; [ apply car_new | lra ].
Defined.

(** ** Nebula drag *)

(** The anomaly [a] acts on a body at [(ox, oy)]: the range test of
    [apply_gravity], [dist < a.radius] for a nebula and [dist < a.radius * 3]
    for the other kinds, [dist] being floored at 1. *)
Definition reaches (ox oy : R) (a : GravityAnomaly.t) : bool :=
  let dx := GravityAnomaly.x a - ox in
  let dy := GravityAnomaly.y a - oy in
  let dist := Rmax 1 (sqrt (dx ^ 2 + dy ^ 2)) in
  Rltb dist (if anomaly_kind_eqb (GravityAnomaly.kind a) nebula
             then GravityAnomaly.radius a else GravityAnomaly.radius a * 3).

Definition scale (k : R) (v : R * R) : R * R := (fst v * k, snd v * k).

Lemma v2_len_scale (k : R) (v : R * R) :
  0 <= k <= 1 -> v2_len (scale k v) <= v2_len v.
Proof.
  intro Hk. unfold v2_len, scale. cbn [fst snd].
  apply sqrt_le_1_alt.
  assert (Hk2 : 0 <= k * k <= 1) by nra.
  assert (H1 : 0 <= fst v ^ 2) by apply pow2_ge_0.
  assert (H2 : 0 <= snd v ^ 2) by apply pow2_ge_0.
  replace ((fst v * k) ^ 2 + (snd v * k) ^ 2)
    with ((k * k) * (fst v ^ 2 + snd v ^ 2)) by ring.
  nra.
Qed.

Lemma nebula_steps (ox oy mass dt : R) (l : list GravityAnomaly.t) :
  Forall (fun a => reaches ox oy a = true -> GravityAnomaly.kind a = nebula) l ->
  forall v,
    fold_left (LevelMap.anomaly_step ox oy mass dt) l v
    = scale ((1 - 0.35 * dt) ^ List.length (filter (reaches ox oy) l)) v.
Proof.
  induction 1 as [ | a l Ha _ IH]; intros [vx vy].
  - unfold scale. simpl. f_equal; lra.
  - cbn [fold_left filter]. rewrite IH. clear IH.
    unfold LevelMap.anomaly_step, reaches in *. cbv zeta in *.
    destruct (anomaly_kind_eqb (GravityAnomaly.kind a) nebula) eqn:Hk.
    + destruct (Rltb _ (GravityAnomaly.radius a)); unfold scale; cbn [fst snd List.length].
      * f_equal; simpl; ring.
      * reflexivity.
    + destruct (Rltb _ (GravityAnomaly.radius a * 3)).
      * specialize (Ha eq_refl). rewrite Ha in Hk. discriminate.
      * reflexivity.
Qed.

Lemma no_corridor_steps (ox oy mass dt : R) (l : list GravityCorridor.t) :
  Forall (fun gc => LevelMap.in_corridor ox oy gc = false) l ->
  forall v, fold_left (LevelMap.corridor_step ox oy mass dt) l v = v.
Proof.
  induction 1 as [ | gc l Hgc _ IH]; intros [vx vy]; [ reflexivity | ].
  cbn [fold_left]. unfold LevelMap.corridor_step at 2. rewrite Hgc. apply IH.
Qed.

(** C5. With [dt] in [[0, 0.05]], when every anomaly in range of the body is
    a nebula and the body is in no gravity corridor, [apply_gravity] returns
    the velocity scaled by [(1 - 0.35 * dt)] once per nebula in range, so its
    magnitude is at most the one before the call. *)
Theorem nebula_only_damps (m : LevelMap.t) (ox oy vx vy mass dt : R) :
  0 <= dt <= 0.05 ->
  Forall (fun a => reaches ox oy a = true -> GravityAnomaly.kind a = nebula)
         (LevelMap.anomalies m) ->
  Forall (fun gc => LevelMap.in_corridor ox oy gc = false)
         (LevelMap.gravity_corridors m) ->
  LevelMap.apply_gravity m ox oy vx vy mass dt
  = scale ((1 - 0.35 * dt) ^ List.length (filter (reaches ox oy) (LevelMap.anomalies m)))
          (vx, vy)
  /\ v2_len (LevelMap.apply_gravity m ox oy vx vy mass dt) <= v2_len (vx, vy).
Proof.
  intros Hdt Hneb Hcor.
  assert (E : LevelMap.apply_gravity m ox oy vx vy mass dt
              = scale ((1 - 0.35 * dt)
                       ^ List.length (filter (reaches ox oy) (LevelMap.anomalies m)))
                      (vx, vy)).
  { unfold LevelMap.apply_gravity.
    rewrite (nebula_steps _ _ _ _ _ Hneb). apply no_corridor_steps. exact Hcor. }
  split; [ exact E | ]. rewrite E. apply v2_len_scale.
  split.
  - apply pow_le. lra.
  - apply Rle_trans
      with (1 ^ List.length (filter (reaches ox oy) (LevelMap.anomalies m))).
    + apply pow_incr. lra.
    + rewrite pow1. lra.
Qed.

Lemma nebula_map_in_range :
  List.length (filter (reaches 100 100) (LevelMap.anomalies nebula_map)) = 1%nat.
Proof.
  unfold nebula_map. cbn [LevelMap.anomalies filter].
  assert (Hr : reaches 100 100 (GravityAnomaly.mk 100 100 80 40 nebula) = true).
  { unfold reaches. cbn [GravityAnomaly.x GravityAnomaly.y GravityAnomaly.kind
                         GravityAnomaly.radius anomaly_kind_eqb].
    apply Rltb_true_iff.
    replace ((100 - 100) ^ 2 + (100 - 100) ^ 2) with 0 by lra.
    rewrite sqrt_0. unfold Rmax. destruct (Rle_dec 1 0); lra. }
  rewrite Hr. reflexivity.
Qed.

(** A body at the centre of the nebula of [nebula_map], moving at 10: one
    nebula in range, one factor. *)
Lemma nebula_only_damps_witness :
  List.length (filter (reaches 100 100) (LevelMap.anomalies nebula_map)) = 1%nat
  /\ LevelMap.apply_gravity nebula_map 100 100 10 0 1.0 0.05
     = scale ((1 - 0.35 * 0.05)
              ^ List.length (filter (reaches 100 100) (LevelMap.anomalies nebula_map)))
             (10, 0)
  /\ v2_len (LevelMap.apply_gravity nebula_map 100 100 10 0 1.0 0.05) <= v2_len (10, 0).
Proof.
  split; [ exact nebula_map_in_range | ].
  apply (nebula_only_damps nebula_map 100 100 10 0 1.0 0.05).
  - lra.
  - repeat constructor.
  - constructor.
Defined.

(** ** Two more concrete runs *)

(** A body of radius 18 on the live node of [storm_map] is hit. *)
Lemma check_hazard_hit_iff_witness :
  LevelMap.check_hazard_hit storm_map 200 200 18 = true.
Proof.
  apply (proj2 (check_hazard_hit_iff storm_map 200 200 18)).
  left. exists (LightningNode.mk 200 200 1.0 true 60).
  split; [ left; reflexivity | ]. split; [ reflexivity | ].
  cbn [LightningNode.x LightningNode.y LightningNode.radius].
  apply dist_lt; lra.
Defined.

(** [ball_on_car] overlaps [car_on_pad] exactly: no hit, and both come back
    as they were. *)
Lemma car_hit_iff_witness :
  Ball.car_hit ball_on_car car_on_pad = (false, ball_on_car, car_on_pad).
Proof.
  destruct (car_hit_iff ball_on_car car_on_pad) as (_ & Hhit & Hmiss).
  apply Hmiss.
  destruct (fst (fst (Ball.car_hit ball_on_car car_on_pad))); [ exfalso | reflexivity ].
  destruct (proj1 Hhit eq_refl) as [Hfar _].
  cbn [Ball.x Ball.y Car.x Car.y ball_on_car car_on_pad] in Hfar.
  replace ((640 - 640) ^ 2 + (360 - 360) ^ 2) with 0 in Hfar by lra.
  rewrite sqrt_0 in Hfar. lra.
Defined.

(** * More of the arena *)

(** ** Arena objects under [update] *)

Definition sum_dt (dts : list R) : R := fold_right Rplus 0 dts.

(** The pulse ring after the ticks [dts]. *)
Definition ring_after (dts : list R) (pr : PulseRing.t) : PulseRing.t :=
  fold_left (fun r dt => LevelMap.update_ring dt r) dts pr.

Lemma update_ring_step (dt : R) (pr : PulseRing.t) :
  0 <= dt ->
  10 <= PulseRing.radius pr <= PulseRing.max_radius pr ->
  0 <= PulseRing.speed pr ->
  10 <= PulseRing.radius (LevelMap.update_ring dt pr) <= PulseRing.max_radius pr
  /\ PulseRing.max_radius (LevelMap.update_ring dt pr) = PulseRing.max_radius pr
  /\ PulseRing.speed (LevelMap.update_ring dt pr) = PulseRing.speed pr
  /\ PulseRing.cx (LevelMap.update_ring dt pr) = PulseRing.cx pr
  /\ PulseRing.cy (LevelMap.update_ring dt pr) = PulseRing.cy pr.
Proof.
  intros Hdt Hr Hs. unfold LevelMap.update_ring.
  cbn [PulseRing.radius PulseRing.max_radius PulseRing.speed PulseRing.cx PulseRing.cy].
  repeat split; try reflexivity;
    destruct (Rltb (PulseRing.max_radius pr)
                (PulseRing.radius pr + PulseRing.speed pr * dt)) eqn:Hover;
    try lra; apply Rltb_false_iff in Hover; nra.
Qed.

(** A ring in its band stays there through the ticks [dts]. *)
Lemma pulse_ring_radius_bounded (dts : list R) (pr : PulseRing.t) :
  Forall (fun dt => 0 <= dt) dts ->
  10 <= PulseRing.radius pr <= PulseRing.max_radius pr ->
  0 <= PulseRing.speed pr ->
  10 <= PulseRing.radius (ring_after dts pr) <= PulseRing.max_radius pr
  /\ PulseRing.max_radius (ring_after dts pr) = PulseRing.max_radius pr
  /\ PulseRing.speed (ring_after dts pr) = PulseRing.speed pr
  /\ PulseRing.cx (ring_after dts pr) = PulseRing.cx pr
  /\ PulseRing.cy (ring_after dts pr) = PulseRing.cy pr.
Proof.
  intro Hdts. revert pr.
  induction Hdts as [ | dt dts Hdt _ IH]; intros pr Hr Hs.
  - unfold ring_after. cbn [fold_left]. repeat split; try reflexivity; lra.
  - change (ring_after (dt :: dts) pr) with (ring_after dts (LevelMap.update_ring dt pr)).
    destruct (update_ring_step dt pr Hdt Hr Hs) as (Hb & Em & Es & Ex & Ey).
    destruct (IH (LevelMap.update_ring dt pr)) as (Hb' & Em' & Es' & Ex' & Ey').
    + rewrite Em. exact Hb.
    + rewrite Es. exact Hs.
    + rewrite Em in Hb', Em'. rewrite Es in Es'. rewrite Ex in Ex'. rewrite Ey in Ey'.
      repeat split; assumption || lra.
Qed.

(** The boost pad after the ticks [dts]. *)
Definition pad_after (dts : list R) (bp : BoostPad.t) : BoostPad.t :=
  fold_left (fun p dt => LevelMap.update_pad dt p) dts bp.

Lemma pad_after_active (dts : list R) (bp : BoostPad.t) :
  BoostPad.active bp = true -> pad_after dts bp = bp.
Proof.
  intro Ha. unfold pad_after. induction dts as [ | dt dts IH]; [ reflexivity | ].
  cbn [fold_left]. unfold LevelMap.update_pad at 2. rewrite Ha. exact IH.
Qed.

(** A pulse ring across one tick of [dt]: grown by [speed * dt], or back at
    10 when that passes [max_radius]; nothing else of it changes. *)
Definition ring_pulsed (dt : R) (pr pr' : PulseRing.t) : Prop :=
  (PulseRing.radius pr + PulseRing.speed pr * dt <= PulseRing.max_radius pr ->
   PulseRing.radius pr' = PulseRing.radius pr + PulseRing.speed pr * dt)
  /\ (PulseRing.max_radius pr < PulseRing.radius pr + PulseRing.speed pr * dt ->
      PulseRing.radius pr' = 10)
  /\ PulseRing.cx pr' = PulseRing.cx pr /\ PulseRing.cy pr' = PulseRing.cy pr
  /\ PulseRing.max_radius pr' = PulseRing.max_radius pr
  /\ PulseRing.speed pr' = PulseRing.speed pr
  /\ PulseRing.color pr' = PulseRing.color pr.

Lemma update_ring_pulsed (dt : R) (pr : PulseRing.t) :
  ring_pulsed dt pr (LevelMap.update_ring dt pr).
Proof.
  unfold ring_pulsed, LevelMap.update_ring.
  cbn [PulseRing.radius PulseRing.max_radius PulseRing.speed PulseRing.cx PulseRing.cy
       PulseRing.color].
  destruct (Rltb (PulseRing.max_radius pr)
              (PulseRing.radius pr + PulseRing.speed pr * dt)) eqn:Hover.
  - apply Rltb_true_iff in Hover. repeat split; try reflexivity. intro; lra.
  - apply Rltb_false_iff in Hover. repeat split; try reflexivity. intro; lra.
Qed.

(** A boost pad across one tick of [dt]: it stays where it is; an active pad
    is left alone; the cooldown of an inactive one runs down by [dt], and
    the pad is switched on exactly when that uses the cooldown up. *)
Definition pad_ticked (dt : R) (bp bp' : BoostPad.t) : Prop :=
  BoostPad.x bp' = BoostPad.x bp /\ BoostPad.y bp' = BoostPad.y bp
  /\ BoostPad.radius bp' = BoostPad.radius bp
  /\ (BoostPad.active bp = true -> bp' = bp)
  /\ (BoostPad.active bp = false ->
      BoostPad.cooldown bp' = BoostPad.cooldown bp - dt
      /\ (BoostPad.active bp' = true <-> BoostPad.cooldown bp <= dt)).

Lemma update_pad_ticked (dt : R) (bp : BoostPad.t) :
  pad_ticked dt bp (LevelMap.update_pad dt bp).
Proof.
  unfold pad_ticked, LevelMap.update_pad.
  destruct (BoostPad.active bp) eqn:Ha; cbn [negb].
  - repeat split; try reflexivity; discriminate.
  - cbn [BoostPad.x BoostPad.y BoostPad.radius BoostPad.active BoostPad.cooldown].
    repeat split; try reflexivity; try discriminate.
    + destruct (Rleb (BoostPad.cooldown bp - dt) 0) eqn:Hback; [ | discriminate ].
      apply Rleb_true_iff in Hback. intros _. lra.
    + intro Hle. rewrite (proj2 (Rleb_true_iff _ _)) by lra. reflexivity.
Qed.

(** A boost pad across the ticks [dts]: it stays where it is; it is never
    switched off, and an active pad is left alone; a cooldown never grows
    under ticks [dt >= 0]; and a pad that is still off after a tick has
    cooldown left. *)
Definition pad_kept (dts : list R) (bp bp' : BoostPad.t) : Prop :=
  BoostPad.x bp' = BoostPad.x bp /\ BoostPad.y bp' = BoostPad.y bp
  /\ BoostPad.radius bp' = BoostPad.radius bp
  /\ (BoostPad.active bp = true -> bp' = bp)
  /\ (Forall (fun dt => 0 <= dt) dts -> BoostPad.cooldown bp' <= BoostPad.cooldown bp)
  /\ (dts <> [] -> BoostPad.active bp' = false -> 0 < BoostPad.cooldown bp').

Lemma pad_after_kept (dts : list R) :
  forall bp, pad_kept dts bp (pad_after dts bp).
Proof.
  induction dts as [ | dt dts IH]; intro bp.
  - unfold pad_kept, pad_after. cbn [fold_left].
    repeat split; try reflexivity; try lra. intro Hne. congruence.
  - change (pad_after (dt :: dts) bp) with (pad_after dts (LevelMap.update_pad dt bp)).
    destruct (IH (LevelMap.update_pad dt bp)) as (Hx & Hy & Hr & Hon & Hcd & Hoff).
    destruct (update_pad_ticked dt bp) as (Tx & Ty & Tr & Ton & Toff).
    unfold pad_kept. rewrite Hx, Hy, Hr.
    split; [ exact Tx | ]. split; [ exact Ty | ]. split; [ exact Tr | ].
    split; [ | split ].
    + intro Ha. rewrite (Ton Ha). apply pad_after_active. exact Ha.
    + intro Hdts. inversion Hdts as [ | ? ? Hdt Hrest]; subst.
      specialize (Hcd Hrest).
      destruct (BoostPad.active bp) eqn:Ha.
      * pose proof (Ton eq_refl) as E. rewrite E in Hcd |- *. exact Hcd.
      * destruct (Toff eq_refl) as [Ec _]. lra.
    + intros _ Hstill.
      destruct dts as [ | d2 dts].
      * unfold pad_after in *. cbn [fold_left] in *.
        unfold LevelMap.update_pad in *.
        destruct (BoostPad.active bp) eqn:Ha; cbn [negb] in *; [ congruence | ].
        cbn [BoostPad.active BoostPad.cooldown] in *.
        destruct (Rleb (BoostPad.cooldown bp - dt) 0) eqn:Hback; [ discriminate | ].
        apply Rleb_false_iff in Hback. exact Hback.
      * apply Hoff; [ discriminate | exact Hstill ].
Qed.

(** The asteroid and the crystal shard after the ticks [dts]. *)
Definition asteroid_after (dts : list R) (ast : MovingAsteroid.t) : MovingAsteroid.t :=
  fold_left (fun a dt => LevelMap.update_asteroid dt a) dts ast.

Definition shard_after (dts : list R) (cs : CrystalShard.t) : CrystalShard.t :=
  fold_left (fun c dt => LevelMap.update_shard dt c) dts cs.

Section Arena.
Context `{PyRandom}.

(** [run] updates each pad, asteroid, ring and shard on its own. *)
Lemma run_objects (dts : list R) :
  forall (m : LevelMap.t) (g : gen),
    LevelMap.boost_pads (fst (LevelMap.run m dts g))
    = map (pad_after dts) (LevelMap.boost_pads m)
    /\ LevelMap.asteroids (fst (LevelMap.run m dts g))
       = map (asteroid_after dts) (LevelMap.asteroids m)
    /\ LevelMap.pulse_rings (fst (LevelMap.run m dts g))
       = map (ring_after dts) (LevelMap.pulse_rings m)
    /\ LevelMap.crystal_shards (fst (LevelMap.run m dts g))
       = map (shard_after dts) (LevelMap.crystal_shards m)
    /\ LevelMap.anomalies (fst (LevelMap.run m dts g)) = LevelMap.anomalies m
    /\ LevelMap.gravity_corridors (fst (LevelMap.run m dts g))
       = LevelMap.gravity_corridors m.
Proof.
  induction dts as [ | dt dts IH]; intros m g.
  - cbn [LevelMap.run fst]. unfold pad_after, asteroid_after, ring_after, shard_after.
    cbn [fold_left]. rewrite !map_id. repeat split; reflexivity.
  - cbn [LevelMap.run].
    destruct (LevelMap.update m dt g) as [m1 g1] eqn:Eu.
    destruct (IH m1 g1) as (Hp & Ha & Hr & Hs & Hn & Hc).
    rewrite Hp, Ha, Hr, Hs, Hn, Hc.
    unfold LevelMap.update in Eu.
    destruct (LevelMap.update_nodes dt (LevelMap.lightning m) g) as [nodes g'].
    injection Eu as <- _.
    cbn [LevelMap.boost_pads LevelMap.asteroids LevelMap.pulse_rings
         LevelMap.crystal_shards LevelMap.anomalies LevelMap.gravity_corridors].
    rewrite !map_map. repeat split; reflexivity.
Qed.

(** One [update] works on each pad, asteroid, ring and shard on its own. *)
Lemma update_objects (m : LevelMap.t) (dt : R) (g : gen) :
  LevelMap.boost_pads (fst (LevelMap.update m dt g))
  = map (LevelMap.update_pad dt) (LevelMap.boost_pads m)
  /\ LevelMap.pulse_rings (fst (LevelMap.update m dt g))
     = map (LevelMap.update_ring dt) (LevelMap.pulse_rings m).
Proof.
  unfold LevelMap.update.
  destruct (LevelMap.update_nodes dt (LevelMap.lightning m) g) as [nodes g'].
  split; reflexivity.
Qed.

Lemma Forall2_map_self {A : Type} (P : A -> A -> Prop) (f : A -> A) (l : list A) :
  (forall a, P a (f a)) -> Forall2 P l (map f l).
Proof.
  intro Hf. induction l as [ | a l IH]; cbn [map]; constructor; [ apply Hf | exact IH ].
Qed.

(** X1. Through every run of [update] with [dt >= 0], the pulse rings that
    start between 10 and their [max_radius] with a speed that is not
    negative stay so, and no ring appears, goes, moves or changes its
    [max_radius] or speed.  However long the arena has run, one more
    [update] of [dt] grows each ring by [speed * dt], or puts it back at
    radius 10 when that would pass its [max_radius]. *)
Theorem pulse_rings_stay_in_band (m : LevelMap.t) (dts : list R) (g : gen) :
  Forall (fun dt => 0 <= dt) dts ->
  Forall (fun pr => 10 <= PulseRing.radius pr <= PulseRing.max_radius pr
                    /\ 0 <= PulseRing.speed pr) (LevelMap.pulse_rings m) ->
  Forall (fun pr => 10 <= PulseRing.radius pr <= PulseRing.max_radius pr
                    /\ 0 <= PulseRing.speed pr)
         (LevelMap.pulse_rings (fst (LevelMap.run m dts g)))
  /\ map (fun pr => (PulseRing.cx pr, PulseRing.cy pr, PulseRing.max_radius pr,
                     PulseRing.speed pr))
         (LevelMap.pulse_rings (fst (LevelMap.run m dts g)))
     = map (fun pr => (PulseRing.cx pr, PulseRing.cy pr, PulseRing.max_radius pr,
                       PulseRing.speed pr))
           (LevelMap.pulse_rings m)
  /\ (forall dt g',
        Forall2 (ring_pulsed dt)
                (LevelMap.pulse_rings (fst (LevelMap.run m dts g)))
                (LevelMap.pulse_rings
                   (fst (LevelMap.update (fst (LevelMap.run m dts g)) dt g')))).
Proof.
  intros Hdts Hok.
  split; [ | split ].
  - destruct (run_objects dts m g) as (_ & _ & Hr & _). rewrite Hr. clear Hr.
    induction Hok as [ | pr rings [Hrad Hsp] _ IH]; cbn [map]; constructor.
    + destruct (pulse_ring_radius_bounded dts pr Hdts Hrad Hsp) as (Hb & Em & Es & _).
      rewrite Em, Es. auto.
    + exact IH.
  - destruct (run_objects dts m g) as (_ & _ & Hr & _). rewrite Hr. clear Hr.
    induction Hok as [ | pr rings [Hrad Hsp] _ IH]; cbn [map]; [ reflexivity | ].
    destruct (pulse_ring_radius_bounded dts pr Hdts Hrad Hsp) as (_ & Em & Es & Ex & Ey).
    rewrite IH, Em, Es, Ex, Ey. reflexivity.
  - intros dt g'.
    destruct (update_objects (fst (LevelMap.run m dts g)) dt g') as (_ & Hr).
    rewrite Hr. apply Forall2_map_self. apply update_ring_pulsed.
Qed.

(** X2. Across one [update] of [dt] every boost pad stays where it is with
    its radius; an active pad is left alone, and an inactive pad's cooldown
    runs down by [dt] and the pad is switched on again exactly when
    [cooldown <= dt], that is when the tick uses the cooldown up.  Across
    any run of [update], no pad appears or goes, none is ever switched off,
    a cooldown never grows under ticks [dt >= 0], and a pad still off after
    a tick has cooldown left. *)
Theorem boost_pads_cool_down (m : LevelMap.t) (dt : R) (dts : list R) (g : gen) :
  Forall2 (pad_ticked dt) (LevelMap.boost_pads m)
          (LevelMap.boost_pads (fst (LevelMap.update m dt g)))
  /\ Forall2 (pad_kept dts) (LevelMap.boost_pads m)
             (LevelMap.boost_pads (fst (LevelMap.run m dts g))).
Proof.
  split.
  - destruct (update_objects m dt g) as (Hp & _). rewrite Hp.
    apply Forall2_map_self. apply update_pad_ticked.
  - destruct (run_objects dts m g) as (Hp & _). rewrite Hp.
    apply Forall2_map_self. apply pad_after_kept.
Qed.
End Arena.

(** [ring_map]: a ring as level 4 has them, 0.3 s into a match. *)
Lemma pulse_rings_stay_in_band_witness :
  Forall (fun pr => 10 <= PulseRing.radius pr <= PulseRing.max_radius pr
                    /\ 0 <= PulseRing.speed pr)
         (LevelMap.pulse_rings
            (fst (LevelMap.run (H := counter_random) ring_map
                               [0.05; 0.05; 0.05; 0.05; 0.05; 0.05] 0%nat)))
  /\ Forall2 (ring_pulsed 0.05)
             (LevelMap.pulse_rings
                (fst (LevelMap.run (H := counter_random) ring_map
                                   [0.05; 0.05; 0.05; 0.05; 0.05; 0.05] 0%nat)))
             (LevelMap.pulse_rings
                (fst (LevelMap.update (H := counter_random)
                        (fst (LevelMap.run (H := counter_random) ring_map
                                [0.05; 0.05; 0.05; 0.05; 0.05; 0.05] 0%nat))
                        0.05 6%nat))).
Proof.
  destruct (pulse_rings_stay_in_band (H := counter_random) ring_map
              [0.05; 0.05; 0.05; 0.05; 0.05; 0.05] 0%nat) as (Hband & _ & Hstep).
  - repeat constructor; lra.
  - repeat constructor; simpl; lra.
  - split; [ exact Hband | apply Hstep ].
Defined.

(** One lightning node across one [update] of [dt]: it stays where it is; it
    toggles exactly when its timer runs out, and then stays on for 0.4 to
    2.5 s or off for 1 to 4 s; otherwise the timer just runs on.  Either way
    the timer is positive afterwards. *)
Definition node_ticked (dt : R) (ln ln' : LightningNode.t) : Prop :=
  LightningNode.x ln' = LightningNode.x ln
  /\ LightningNode.y ln' = LightningNode.y ln
  /\ LightningNode.radius ln' = LightningNode.radius ln
  /\ 0 < LightningNode.timer ln'
  /\ (LightningNode.timer ln - dt <= 0 ->
      LightningNode.active ln' = negb (LightningNode.active ln)
      /\ (LightningNode.active ln' = true -> 0.4 <= LightningNode.timer ln' < 2.5)
      /\ (LightningNode.active ln' = false -> 1.0 <= LightningNode.timer ln' < 4.0))
  /\ (0 < LightningNode.timer ln - dt ->
      LightningNode.active ln' = LightningNode.active ln
      /\ LightningNode.timer ln' = LightningNode.timer ln - dt).

Section Lightning.
Context `{PyRandom}.

Lemma random_uniform_range (a b : R) (g : gen) :
  a < b -> a <= fst (random_uniform a b g) < b.
Proof.
  intro Hab. rewrite random_uniform_fst.
  pose proof (random_range g) as Hu. split; nra.
Qed.

Lemma update_node_ticked (dt : R) (ln : LightningNode.t) (g : gen) :
  node_ticked dt ln (fst (LevelMap.update_node dt ln g)).
Proof.
  unfold LevelMap.update_node, node_ticked.
  destruct (Rleb (LightningNode.timer ln - dt) 0) eqn:Hrun.
  - apply Rleb_true_iff in Hrun.
    destruct (negb (LightningNode.active ln)) eqn:Hact.
    + pose proof (random_uniform_range 0.4 2.5 g ltac:(lra)) as Hu.
      destruct (random_uniform 0.4 2.5 g) as [t g']. cbn [fst] in *.
      cbn [LightningNode.x LightningNode.y LightningNode.radius LightningNode.timer
           LightningNode.active].
      repeat split; try reflexivity; try lra; try discriminate;
        intros; try lra; try discriminate.
    + pose proof (random_uniform_range 1.0 4.0 g ltac:(lra)) as Hu.
      destruct (random_uniform 1.0 4.0 g) as [t g']. cbn [fst] in *.
      cbn [LightningNode.x LightningNode.y LightningNode.radius LightningNode.timer
           LightningNode.active].
      repeat split; try reflexivity; try lra; try discriminate;
        intros; try lra; try discriminate.
  - apply Rleb_false_iff in Hrun.
    cbn [fst LightningNode.x LightningNode.y LightningNode.radius LightningNode.timer
         LightningNode.active].
    repeat split; try reflexivity; try lra; intros; lra.
Qed.

Lemma update_nodes_ticked (dt : R) (l : list LightningNode.t) :
  forall g, Forall2 (node_ticked dt) l (fst (LevelMap.update_nodes dt l g)).
Proof.
  induction l as [ | ln l IH]; intro g; cbn [LevelMap.update_nodes].
  - constructor.
  - pose proof (update_node_ticked dt ln g) as Hn.
    destruct (LevelMap.update_node dt ln g) as [ln' g1].
    specialize (IH g1).
    destruct (LevelMap.update_nodes dt l g1) as [l' g2].
    constructor; assumption.
Qed.

(** X3. Across one [update], whatever [dt] and the draws, every lightning
    node stays in place and ends with a positive timer; a node toggles
    exactly when its timer runs out ([timer - dt <= 0]), at most once per
    tick, and its next phase lasts from 0.4 to 2.5 s when it switched on and
    from 1 to 4 s when it switched off. *)
Theorem lightning_nodes_tick (m : LevelMap.t) (dt : R) (g : gen) :
  Forall2 (node_ticked dt) (LevelMap.lightning m)
          (LevelMap.lightning (fst (LevelMap.update m dt g)))
  /\ Forall (fun ln => 0 < LightningNode.timer ln)
            (LevelMap.lightning (fst (LevelMap.update m dt g))).
Proof.
  assert (Hall : Forall2 (node_ticked dt) (LevelMap.lightning m)
                         (LevelMap.lightning (fst (LevelMap.update m dt g)))).
  { destruct (update_fields m dt g) as [E _]. rewrite E. apply update_nodes_ticked. }
  split; [ exact Hall | ].
  induction Hall as [ | ln ln' l l' Hn _ IH]; constructor.
  - destruct Hn as (_ & _ & _ & Hpos & _). exact Hpos.
  - exact IH.
Qed.

(** An asteroid across a run of [update]: same radius, spin and colour, the
    same speed along each axis, and an angle that has turned by
    [spin * dt] at each tick. *)
Definition asteroid_drifted (dts : list R) (a a' : MovingAsteroid.t) : Prop :=
  MovingAsteroid.radius a' = MovingAsteroid.radius a
  /\ MovingAsteroid.spin a' = MovingAsteroid.spin a
  /\ MovingAsteroid.color a' = MovingAsteroid.color a
  /\ Rabs (MovingAsteroid.vx a') = Rabs (MovingAsteroid.vx a)
  /\ Rabs (MovingAsteroid.vy a') = Rabs (MovingAsteroid.vy a)
  /\ MovingAsteroid.angle a'
     = MovingAsteroid.angle a + MovingAsteroid.spin a * sum_dt dts.

Lemma asteroid_after_drifted (dts : list R) :
  forall a, asteroid_drifted dts a (asteroid_after dts a).
Proof.
  induction dts as [ | dt dts IH]; intro a.
  - unfold asteroid_drifted, asteroid_after. cbn [fold_left sum_dt fold_right].
    repeat split; try reflexivity. lra.
  - change (asteroid_after (dt :: dts) a)
      with (asteroid_after dts (LevelMap.update_asteroid dt a)).
    destruct (IH (LevelMap.update_asteroid dt a)) as (Hr & Hs & Hc & Hx & Hy & Ha).
    unfold asteroid_drifted. rewrite Hr, Hs, Hc, Hx, Hy, Ha.
    change (sum_dt (dt :: dts)) with (dt + sum_dt dts).
    unfold LevelMap.update_asteroid.
    cbn [MovingAsteroid.radius MovingAsteroid.spin MovingAsteroid.color
         MovingAsteroid.vx MovingAsteroid.vy MovingAsteroid.angle].
    repeat split; try reflexivity.
    + destruct (_ || _); [ | reflexivity ].
      replace (MovingAsteroid.vx a * -1) with (- MovingAsteroid.vx a) by lra.
      apply Rabs_Ropp.
    + destruct (_ || _); [ | reflexivity ].
      replace (MovingAsteroid.vy a * -1) with (- MovingAsteroid.vy a) by lra.
      apply Rabs_Ropp.
    + lra.
Qed.

(** A crystal shard across a run of [update]: it stays where it is with its
    size and spin, its angle turned by [spin * dt] at each tick. *)
Definition shard_turned (dts : list R) (cs cs' : CrystalShard.t) : Prop :=
  CrystalShard.x cs' = CrystalShard.x cs /\ CrystalShard.y cs' = CrystalShard.y cs
  /\ CrystalShard.size cs' = CrystalShard.size cs
  /\ CrystalShard.spin cs' = CrystalShard.spin cs
  /\ CrystalShard.angle cs' = CrystalShard.angle cs + CrystalShard.spin cs * sum_dt dts.

Lemma shard_after_turned (dts : list R) :
  forall cs, shard_turned dts cs (shard_after dts cs).
Proof.
  induction dts as [ | dt dts IH]; intro cs.
  - unfold shard_turned, shard_after. cbn [fold_left sum_dt fold_right].
    repeat split; try reflexivity. lra.
  - change (shard_after (dt :: dts) cs)
      with (shard_after dts (LevelMap.update_shard dt cs)).
    destruct (IH (LevelMap.update_shard dt cs)) as (Hx & Hy & Hz & Hs & Ha).
    unfold shard_turned. rewrite Hx, Hy, Hz, Hs, Ha.
    change (sum_dt (dt :: dts)) with (dt + sum_dt dts).
    unfold LevelMap.update_shard.
    cbn [CrystalShard.x CrystalShard.y CrystalShard.size CrystalShard.spin
         CrystalShard.angle].
    repeat split; try reflexivity. lra.
Qed.

(** X4. Asteroids are never destroyed, resized or slowed: after any run of
    [update] the arena has the same asteroids in the same order, each with
    its radius, spin, colour and its speed along each axis unchanged (a wall
    only flips a sign), and an angle turned by [spin] times the elapsed
    time.  Crystal shards only rotate: each stays where it is with its size
    and spin, its angle turned by [spin] times the elapsed time. *)
Theorem asteroids_only_drift (m : LevelMap.t) (dts : list R) (g : gen) :
  Forall2 (asteroid_drifted dts) (LevelMap.asteroids m)
          (LevelMap.asteroids (fst (LevelMap.run m dts g)))
  /\ Forall2 (shard_turned dts) (LevelMap.crystal_shards m)
             (LevelMap.crystal_shards (fst (LevelMap.run m dts g))).
Proof.
  destruct (run_objects dts m g) as (_ & Ha & _ & Hs & _). rewrite Ha, Hs.
  split.
  - clear Ha Hs.
    induction (LevelMap.asteroids m) as [ | a l IH]; cbn [map]; constructor.
    + apply asteroid_after_drifted.
    + exact IH.
  - clear Ha Hs.
    induction (LevelMap.crystal_shards m) as [ | c l IH]; cbn [map]; constructor.
    + apply shard_after_turned.
    + exact IH.
Qed.
End Lightning.

(** ** Plane vectors *)

Lemma v2_len_nonneg (v : R * R) : 0 <= v2_len v.
Proof. unfold v2_len. apply sqrt_pos. Qed.

Lemma v2_len_sqr (v : R * R) : v2_len v * v2_len v = fst v ^ 2 + snd v ^ 2.
Proof.
  unfold v2_len. apply sqrt_sqrt.
  pose proof (pow2_ge_0 (fst v)). pose proof (pow2_ge_0 (snd v)). lra.
Qed.

(** A length is the only non-negative number with the right square. *)
Lemma v2_len_unique (v : R * R) (l : R) :
  0 <= l -> l * l = fst v ^ 2 + snd v ^ 2 -> v2_len v = l.
Proof.
  intros Hl Hsq. unfold v2_len. rewrite <- Hsq.
  replace (l * l) with (Rsqr l) by reflexivity. apply sqrt_Rsqr. exact Hl.
Qed.

Lemma v2_len_le (v : R * R) (l : R) :
  0 <= l -> fst v ^ 2 + snd v ^ 2 <= l * l -> v2_len v <= l.
Proof.
  intros Hl Hsq. unfold v2_len.
  rewrite <- (sqrt_Rsqr l Hl). apply sqrt_le_1_alt. unfold Rsqr. exact Hsq.
Qed.

Lemma v2_len_scaled (k : R) (v : R * R) : v2_len (scale k v) = Rabs k * v2_len v.
Proof.
  apply v2_len_unique.
  - apply Rmult_le_pos; [ apply Rabs_pos | apply v2_len_nonneg ].
  - unfold scale. cbn [fst snd].
    replace (Rabs k * v2_len v * (Rabs k * v2_len v))
      with ((Rabs k * Rabs k) * (v2_len v * v2_len v)) by ring.
    rewrite v2_len_sqr. replace (Rabs k * Rabs k) with (k * k).
    + ring.
    + unfold Rabs. destruct (Rcase_abs k); ring.
Qed.

(** The triangle inequality. *)
Lemma v2_len_add (a b c d : R) :
  v2_len (a + c, b + d) <= v2_len (a, b) + v2_len (c, d).
Proof.
  pose proof (v2_len_nonneg (a, b)) as Hp. pose proof (v2_len_nonneg (c, d)) as Hq.
  pose proof (v2_len_sqr (a, b)) as Ep. pose proof (v2_len_sqr (c, d)) as Eq.
  cbn [fst snd] in Ep, Eq.
  set (p := v2_len (a, b)) in *. set (q := v2_len (c, d)) in *.
  apply v2_len_le; [ lra | ]. cbn [fst snd].
  assert (Hcs : a * c + b * d <= p * q).
  { destruct (Rle_dec (a * c + b * d) 0) as [Hneg | Hpos].
    - assert (0 <= p * q) by (apply Rmult_le_pos; assumption). lra.
    - apply Rnot_le_lt in Hpos.
      assert (Hsq : (a * c + b * d) * (a * c + b * d) <= (p * q) * (p * q)).
      { replace ((p * q) * (p * q)) with ((p * p) * (q * q)) by ring.
        rewrite Ep, Eq.
        assert (E : (a ^ 2 + b ^ 2) * (c ^ 2 + d ^ 2)
                    - (a * c + b * d) * (a * c + b * d)
                    = (a * d - b * c) * (a * d - b * c)) by ring.
        pose proof (Rle_0_sqr (a * d - b * c)) as Hnn. unfold Rsqr in Hnn. lra. }
      assert (0 <= p * q) by (apply Rmult_le_pos; assumption).
      nra. }
  nra.
Qed.

(** The unit vector from a distance that is not zero. *)
Lemma unit_normal (dx dy : R) :
  0 < sqrt (dx ^ 2 + dy ^ 2) ->
  (dx / sqrt (dx ^ 2 + dy ^ 2)) ^ 2 + (dy / sqrt (dx ^ 2 + dy ^ 2)) ^ 2 = 1.
Proof.
  intro Hd. pose proof (v2_len_sqr (dx, dy)) as Hsq. unfold v2_len in Hsq.
  cbn [fst snd] in Hsq. set (d := sqrt (dx ^ 2 + dy ^ 2)) in *.
  replace ((dx / d) ^ 2 + (dy / d) ^ 2) with ((dx ^ 2 + dy ^ 2) / (d * d)).
  - rewrite <- Hsq. field. lra.
  - field. lra.
Qed.

(** ** Gravity fields *)

Lemma Rpower_ge_1 (x y : R) : 1 <= x -> 0 <= y -> 1 <= Rpower x y.
Proof.
  intros Hx Hy. unfold Rpower. rewrite <- exp_0.
  destruct (Req_dec (y * ln x) 0) as [E | N].
  - rewrite E. lra.
  - left. apply exp_increasing.
    assert (0 <= ln x).
    { rewrite <- ln_1. destruct (Req_dec x 1) as [-> | Hne]; [ lra | ].
      left. apply ln_increasing; lra. }
    assert (0 <= y * ln x) by (apply Rmult_le_pos; assumption). lra.
Qed.

(** The pull of one anomaly that is not a nebula. *)
Lemma anomaly_step_pull (ox oy mass dt vx vy : R) (a : GravityAnomaly.t) :
  GravityAnomaly.kind a <> nebula -> 0 < mass -> 0 <= dt ->
  let v' := LevelMap.anomaly_step ox oy mass dt (vx, vy) a in
  let dx := GravityAnomaly.x a - ox in
  let dy := GravityAnomaly.y a - oy in
  v2_len (fst v' - vx, snd v' - vy) <= Rabs (GravityAnomaly.strength a) * dt / mass
  /\ (GravityAnomaly.radius a * 3 <= Rmax 1 (sqrt (dx ^ 2 + dy ^ 2)) -> v' = (vx, vy))
  /\ (0 <= GravityAnomaly.strength a -> 0 <= (fst v' - vx) * dx + (snd v' - vy) * dy)
  /\ (GravityAnomaly.strength a <= 0 -> (fst v' - vx) * dx + (snd v' - vy) * dy <= 0).
Proof.
  intros Hkind Hmass Hdt v' dx dy. subst v'. unfold LevelMap.anomaly_step.
  fold dx dy.
  assert (Hk : anomaly_kind_eqb (GravityAnomaly.kind a) nebula = false)
    by (destruct (GravityAnomaly.kind a); try reflexivity; congruence).
  rewrite Hk.
  set (s := GravityAnomaly.strength a).
  set (dist := Rmax 1 (sqrt (dx ^ 2 + dy ^ 2))).
  assert (Hbound : 0 <= Rabs s * dt / mass).
  { apply Rmult_le_pos; [ apply Rmult_le_pos; [ apply Rabs_pos | lra ] | ].
    left. apply Rinv_0_lt_compat. lra. }
  assert (Hzero : v2_len (vx - vx, vy - vy) = 0).
  { apply v2_len_unique; [ lra | cbn [fst snd]; ring ]. }
  destruct (Rltb dist (GravityAnomaly.radius a * 3)) eqn:Hin; cbn [fst snd].
  - assert (Hd1 : 1 <= dist) by apply Rmax_l.
    assert (Hd2 : sqrt (dx ^ 2 + dy ^ 2) <= dist) by apply Rmax_r.
    pose proof (Rpower_ge_1 dist 1.2 Hd1 ltac:(lra)) as Hp.
    pose proof (v2_len_sqr (dx, dy)) as Hsq. unfold v2_len in Hsq. cbn [fst snd] in Hsq.
    pose proof (sqrt_pos (dx ^ 2 + dy ^ 2)) as Hs0.
    set (force := s / Rpower dist 1.2 * dt / mass).
    assert (Hf : Rabs force <= Rabs s * dt / mass).
    { unfold force, Rdiv. rewrite !Rabs_mult.
      rewrite (Rabs_right dt) by lra.
      rewrite (Rabs_right (/ mass)) by (left; apply Rinv_0_lt_compat; lra).
      rewrite (Rabs_right (/ Rpower dist 1.2)) by (left; apply Rinv_0_lt_compat; lra).
      assert (Hinv : / Rpower dist 1.2 <= 1).
      { rewrite <- Rinv_1. apply Rinv_le_contravar; lra. }
      assert (0 <= Rabs s) by apply Rabs_pos.
      assert (0 < / mass) by (apply Rinv_0_lt_compat; lra).
      assert (0 < / Rpower dist 1.2) by (apply Rinv_0_lt_compat; lra).
      assert (Rabs s * / Rpower dist 1.2 <= Rabs s) by nra.
      assert (0 <= dt * / mass) by nra.
      nra. }
    assert (Hn : (dx / dist) ^ 2 + (dy / dist) ^ 2 <= 1).
    { replace ((dx / dist) ^ 2 + (dy / dist) ^ 2)
        with ((dx ^ 2 + dy ^ 2) / (dist * dist)) by (field; lra).
      apply Rmult_le_reg_r with (dist * dist); [ nra | ].
      unfold Rdiv. rewrite Rmult_assoc, Rinv_l by nra. nra. }
    split; [ | split; [ | split ] ].
    + replace (vx + dx / dist * force - vx, vy + dy / dist * force - vy)
        with (scale force (dx / dist, dy / dist))
        by (unfold scale; cbn [fst snd]; f_equal; ring).
      rewrite v2_len_scaled.
      assert (Hu : v2_len (dx / dist, dy / dist) <= 1).
      { apply v2_len_le; [ lra | ]. cbn [fst snd]. lra. }
      pose proof (v2_len_nonneg (dx / dist, dy / dist)) as Hu0.
      pose proof (Rabs_pos force). nra.
    + intro Hout. apply Rltb_true_iff in Hin. fold dist in Hout. lra.
    + intro Hs.
      replace ((vx + dx / dist * force - vx) * dx + (vy + dy / dist * force - vy) * dy)
        with (force * ((dx ^ 2 + dy ^ 2) / dist)) by (field; lra).
      apply Rmult_le_pos.
      * unfold force. apply Rmult_le_pos; [ apply Rmult_le_pos | ].
        -- apply Rmult_le_pos; [ exact Hs | left; apply Rinv_0_lt_compat; lra ].
        -- exact Hdt.
        -- left. apply Rinv_0_lt_compat. lra.
      * apply Rmult_le_pos; [ nra | left; apply Rinv_0_lt_compat; lra ].
    + intro Hs.
      replace ((vx + dx / dist * force - vx) * dx + (vy + dy / dist * force - vy) * dy)
        with (- ((- force) * ((dx ^ 2 + dy ^ 2) / dist))) by (field; lra).
      assert (0 <= - force * ((dx ^ 2 + dy ^ 2) / dist)); [ | lra ].
      apply Rmult_le_pos.
      * unfold force.
        replace (- (s / Rpower dist 1.2 * dt / mass))
          with ((- s) * / Rpower dist 1.2 * dt * / mass) by (field; lra).
        apply Rmult_le_pos; [ apply Rmult_le_pos | ].
        -- apply Rmult_le_pos; [ lra | left; apply Rinv_0_lt_compat; lra ].
        -- exact Hdt.
        -- left. apply Rinv_0_lt_compat. lra.
      * apply Rmult_le_pos; [ nra | left; apply Rinv_0_lt_compat; lra ].
  - rewrite Hzero. split; [ exact Hbound | ].
    split; [ reflexivity | ]. split; intro; lra.
Qed.



(** The strengths that can add speed: those of the anomalies that are no
    nebula and of the corridors, in absolute value. *)
Definition pull_of (a : GravityAnomaly.t) : R :=
  if anomaly_kind_eqb (GravityAnomaly.kind a) nebula then 0
  else Rabs (GravityAnomaly.strength a).

Definition pull_budget (m : LevelMap.t) : R :=
  fold_right Rplus 0 (map pull_of (LevelMap.anomalies m))
  + fold_right Rplus 0
      (map (fun gc => Rabs (GravityCorridor.strength gc)) (LevelMap.gravity_corridors m)).

Lemma fold_left_speed {A : Type} (f : R * R -> A -> R * R) (w : A -> R) (l : list A) :
  (forall v x, v2_len (f v x) <= v2_len v + w x) ->
  forall v, v2_len (fold_left f l v) <= v2_len v + fold_right Rplus 0 (map w l).
Proof.
  intro Hstep. induction l as [ | x l IH]; intro v; cbn [fold_left map fold_right].
  - lra.
  - specialize (IH (f v x)). specialize (Hstep v x). lra.
Qed.

Lemma anomaly_step_speed (ox oy mass dt : R) (v : R * R) (a : GravityAnomaly.t) :
  0 < mass -> 0 <= dt <= 0.05 ->
  v2_len (LevelMap.anomaly_step ox oy mass dt v a) <= v2_len v + pull_of a * dt / mass.
Proof.
  intros Hmass Hdt. destruct v as [vx vy]. unfold pull_of.
  destruct (anomaly_kind_eqb (GravityAnomaly.kind a) nebula) eqn:Hk.
  - unfold LevelMap.anomaly_step. rewrite Hk.
    replace (0 * dt / mass) with 0 by (field; lra).
    destruct (Rltb _ (GravityAnomaly.radius a)); [ | lra ].
    pose proof (v2_len_scale (1 - 0.35 * dt) (vx, vy) ltac:(lra)) as Hs.
    unfold scale in Hs. cbn [fst snd] in Hs. lra.
  - assert (Hkind : GravityAnomaly.kind a <> nebula)
      by (intro E; rewrite E in Hk; discriminate).
    destruct (anomaly_step_pull ox oy mass dt vx vy a Hkind Hmass ltac:(lra))
      as [Hpull _]. cbv zeta in Hpull.
    set (v' := LevelMap.anomaly_step ox oy mass dt (vx, vy) a) in *.
    pose proof (v2_len_add vx vy (fst v' - vx) (snd v' - vy)) as Htri.
    replace (vx + (fst v' - vx), vy + (snd v' - vy)) with v' in Htri
      by (destruct v'; cbn [fst snd]; f_equal; ring).
    lra.
Qed.

Lemma corridor_step_speed (ox oy mass dt : R) (v : R * R) (gc : GravityCorridor.t) :
  0 < mass -> 0 <= dt ->
  v2_len (LevelMap.corridor_step ox oy mass dt v gc)
  <= v2_len v + Rabs (GravityCorridor.strength gc) * dt / mass.
Proof.
  intros Hmass Hdt. destruct v as [vx vy]. unfold LevelMap.corridor_step.
  assert (Hnn : 0 <= Rabs (GravityCorridor.strength gc) * dt / mass).
  { apply Rmult_le_pos; [ apply Rmult_le_pos; [ apply Rabs_pos | lra ] | ].
    left. apply Rinv_0_lt_compat. lra. }
  destruct (LevelMap.in_corridor ox oy gc); [ | lra ].
  set (th := GravityCorridor.direction gc). set (s := GravityCorridor.strength gc) in *.
  pose proof (v2_len_add vx vy (cos th * s * dt / mass) (sin th * s * dt / mass)) as Htri.
  assert (Hpush : v2_len (cos th * s * dt / mass, sin th * s * dt / mass)
                  = Rabs s * dt / mass).
  { apply v2_len_unique; [ exact Hnn | ]. cbn [fst snd].
    pose proof (sin2_cos2 th) as Hsc. unfold Rsqr in Hsc.
    replace (Rabs s * dt / mass * (Rabs s * dt / mass))
      with ((Rabs s * Rabs s) * (dt / mass) * (dt / mass)) by (field; lra).
    replace (Rabs s * Rabs s) with (s * s)
      by (unfold Rabs; destruct (Rcase_abs s); ring).
    replace ((cos th * s * dt / mass) ^ 2 + (sin th * s * dt / mass) ^ 2)
      with ((sin th * sin th + cos th * cos th) * (s * s) * (dt / mass) * (dt / mass))
      by (field; lra).
    rewrite Hsc. ring. }
  lra.
Qed.

(** X6. One call of [apply_gravity] on a body of mass [mass > 0], with [dt]
    in [[0, 0.05]], adds at most [dt / mass] times the arena's pull budget to
    its speed, wherever the body is: the sum of [|strength|] over the
    anomalies that are no nebula and over the gravity corridors. *)
Theorem apply_gravity_speed_bound (m : LevelMap.t) (ox oy vx vy mass dt : R) :
  0 < mass -> 0 <= dt <= 0.05 ->
  v2_len (LevelMap.apply_gravity m ox oy vx vy mass dt)
  <= v2_len (vx, vy) + pull_budget m * dt / mass.
Proof.
  intros Hmass Hdt. unfold LevelMap.apply_gravity, pull_budget.
  pose proof (fold_left_speed (LevelMap.corridor_step ox oy mass dt)
                (fun gc => Rabs (GravityCorridor.strength gc) * dt / mass)
                (LevelMap.gravity_corridors m)
                (fun v gc => corridor_step_speed ox oy mass dt v gc Hmass
                               ltac:(lra))
                (fold_left (LevelMap.anomaly_step ox oy mass dt)
                           (LevelMap.anomalies m) (vx, vy))) as Hc.
  pose proof (fold_left_speed (LevelMap.anomaly_step ox oy mass dt)
                (fun a => pull_of a * dt / mass) (LevelMap.anomalies m)
                (fun v a => anomaly_step_speed ox oy mass dt v a Hmass Hdt)
                (vx, vy)) as Ha.
  assert (Hlin : forall (A : Type) (w : A -> R) (l : list A),
             fold_right Rplus 0 (map (fun x => w x * dt / mass) l)
             = fold_right Rplus 0 (map w l) * dt / mass).
  { intros A w l. induction l as [ | x l IH]; cbn [map fold_right].
    - field. lra.
    - rewrite IH. field. lra. }
  rewrite (Hlin _ (fun gc => Rabs (GravityCorridor.strength gc))) in Hc.
  rewrite (Hlin _ pull_of) in Ha.
  lra.
Qed.

(** The ball (mass 0.7) in an arena with one black hole of strength 150. *)
Lemma apply_gravity_speed_bound_witness :
  v2_len (LevelMap.apply_gravity hole_map 450 300 30 0 0.7 0.05)
  <= v2_len (30, 0) + pull_budget hole_map * 0.05 / 0.7.
Proof.
  apply (apply_gravity_speed_bound hole_map 450 300 30 0 0.7 0.05); lra.
Defined.

(** ** Speed limits *)

(** [if spd > cap: v *= cap / spd]: the velocity brought back to [cap]. *)
Lemma capped_speed (cap vx vy : R) :
  0 <= cap ->
  v2_len (if Rltb cap (v2_len (vx, vy))
          then (vx * (cap / v2_len (vx, vy)), vy * (cap / v2_len (vx, vy)))
          else (vx, vy)) <= cap.
Proof.
  intro Hcap. destruct (Rltb cap (v2_len (vx, vy))) eqn:Hover.
  - apply Rltb_true_iff in Hover.
    change (vx * (cap / v2_len (vx, vy)), vy * (cap / v2_len (vx, vy)))
      with (scale (cap / v2_len (vx, vy)) (vx, vy)).
    rewrite v2_len_scaled.
    assert (Hpos : 0 < v2_len (vx, vy)) by lra.
    rewrite Rabs_right.
    + right. field. lra.
    + apply Rle_ge. apply Rmult_le_pos; [ exact Hcap | ].
      left. apply Rinv_0_lt_compat. exact Hpos.
  - apply Rltb_false_iff in Hover. exact Hover.
Qed.

Lemma apply_input_velocity (c : Car.t) (l r f b k : bool) (dt : R) :
  exists vx3 vy3,
    let cap := if k && Rltb 5 (Car.boost c) && f then BOOST_SPEED else MAX_SPEED in
    let drag := if negb f && negb b then 0.992 else 0.999 in
    (Car.vx (Car.apply_input c l r f b k dt), Car.vy (Car.apply_input c l r f b k dt))
    = scale drag (if Rltb cap (v2_len (vx3, vy3))
                  then (vx3 * (cap / v2_len (vx3, vy3)), vy3 * (cap / v2_len (vx3, vy3)))
                  else (vx3, vy3)).
Proof.
  unfold Car.apply_input.
  destruct f, b, (k && Rltb 5 (Car.boost c) && _);
    cbv zeta; cbn [fst snd negb andb];
    match goal with
    | |- context [Rltb ?cap (v2_len (?x, ?y))] =>
        exists x, y; destruct (Rltb cap (v2_len (x, y)))
    end; reflexivity.
Qed.

(** X7. After [apply_input], whatever the keys and [dt], the car is no
    faster than [BOOST_SPEED] (520) when it is boosting and [MAX_SPEED]
    (380) when it is not. *)
Theorem apply_input_speed_cap (c : Car.t) (l r f b k : bool) (dt : R) :
  let c' := Car.apply_input c l r f b k dt in
  v2_len (Car.vx c', Car.vy c') <= (if Car.boosting c' then BOOST_SPEED else MAX_SPEED)
  /\ v2_len (Car.vx c', Car.vy c') <= BOOST_SPEED.
Proof.
  intro c'. subst c'.
  destruct (apply_input_velocity c l r f b k dt) as [vx3 [vy3 E]]. cbv zeta in E.
  destruct (apply_input_meter c l r f b k dt) as [Hflag _].
  rewrite E, Hflag. rewrite v2_len_scaled.
  set (cap := if k && Rltb 5 (Car.boost c) && f then BOOST_SPEED else MAX_SPEED) in *.
  assert (Hcap : 0 <= cap <= BOOST_SPEED)
    by (unfold cap, BOOST_SPEED, MAX_SPEED; destruct (k && _ && f); lra).
  pose proof (capped_speed cap vx3 vy3 ltac:(lra)) as Hc.
  match type of Hc with v2_len ?w <= _ => pose proof (v2_len_nonneg w) as Hw;
    set (s := v2_len w) in * end.
  assert (Hdrag : 0 <= Rabs (if negb f && negb b then 0.992 else 0.999) <= 1).
  { destruct (negb f && negb b); rewrite Rabs_right; lra. }
  split; nra.
Qed.

(** X8. After [Ball.update], whatever the arena did to the ball, its speed
    is at most 750. *)
Theorem ball_speed_cap (ball : Ball.t) (dt : R) (lm : LevelMap.t) :
  v2_len (Ball.vx (Ball.update ball dt lm), Ball.vy (Ball.update ball dt lm)) <= 750.
Proof.
  unfold Ball.update.
  destruct (LevelMap.apply_gravity lm (Ball.x ball) (Ball.y ball) (Ball.vx ball)
              (Ball.vy ball) 0.7 dt) as [vx1 vy1].
  destruct (fold_left Ball.asteroid_bounce (LevelMap.asteroids lm) _)
    as [[x3 y3] [vx3 vy3]].
  pose proof (capped_speed 750 vx3 vy3 ltac:(lra)) as Hc.
  destruct (Rltb 750 (v2_len (vx3, vy3))) eqn:Hover; cbn [Ball.vx Ball.vy].
  - apply Rltb_true_iff in Hover.
    replace (vx3 / v2_len (vx3, vy3) * 750) with (vx3 * (750 / v2_len (vx3, vy3)))
      by (field; lra).
    replace (vy3 / v2_len (vx3, vy3) * 750) with (vy3 * (750 / v2_len (vx3, vy3)))
      by (field; lra).
    exact Hc.
  - exact Hc.
Qed.

(** ** Trails *)

Lemma push_trail_length (n : nat) (trail : list (R * R)) (p : R * R) :
  (List.length trail <= n)%nat -> (List.length (push_trail n trail p) <= n)%nat.
Proof.
  intro Hn. unfold push_trail.
  assert (Hl : List.length (trail ++ [p]) = S (List.length trail))
    by (rewrite length_app; simpl; lia).
  destruct (Nat.ltb_spec n (List.length (trail ++ [p]))) as [Hlt | Hge].
  - destruct (trail ++ [p]) as [ | q tr]; simpl in *; lia.
  - lia.
Qed.

(** What [push_trail] keeps: everything below the bound, everything but the
    oldest position at the bound. *)
Lemma push_trail_below (n : nat) (trail : list (R * R)) (p : R * R) :
  (List.length trail < n)%nat -> push_trail n trail p = trail ++ [p].
Proof.
  intro Hn. unfold push_trail.
  assert (Hl : List.length (trail ++ [p]) = S (List.length trail))
    by (rewrite length_app; simpl; lia).
  destruct (Nat.ltb_spec n (List.length (trail ++ [p]))) as [Hlt | Hge];
    [ lia | reflexivity ].
Qed.

Lemma push_trail_full (n : nat) (trail : list (R * R)) (p : R * R) :
  (1 <= n)%nat -> List.length trail = n -> push_trail n trail p = tl trail ++ [p].
Proof.
  intros Hn1 Hn. unfold push_trail.
  assert (Hl : List.length (trail ++ [p]) = S (List.length trail))
    by (rewrite length_app; simpl; lia).
  destruct (Nat.ltb_spec n (List.length (trail ++ [p]))) as [Hlt | Hge]; [ | lia ].
  destruct trail as [ | q tr]; [ simpl in Hn; lia | reflexivity ].
Qed.

Lemma car_update_trail (c : Car.t) (dt : R) (lm : LevelMap.t) :
  let v1 := LevelMap.apply_gravity lm (Car.x c) (Car.y c) (Car.vx c) (Car.vy c) 1.0 dt in
  Car.trail (fst (Car.update c dt lm))
  = push_trail 22 (Car.trail c) (Car.x c + fst v1 * dt, Car.y c + snd v1 * dt).
Proof.
  cbv zeta. unfold Car.update.
  destruct (LevelMap.apply_gravity lm (Car.x c) (Car.y c) (Car.vx c) (Car.vy c) 1.0 dt)
    as [vx1 vy1].
  destruct (Car.clamp_bounds _ _) as [[x2 y2] v2].
  destruct (fold_left (Car.asteroid_push x2 y2) (LevelMap.asteroids lm) v2) as [vx3 vy3].
  destruct (Car.pickup x2 y2 (Car.boost c) (LevelMap.boost_pads lm)) as [b' pads'].
  reflexivity.
Qed.

Lemma ball_update_trail (ball : Ball.t) (dt : R) (lm : LevelMap.t) :
  let v1 := LevelMap.apply_gravity lm (Ball.x ball) (Ball.y ball) (Ball.vx ball)
              (Ball.vy ball) 0.7 dt in
  Ball.trail (Ball.update ball dt lm)
  = push_trail 16 (Ball.trail ball)
               (Ball.x ball + fst v1 * dt, Ball.y ball + snd v1 * dt).
Proof.
  cbv zeta. unfold Ball.update.
  destruct (LevelMap.apply_gravity lm (Ball.x ball) (Ball.y ball) (Ball.vx ball)
              (Ball.vy ball) 0.7 dt) as [vx1 vy1].
  destruct (fold_left Ball.asteroid_bounce (LevelMap.asteroids lm) _)
    as [[x3 y3] [vx3 vy3]].
  destruct (Rltb 750 (v2_len (vx3, vy3))); reflexivity.
Qed.

(** X9. The trail of a car never holds more than 22 positions in any state
    of a match, and one [Ball.update] keeps a ball's trail within 16.  Each
    [update] appends one position to the trail, the one the body is moved
    to by its velocity after gravity and before the walls are applied, and
    at the bound (22 for a car, 16 for the ball) drops the oldest one. *)
Theorem trails_bounded :
  (forall c, car_reachable c -> (List.length (Car.trail c) <= 22)%nat)
  /\ (forall c dt lm,
         let v1 := LevelMap.apply_gravity lm (Car.x c) (Car.y c) (Car.vx c) (Car.vy c)
                                          1.0 dt in
         let p := (Car.x c + fst v1 * dt, Car.y c + snd v1 * dt) in
         ((List.length (Car.trail c) < 22)%nat ->
          Car.trail (fst (Car.update c dt lm)) = Car.trail c ++ [p])
         /\ (List.length (Car.trail c) = 22%nat ->
             Car.trail (fst (Car.update c dt lm)) = tl (Car.trail c) ++ [p]))
  /\ (forall ball dt lm,
         let v1 := LevelMap.apply_gravity lm (Ball.x ball) (Ball.y ball) (Ball.vx ball)
                                          (Ball.vy ball) 0.7 dt in
         let p := (Ball.x ball + fst v1 * dt, Ball.y ball + snd v1 * dt) in
         ((List.length (Ball.trail ball) <= 16)%nat ->
          (List.length (Ball.trail (Ball.update ball dt lm)) <= 16)%nat)
         /\ ((List.length (Ball.trail ball) < 16)%nat ->
             Ball.trail (Ball.update ball dt lm) = Ball.trail ball ++ [p])
         /\ (List.length (Ball.trail ball) = 16%nat ->
             Ball.trail (Ball.update ball dt lm) = tl (Ball.trail ball) ++ [p])).
Proof.
  split; [ | split ].
  - intros c Hc.
    induction Hc as [ x0 y0 p cfg | c l r f b k dt Hc IH Hdt | c dt lm Hc IH Hdt
                    | c ball Hc IH | c kx ky Hc IH | c Hc IH | c x0 Hc IH ].
    + simpl. lia.
    + unfold Car.apply_input.
      destruct f, b, (k && Rltb 5 (Car.boost c) && _);
        cbv zeta; cbn [fst snd];
        match goal with |- context [Rltb ?a ?b] => destruct (Rltb a b) end;
        exact IH.
    + rewrite (car_update_trail c dt lm).
      apply push_trail_length. exact IH.
    + unfold Ball.car_hit.
      destruct (Rltb _ _ && Rltb _ _); cbn [snd Car.trail]; exact IH.
    + exact IH.
    + exact IH.
    + simpl. lia.
  - intros c dt lm. cbv zeta. rewrite (car_update_trail c dt lm). cbv zeta.
    split; intro Hlen.
    + apply push_trail_below. exact Hlen.
    + apply push_trail_full; [ lia | exact Hlen ].
  - intros ball dt lm. cbv zeta. rewrite (ball_update_trail ball dt lm). cbv zeta.
    split; [ | split ]; intro Hlen.
    + apply push_trail_length. exact Hlen.
    + apply push_trail_below. exact Hlen.
    + apply push_trail_full; [ lia | exact Hlen ].
Qed.

(** A new car after one [update] on [one_pad_map]: one position in the
    trail. *)
Lemma trails_bounded_witness :
  (List.length (Car.trail (fst (Car.update (Car.__init__ 180 360 true None)
                                           0.05 one_pad_map))) <= 22)%nat
  /\ Car.trail (fst (Car.update (Car.__init__ 180 360 true None) 0.05 one_pad_map))
     = [(180 + fst (LevelMap.apply_gravity one_pad_map 180 360 0 0 1.0 0.05) * 0.05,
         360 + snd (LevelMap.apply_gravity one_pad_map 180 360 0 0 1.0 0.05) * 0.05)].
Proof.
  split.
  - apply (proj1 trails_bounded).
    apply car_update; [ apply car_new | lra ].
  - apply (proj1 (proj1 (proj2 trails_bounded)
                    (Car.__init__ 180 360 true None) 0.05 one_pad_map)).
    simpl. lia.
Defined.

(** ** Contacts *)

(** A point put at [k] along the unit vector of [(dx, dy)] from a centre is
    at distance [k] from it. *)
Lemma placed_at_distance (cx cy dx dy k : R) :
  0 < sqrt (dx ^ 2 + dy ^ 2) -> 0 <= k ->
  sqrt ((cx + dx / sqrt (dx ^ 2 + dy ^ 2) * k - cx) ^ 2
        + (cy + dy / sqrt (dx ^ 2 + dy ^ 2) * k - cy) ^ 2) = k.
Proof.
  intros Hd Hk. pose proof (unit_normal dx dy Hd) as Hn.
  set (d := sqrt (dx ^ 2 + dy ^ 2)) in *.
  replace ((cx + dx / d * k - cx) ^ 2 + (cy + dy / d * k - cy) ^ 2)
    with (((dx / d) ^ 2 + (dy / d) ^ 2) * (k * k)) by ring.
  rewrite Hn, Rmult_1_l. replace (k * k) with (Rsqr k) by reflexivity.
  apply sqrt_Rsqr. exact Hk.
Qed.

(** A push of size [k] along the unit vector of [(dx, dy)]. *)
Lemma push_of_size (dx dy k : R) :
  0 < sqrt (dx ^ 2 + dy ^ 2) -> 0 <= k ->
  v2_len (dx / sqrt (dx ^ 2 + dy ^ 2) * k, dy / sqrt (dx ^ 2 + dy ^ 2) * k) = k.
Proof.
  intros Hd Hk. pose proof (placed_at_distance 0 0 dx dy k Hd Hk) as Hp.
  unfold v2_len. cbn [fst snd]. rewrite <- Hp at 3. f_equal. ring.
Qed.

(** X10. When [car_hit] answers true, the car stays where it is and recoils
    by exactly 80 straight away from the ball (its velocity loses 80 times
    the unit vector from the car to the ball); the ball is put on its own
    side of the car, 36 from it along the line of centres (two beyond the
    contact distance of 34), and leaves along that line with the impact,
    at least 260, on top of 0.3 of the car's velocity.  Asked again at once,
    [car_hit] answers false and changes nothing, so one contact gives one
    hit. *)
Theorem car_hit_separates (ball : Ball.t) (car : Car.t) :
  fst (fst (Ball.car_hit ball car)) = true ->
  let ball' := snd (fst (Ball.car_hit ball car)) in
  let car' := snd (Ball.car_hit ball car) in
  let dx := Ball.x ball - Car.x car in
  let dy := Ball.y ball - Car.y car in
  let d := sqrt (dx ^ 2 + dy ^ 2) in
  let impact := Rmax (v2_len (Car.vx car, Car.vy car) * 0.8) 260
                + (if Car.boosting car then 200 else 0) in
  Car.x car' = Car.x car /\ Car.y car' = Car.y car
  /\ Car.boost car' = Car.boost car /\ Car.score car' = Car.score car
  /\ (Car.vx car' = Car.vx car - dx / d * 80 /\ Car.vy car' = Car.vy car - dy / d * 80)
  /\ v2_len (Car.vx car' - Car.vx car, Car.vy car' - Car.vy car) = 80
  /\ (Ball.x ball' = Car.x car + dx / d * 36 /\ Ball.y ball' = Car.y car + dy / d * 36)
  /\ (Ball.vx ball' = dx / d * impact + Car.vx car * 0.3
      /\ Ball.vy ball' = dy / d * impact + Car.vy car * 0.3 /\ 260 <= impact)
  /\ sqrt ((Ball.x ball' - Car.x car') ^ 2 + (Ball.y ball' - Car.y car') ^ 2) = 36
  /\ Ball.car_hit ball' car' = (false, ball', car').
Proof.
  unfold Ball.car_hit.
  set (dx := Ball.x ball - Car.x car). set (dy := Ball.y ball - Car.y car).
  change (IZR (BALL_RADIUS + Z.max CAR_W CAR_H / 2)) with 34.
  destruct (Rltb (sqrt (dx ^ 2 + dy ^ 2)) 34 && Rltb 0.1 (sqrt (dx ^ 2 + dy ^ 2))) eqn:Hc;
    cbn [fst snd]; [ intros _ | discriminate ].
  apply andb_true_iff in Hc. destruct Hc as [_ Hfar]. apply Rltb_true_iff in Hfar.
  assert (Hd : 0 < sqrt (dx ^ 2 + dy ^ 2)) by lra.
  cbv zeta.
  cbn [Car.x Car.y Car.boost Car.score Car.vx Car.vy Ball.x Ball.y Ball.vx Ball.vy].
  pose proof (placed_at_distance (Car.x car) (Car.y car) dx dy (34 + 2) Hd ltac:(lra))
    as Hsep.
  split; [ reflexivity | ]. split; [ reflexivity | ].
  split; [ reflexivity | ]. split; [ reflexivity | ].
  split; [ split; reflexivity | ].
  split; [ | split; [ | split; [ | split ] ] ].
  - pose proof (push_of_size dx dy 80 Hd ltac:(lra)) as Hp.
    rewrite <- Hp at 3. unfold v2_len. cbn [fst snd]. f_equal. ring.
  - split; f_equal; f_equal; lra.
  - split; [ reflexivity | ]. split; [ reflexivity | ].
    pose proof (Rmax_r (v2_len (Car.vx car, Car.vy car) * 0.8) 260).
    destruct (Car.boosting car); lra.
  - rewrite Hsep. lra.
  - rewrite Hsep. rewrite (proj2 (Rltb_false_iff _ _)) by lra. reflexivity.
Qed.

(** A ball 10 to the right of [car_on_pad]: the ball is put 36 to the right
    of the car, and the car recoils to the left. *)
Lemma car_hit_separates_witness :
  Ball.x (snd (fst (Ball.car_hit (Ball.mk 650 360 0 0 [] 0) car_on_pad))) = 640 + 36
  /\ Car.vx (snd (Ball.car_hit (Ball.mk 650 360 0 0 [] 0) car_on_pad)) = 0 - 80.
Proof.
  assert (Hd : sqrt ((650 - 640) ^ 2 + (360 - 360) ^ 2) = 10).
  { replace ((650 - 640) ^ 2 + (360 - 360) ^ 2) with (Rsqr 10) by (unfold Rsqr; lra).
    apply sqrt_Rsqr. lra. }
  destruct (car_hit_separates (Ball.mk 650 360 0 0 [] 0) car_on_pad)
    as (_ & _ & _ & _ & (Hvx & _) & _ & (Hbx & _) & _).
  - unfold Ball.car_hit. cbn [Ball.x Ball.y Car.x Car.y car_on_pad].
    rewrite Hd. change (IZR (BALL_RADIUS + Z.max CAR_W CAR_H / 2)) with 34.
    rcompare. reflexivity.
  - cbn [Ball.x Ball.y Car.x Car.y Car.vx car_on_pad] in Hvx, Hbx.
    rewrite Hd in Hvx, Hbx. split; [ rewrite Hbx | rewrite Hvx ]; lra.
Defined.

(** X11. A ball within reach of an asteroid (closer than [BALL_RADIUS] plus
    its radius, and not at its very centre) is thrown straight away from
    it: it is put on its own side of the asteroid, two beyond the contact
    distance along the line from the asteroid's centre, and leaves along
    that line at the greater of its speed and 160, so the same asteroid
    does not catch it twice; out of reach, nothing changes. *)
Theorem ball_asteroid_bounce (p v : R * R) (ast : MovingAsteroid.t) :
  0 <= MovingAsteroid.radius ast ->
  let dx := fst p - MovingAsteroid.x ast in
  let dy := snd p - MovingAsteroid.y ast in
  let d := sqrt (dx ^ 2 + dy ^ 2) in
  let reach := IZR BALL_RADIUS + MovingAsteroid.radius ast in
  let p' := fst (Ball.asteroid_bounce (p, v) ast) in
  let v' := snd (Ball.asteroid_bounce (p, v) ast) in
  (0.1 < d < reach ->
   p' = (MovingAsteroid.x ast + dx / d * (reach + 2),
         MovingAsteroid.y ast + dy / d * (reach + 2))
   /\ v' = (dx / d * Rmax (v2_len v) 160, dy / d * Rmax (v2_len v) 160)
   /\ v2_len v' = Rmax (v2_len v) 160
   /\ 160 <= v2_len v'
   /\ sqrt ((fst p' - MovingAsteroid.x ast) ^ 2 + (snd p' - MovingAsteroid.y ast) ^ 2)
      = reach + 2
   /\ Ball.asteroid_bounce (p', v') ast = (p', v'))
  /\ (d <= 0.1 \/ reach <= d -> Ball.asteroid_bounce (p, v) ast = (p, v)).
Proof.
  intros Hr dx dy d reach p' v'. subst p' v'. destruct p as [px py], v as [vx vy].
  cbn [fst snd] in dx, dy. unfold Ball.asteroid_bounce.
  fold dx. fold dy. fold d. fold reach.
  assert (Hreach : 0 <= reach + 2) by (unfold reach, BALL_RADIUS; lra).
  split.
  - intros [Hfar Hnear].
    rewrite (proj2 (Rltb_true_iff _ _) Hnear), (proj2 (Rltb_true_iff _ _) Hfar).
    cbn [andb fst snd].
    assert (Hd : 0 < sqrt (dx ^ 2 + dy ^ 2)) by (fold d; lra).
    pose proof (placed_at_distance (MovingAsteroid.x ast) (MovingAsteroid.y ast)
                  dx dy (reach + 2) Hd Hreach) as Hsep.
    fold d in Hsep.
    assert (Hm : 160 <= Rmax (v2_len (vx, vy)) 160) by apply Rmax_r.
    pose proof (push_of_size dx dy (Rmax (v2_len (vx, vy)) 160) Hd ltac:(lra)) as Hp.
    fold d in Hp.
    split; [ reflexivity | ]. split; [ reflexivity | ].
    split; [ exact Hp | ]. split; [ rewrite Hp; exact Hm | ].
    split; [ exact Hsep | ].
    rewrite Hsep. rewrite (proj2 (Rltb_false_iff _ _)) by lra. reflexivity.
  - intros [Hclose | Hout].
    + rewrite (proj2 (Rltb_false_iff 0.1 d) Hclose), andb_false_r. reflexivity.
    + rewrite (proj2 (Rltb_false_iff d reach) Hout). reflexivity.
Qed.

(** A slow ball 20 to the right of [rock], which has radius 14: thrown to
    the right at 160, to 32 from the rock's centre. *)
Lemma ball_asteroid_bounce_witness :
  fst (Ball.asteroid_bounce ((35, 100), (-5, 0)) rock)
  = (15 + (35 - 15) / 20 * (16 + 14 + 2), 100 + (100 - 100) / 20 * (16 + 14 + 2))
  /\ 160 <= v2_len (snd (Ball.asteroid_bounce ((35, 100), (-5, 0)) rock)).
Proof.
  assert (Hd : sqrt ((35 - 15) ^ 2 + (100 - 100) ^ 2) = 20).
  { replace ((35 - 15) ^ 2 + (100 - 100) ^ 2) with (Rsqr 20) by (unfold Rsqr; lra).
    apply sqrt_Rsqr. lra. }
  destruct (proj1 (ball_asteroid_bounce (35, 100) (-5, 0) rock ltac:(simpl; lra)))
    as (Hp & _ & _ & Hv & _).
  - cbn [fst snd rock MovingAsteroid.x MovingAsteroid.y MovingAsteroid.radius].
    rewrite Hd. unfold BALL_RADIUS. lra.
  - cbn [fst snd rock MovingAsteroid.x MovingAsteroid.y MovingAsteroid.radius] in Hp.
    rewrite Hd in Hp. split; [ exact Hp | exact Hv ].
Defined.

(** The velocity an asteroid adds to a car at [(px, py)]: 220 along the unit
    vector from the asteroid's centre to the car when they are in contact
    (closer than the radius plus 18, and more than 0.1 apart), none
    otherwise. *)
Definition asteroid_kick (px py : R) (ast : MovingAsteroid.t) : R * R :=
  let dx := px - MovingAsteroid.x ast in
  let dy := py - MovingAsteroid.y ast in
  let d := sqrt (dx ^ 2 + dy ^ 2) in
  if Rltb d (MovingAsteroid.radius ast + 18) && Rltb 0.1 d
  then (dx / d * 220, dy / d * 220) else (0, 0).

Lemma asteroid_push_kick (px py : R) (v : R * R) (ast : MovingAsteroid.t) :
  Car.asteroid_push px py v ast
  = (fst v + fst (asteroid_kick px py ast), snd v + snd (asteroid_kick px py ast)).
Proof.
  destruct v as [vx vy]. unfold Car.asteroid_push, asteroid_kick.
  change (IZR (Z.max CAR_W CAR_H / 2)) with 18.
  destruct (_ && _); cbn [fst snd]; f_equal; lra.
Qed.

Lemma asteroid_pushes (px py : R) (asts : list MovingAsteroid.t) :
  forall v,
    fold_left (Car.asteroid_push px py) asts v
    = (fold_left Rplus (map (fun a => fst (asteroid_kick px py a)) asts) (fst v),
       fold_left Rplus (map (fun a => snd (asteroid_kick px py a)) asts) (snd v)).
Proof.
  induction asts as [ | a asts IH]; intro v; cbn [fold_left map].
  - destruct v. reflexivity.
  - rewrite IH, asteroid_push_kick. reflexivity.
Qed.

(** X12. An asteroid in contact with a car (closer than its radius plus 18,
    and more than 0.1 from it) adds to the car's velocity exactly 220 times
    the unit vector from the asteroid's centre to the car, so it pushes the
    car straight away from itself; out of contact it adds none.  In
    [Car.update] the asteroids never move the car: it ends at the position
    the walls left it at, and its velocity is the one the walls left plus
    the push of every asteroid in contact with that position, added in the
    order of the asteroids. *)
Theorem car_asteroid_push :
  (forall px py vx vy ast,
      let dx := px - MovingAsteroid.x ast in
      let dy := py - MovingAsteroid.y ast in
      let d := sqrt (dx ^ 2 + dy ^ 2) in
      let v' := Car.asteroid_push px py (vx, vy) ast in
      (0.1 < d < MovingAsteroid.radius ast + 18 ->
       v' = (vx + dx / d * 220, vy + dy / d * 220)
       /\ v2_len (fst v' - vx, snd v' - vy) = 220
       /\ 0 < (fst v' - vx) * dx + (snd v' - vy) * dy)
      /\ (d <= 0.1 \/ MovingAsteroid.radius ast + 18 <= d -> v' = (vx, vy)))
  /\ (forall c dt lm,
         let v1 := LevelMap.apply_gravity lm (Car.x c) (Car.y c) (Car.vx c) (Car.vy c)
                                          1.0 dt in
         let s2 := Car.clamp_bounds (Car.x c + fst v1 * dt, Car.y c + snd v1 * dt) v1 in
         let px := fst (fst s2) in
         let py := snd (fst s2) in
         let c' := fst (Car.update c dt lm) in
         Car.x c' = px /\ Car.y c' = py
         /\ Car.vx c'
            = fold_left Rplus
                (map (fun a => fst (asteroid_kick px py a)) (LevelMap.asteroids lm))
                (fst (snd s2))
         /\ Car.vy c'
            = fold_left Rplus
                (map (fun a => snd (asteroid_kick px py a)) (LevelMap.asteroids lm))
                (snd (snd s2))).
Proof.
  split.
  - intros px py vx vy ast dx dy d v'. subst v'. unfold Car.asteroid_push.
    fold dx. fold dy. fold d. change (IZR (Z.max CAR_W CAR_H / 2)) with 18.
    split.
    + intros [Hfar Hnear].
      rewrite (proj2 (Rltb_true_iff _ _) Hnear), (proj2 (Rltb_true_iff _ _) Hfar).
      cbn [andb fst snd].
      assert (Hd : 0 < sqrt (dx ^ 2 + dy ^ 2)) by (fold d; lra).
      pose proof (push_of_size dx dy 220 Hd ltac:(lra)) as Hp. fold d in Hp.
      split; [ reflexivity | ]. split.
      * rewrite <- Hp at 3. unfold v2_len. cbn [fst snd]. f_equal. ring.
      * pose proof (v2_len_sqr (dx, dy)) as Hsq. unfold v2_len in Hsq.
        cbn [fst snd] in Hsq. fold d in Hsq.
        replace ((vx + dx / d * 220 - vx) * dx + (vy + dy / d * 220 - vy) * dy)
          with (220 * ((dx ^ 2 + dy ^ 2) / d)) by (field; lra).
        rewrite <- Hsq. replace (d * d / d) with d by (field; lra). lra.
    + intros [Hclose | Hout].
      * rewrite (proj2 (Rltb_false_iff 0.1 d) Hclose), andb_false_r. reflexivity.
      * rewrite (proj2 (Rltb_false_iff d _) Hout). reflexivity.
  - intros c dt lm. cbv zeta. unfold Car.update.
    destruct (LevelMap.apply_gravity lm (Car.x c) (Car.y c) (Car.vx c) (Car.vy c) 1.0 dt)
      as [vx1 vy1].
    cbn [fst snd].
    destruct (Car.clamp_bounds (Car.x c + vx1 * dt, Car.y c + vy1 * dt) (vx1, vy1))
      as [[x2 y2] v2].
    rewrite asteroid_pushes.
    destruct (Car.pickup x2 y2 (Car.boost c) (LevelMap.boost_pads lm)) as [b' pads'].
    cbn [fst snd Car.x Car.y Car.vx Car.vy]. repeat split; reflexivity.
Qed.

(** A car at rest 20 to the right of [rock]: pushed to the right at 220. *)
Lemma car_asteroid_push_witness :
  Car.asteroid_push 35 100 (0, 0) rock
  = (0 + (35 - 15) / 20 * 220, 0 + (100 - 100) / 20 * 220).
Proof.
  assert (Hd : sqrt ((35 - 15) ^ 2 + (100 - 100) ^ 2) = 20).
  { replace ((35 - 15) ^ 2 + (100 - 100) ^ 2) with (Rsqr 20) by (unfold Rsqr; lra).
    apply sqrt_Rsqr. lra. }
  destruct (proj1 (proj1 car_asteroid_push 35 100 0 0 rock)) as (Hv & _).
  - cbn [rock MovingAsteroid.x MovingAsteroid.y MovingAsteroid.radius].
    rewrite Hd. lra.
  - cbn [rock MovingAsteroid.x MovingAsteroid.y MovingAsteroid.radius] in Hv.
    rewrite Hd in Hv. exact Hv.
Defined.

(** ** Goals and kick-off *)

(** X13. The two goal mouths never both hold the ball.  For a ball on the
    screen ([x, y >= 0]) the left goal registers exactly when [x < 22] and
    [285 <= y < 435], and the right goal exactly when [1258 <= x < 1280] and
    [285 <= y < 435]. *)
Theorem goals_are_exclusive (cfg : Level.t) (ball : Ball.t) :
  let gl := GoalZone.__init__ "left" cfg in
  let gr := GoalZone.__init__ "right" cfg in
  GoalZone.check_goal gl ball && GoalZone.check_goal gr ball = false
  /\ (0 <= Ball.x ball -> 0 <= Ball.y ball ->
      (GoalZone.check_goal gl ball = true <->
       Ball.x ball < 22 /\ 285 <= Ball.y ball < 435)
      /\ (GoalZone.check_goal gr ball = true <->
          1258 <= Ball.x ball < 1280 /\ 285 <= Ball.y ball < 435)).
Proof.
  intros gl gr.
  pose proof (check_goal_iff gl ball) as Hl. pose proof (check_goal_iff gr ball) as Hr.
  change (Rect.left (GoalZone.rect gl)) with 0%Z in Hl.
  change (Rect.left (GoalZone.rect gr)) with 1258%Z in Hr.
  change (Rect.top (GoalZone.rect gl)) with 285%Z in Hl.
  change (Rect.top (GoalZone.rect gr)) with 285%Z in Hr.
  change (Rect.width (GoalZone.rect gl)) with 22%Z in Hl.
  change (Rect.width (GoalZone.rect gr)) with 22%Z in Hr.
  change (Rect.height (GoalZone.rect gl)) with 150%Z in Hl.
  change (Rect.height (GoalZone.rect gr)) with 150%Z in Hr.
  split.
  - destruct (GoalZone.check_goal gl ball) eqn:El; [ | reflexivity ].
    destruct (GoalZone.check_goal gr ball) eqn:Er; [ exfalso | reflexivity ].
    destruct (proj1 Hl eq_refl) as [Hx _]. destruct (proj1 Hr eq_refl) as [Hx' _]. lia.
  - intros Px Py. rewrite Hl, Hr. clear Hl Hr.
    pose proof (py_int_ge (Ball.x ball) 0 Px) as X0.
    pose proof (py_int_lt (Ball.x ball) (0 + 22) Px) as X22.
    pose proof (py_int_ge (Ball.x ball) 1258 Px) as X1258.
    pose proof (py_int_lt (Ball.x ball) (1258 + 22) Px) as X1280.
    pose proof (py_int_ge (Ball.y ball) 285 Py) as Y285.
    pose proof (py_int_lt (Ball.y ball) (285 + 150) Py) as Y435.
    change (IZR (0 + 22)) with 22 in X22. change (IZR (1258 + 22)) with 1280 in X1280.
    change (IZR (285 + 150)) with 435 in Y435.
    rewrite X22, X1280, Y285, Y435, X0, X1258. split; split; intros; lra.
Qed.

(** A ball in the mouth of the left goal. *)
Lemma goals_are_exclusive_witness :
  GoalZone.check_goal (GoalZone.__init__ "left" level0) (Ball.mk 18 300 0 0 [] 0) = true.
Proof.
  apply (proj1 (proj2 (goals_are_exclusive level0 (Ball.mk 18 300 0 0 [] 0))
                 ltac:(simpl; lra) ltac:(simpl; lra))).
  simpl. lra.
Defined.

Section KickOff.
Context `{PyRandom}.

Lemma ball_reset_spec (g : gen) :
  Ball.x (fst (Ball.reset g)) = 640 /\ Ball.y (fst (Ball.reset g)) = 360
  /\ -120 <= Ball.vx (fst (Ball.reset g)) < 120
  /\ -90 <= Ball.vy (fst (Ball.reset g)) < 90
  /\ Ball.trail (fst (Ball.reset g)) = [].
Proof.
  unfold Ball.reset.
  pose proof (random_uniform_range (-120) 120 g ltac:(lra)) as Hx.
  destruct (random_uniform (-120) 120 g) as [vx0 g1].
  pose proof (random_uniform_range (-90) 90 g1 ltac:(lra)) as Hy.
  destruct (random_uniform (-90) 90 g1) as [vy0 g2].
  cbn [fst Ball.x Ball.y Ball.vx Ball.vy Ball.trail] in *.
  repeat split; try reflexivity; lra.
Qed.

(** X14. A match that [_init_game] starts has the ball at the centre of the
    screen with a velocity inside 120 by 90, both cars on their kick-off
    spots with a full meter and no goal, the clock at 120 s, and no goal to
    register: the goal check leaves it as it is. *)
Theorem kickoff_state (st : phase) (lid : Z) (g g' : gen) (game : Game.t) :
  Game._init_game st lid g = Some (game, g') ->
  (Ball.x (Game.ball game) = 640 /\ Ball.y (Game.ball game) = 360
   /\ -120 <= Ball.vx (Game.ball game) < 120 /\ -90 <= Ball.vy (Game.ball game) < 90)
  /\ (Car.x (Game.player game) = 180 /\ Car.y (Game.player game) = 360
      /\ Car.x (Game.ai_car game) = 1100 /\ Car.y (Game.ai_car game) = 360)
  /\ (Car.boost (Game.player game) = BOOST_MAX /\ Car.boost (Game.ai_car game) = BOOST_MAX
      /\ Car.score (Game.player game) = 0%Z /\ Car.score (Game.ai_car game) = 0%Z)
  /\ Game.time_left game = 120
  /\ Game.state game = st
  /\ Game.goals game = game.
Proof.
  unfold Game._init_game. intro Hinit.
  destruct (LevelMap.__init__ lid) as [lm | ]; [ | discriminate ].
  pose proof (ball_reset_spec g) as (Bx & By & Bvx & Bvy & _).
  destruct (Ball.reset g) as [b g1]. cbn [fst] in *.
  injection Hinit as <- _.
  cbn [Game.ball Game.player Game.ai_car Game.time_left Game.state].
  split; [ auto | ]. split; [ repeat split; reflexivity | ].
  split; [ repeat split; reflexivity | ].
  split; [ unfold Game.MATCH_TIME; lra | ]. split; [ reflexivity | ].
  unfold Game.goals. cbn [Game.goal_l Game.goal_r Game.ball].
  assert (Px : 0 <= Ball.x b) by lra. assert (Py : 0 <= Ball.y b) by lra.
  destruct (GoalZone.check_goal (GoalZone.__init__ "left" (LevelMap.cfg lm)) b) eqn:El.
  - exfalso. apply check_goal_iff in El. destruct El as [[_ Hx] _].
    change (Rect.left _ + Rect.width _)%Z with (0 + 22)%Z in Hx.
    apply (py_int_lt _ _ Px) in Hx. change (IZR (0 + 22)) with 22 in Hx. lra.
  - destruct (GoalZone.check_goal (GoalZone.__init__ "right" (LevelMap.cfg lm)) b) eqn:Er.
    + exfalso. apply check_goal_iff in Er. destruct Er as [[Hx _] _].
      change (Rect.left _) with 1258%Z in Hx.
      apply (py_int_ge _ _ Px) in Hx. lra.
    + reflexivity.
Qed.
End KickOff.

(** A match on the lunar level, with the counting generator. *)
Lemma kickoff_state_witness :
  exists game g',
    Game._init_game (H := counter_random) playing 0 0%nat = Some (game, g')
    /\ Game.time_left game = 120
    /\ Game.goals game = game.
Proof.
  destruct (init_returns (H := counter_random) 0 ltac:(lia)) as [c [m [_ [Em _]]]].
  destruct (Game._init_game (H := counter_random) playing 0 0%nat) as [[game g'] | ] eqn:Ei.
  - exists game, g'. split; [ reflexivity | ].
    destruct (kickoff_state (H := counter_random) playing 0 0%nat g' game Ei)
      as (_ & _ & _ & Ht & _ & Hg).
    split; assumption.
  - exfalso. unfold Game._init_game in Ei. rewrite Em in Ei.
    destruct (Ball.reset (H := counter_random) 0%nat). discriminate.
Defined.

(** ** The AI's look-ahead *)

Lemma predict_steps_linear (steps : nat) (dt pvx pvy : R) :
  forall px py,
    AIBrain.predict_steps steps dt px py pvx pvy
    = (px + pvx * (INR steps * dt), py + pvy * (INR steps * dt)).
Proof.
  induction steps as [ | n IH]; intros px py.
  - simpl. f_equal; ring.
  - cbn [AIBrain.predict_steps]. rewrite IH, S_INR. f_equal; ring.
Qed.

(** X15. [predict_ball] is a straight-line extrapolation: after [steps]
    steps of [dt] it answers the ball's position moved by its velocity times
    [steps * dt]; with the defaults (20 steps of 0.05) that is the position
    one second ahead, walls and fields ignored. *)
Theorem predict_ball_linear (ball : Ball.t) (steps : nat) (dt : R) :
  AIBrain.predict_ball ball steps dt
  = (Ball.x ball + Ball.vx ball * (INR steps * dt),
     Ball.y ball + Ball.vy ball * (INR steps * dt))
  /\ AIBrain.predict_ball ball 20 0.05
     = (Ball.x ball + Ball.vx ball, Ball.y ball + Ball.vy ball).
Proof.
  unfold AIBrain.predict_ball. rewrite !predict_steps_linear.
  split; [ reflexivity | ].
  replace (INR 20 * 0.05) with 1 by (simpl; lra). f_equal; ring.
Qed.

(** ** The AI controller *)

Lemma adapt_frame (b : AIBrain.t) :
  AIBrain.diff (AIBrain.adapt b) = AIBrain.diff b
  /\ AIBrain.state (AIBrain.adapt b) = AIBrain.state b
  /\ AIBrain.state_timer (AIBrain.adapt b) = AIBrain.state_timer b
  /\ AIBrain.think_timer (AIBrain.adapt b) = AIBrain.think_timer b
  /\ AIBrain.goals_scored (AIBrain.adapt b) = AIBrain.goals_scored b
  /\ AIBrain.goals_conceded (AIBrain.adapt b) = AIBrain.goals_conceded b.
Proof.
  unfold AIBrain.adapt.
  destruct (_ <? -2)%Z; [ | destruct (2 <? _)%Z ]; repeat split; reflexivity.
Qed.

Lemma adapt_band (b : AIBrain.t) :
  1 <= AIBrain.aim_noise b <= 40 -> 0 <= AIBrain.reaction_delay b <= 0.6 ->
  1 <= AIBrain.aim_noise (AIBrain.adapt b) <= 40
  /\ 0 <= AIBrain.reaction_delay (AIBrain.adapt b) <= 0.6.
Proof.
  intros Ha Hr. unfold AIBrain.adapt.
  destruct (_ <? -2)%Z; [ | destruct (2 <? _)%Z ];
    cbn [AIBrain.aim_noise AIBrain.reaction_delay]; unfold Rmax, Rmin;
    repeat destruct (Rle_dec _ _); lra.
Qed.

Section Controller.
Context `{PyRandom}.

(** What [get_controls] leaves of the brain: the adaptation is untouched and
    the state timer runs on. *)
Lemma get_controls_frame (b : AIBrain.t) (car : Car.t) (ball : Ball.t)
      (lm : LevelMap.t) (dt : R) (np : list string -> list R -> string) (g : gen) :
  let b' := fst (fst (AIBrain.get_controls b car ball lm dt np g)) in
  AIBrain.diff b' = AIBrain.diff b
  /\ AIBrain.aim_noise b' = AIBrain.aim_noise b
  /\ AIBrain.reaction_delay b' = AIBrain.reaction_delay b
  /\ AIBrain.goals_scored b' = AIBrain.goals_scored b
  /\ AIBrain.goals_conceded b' = AIBrain.goals_conceded b
  /\ AIBrain.state_timer b' = AIBrain.state_timer b + dt.
Proof.
  unfold AIBrain.get_controls.
  destruct (Rleb (AIBrain.think_timer b - dt) 0).
  - destruct (random_uniform (-0.05) 0.05 g) as [j g1].
    destruct (AIBrain.target _ car _ lm) as [tx0 ty0].
    destruct (random_uniform _ _ g1) as [jx g2].
    destruct (random_uniform _ _ g2) as [jy g3].
    repeat split; reflexivity.
  - destruct (AIBrain.target _ car _ lm) as [tx0 ty0].
    destruct (random_uniform _ _ g) as [jx g2].
    destruct (random_uniform _ _ g2) as [jy g3].
    repeat split; reflexivity.
Qed.

(** The brain through a match: built for the difficulty [d], asked for
    controls every tick, and told of every goal, [adapt] right after the
    count. *)
Inductive brain_reachable (d : AIDifficulty) : AIBrain.t -> Prop :=
| brain_new : brain_reachable d (AIBrain.__init__ d)
| brain_scored : forall b,
    brain_reachable d b -> brain_reachable d (AIBrain.adapt (AIBrain.scored b))
| brain_conceded : forall b,
    brain_reachable d b -> brain_reachable d (AIBrain.adapt (AIBrain.conceded b))
| brain_controls : forall b car ball lm dt np g,
    brain_reachable d b ->
    brain_reachable d (fst (fst (AIBrain.get_controls b car ball lm dt np g))).

(** X16. Whatever the difficulty [d] the brain was built with and however
    the match goes, [aim_noise] stays in [[1, 40]] and [reaction_delay] in
    [[0, 0.6]], the goal counters are never negative, and the difficulty
    setting itself is never changed: it is still [d]. *)
Theorem difficulty_stays_in_band (d : AIDifficulty) (b : AIBrain.t) :
  brain_reachable d b ->
  1 <= AIBrain.aim_noise b <= 40
  /\ 0 <= AIBrain.reaction_delay b <= 0.6
  /\ (0 <= AIBrain.goals_scored b)%Z /\ (0 <= AIBrain.goals_conceded b)%Z
  /\ AIBrain.diff b = d.
Proof.
  intro Hb.
  induction Hb as [ | b Hb IH | b Hb IH | b car ball lm dt np g Hb IH ].
  - destruct d; cbn; repeat split; try lra; lia.
  - destruct IH as (Ha & Hr & Hs & Hc & Hd).
    destruct (adapt_frame (AIBrain.scored b)) as (Ed & _ & _ & _ & Es & Ec).
    destruct (adapt_band (AIBrain.scored b) Ha Hr) as [Ha' Hr'].
    rewrite Es, Ec, Ed.
    cbn [AIBrain.scored AIBrain.goals_scored AIBrain.goals_conceded AIBrain.diff].
    repeat split; try lra; try lia. exact Hd.
  - destruct IH as (Ha & Hr & Hs & Hc & Hd).
    destruct (adapt_frame (AIBrain.conceded b)) as (Ed & _ & _ & _ & Es & Ec).
    destruct (adapt_band (AIBrain.conceded b) Ha Hr) as [Ha' Hr'].
    rewrite Es, Ec, Ed.
    cbn [AIBrain.conceded AIBrain.goals_scored AIBrain.goals_conceded AIBrain.diff].
    repeat split; try lra; try lia. exact Hd.
  - destruct (get_controls_frame b car ball lm dt np g) as (Ed & Ea & Er & Es & Ec & _).
    cbv zeta in *. rewrite Ea, Er, Es, Ec, Ed. exact IH.
Qed.

(** X17. The controls the AI hands to its car never steer left and right at
    once and never reverse; they ask for boost only with more than 40 in
    the car's meter, while driving forward, in the state [attack_goal] or
    [defend_goal].  Outside a think tick ([think_timer - dt > 0]) the state
    is kept. *)
Theorem get_controls_never (b : AIBrain.t) (car : Car.t) (ball : Ball.t)
        (lm : LevelMap.t) (dt : R) (np : list string -> list R -> string) (g : gen) :
  let b' := fst (fst (AIBrain.get_controls b car ball lm dt np g)) in
  let c := snd (fst (AIBrain.get_controls b car ball lm dt np g)) in
  AIBrain.left c && AIBrain.right c = false
  /\ AIBrain.back c = false
  /\ (AIBrain.use_boost c = true ->
      40 < Car.boost car /\ AIBrain.forward c = true
      /\ (AIBrain.state b' = "attack_goal"%string
          \/ AIBrain.state b' = "defend_goal"%string))
  /\ (0 < AIBrain.think_timer b - dt ->
      AIBrain.state b' = AIBrain.state b
      /\ AIBrain.think_timer b' = AIBrain.think_timer b - dt).
Proof.
  unfold AIBrain.get_controls.
  assert (Hlr : forall ad, Rltb ad (-0.08) && Rltb 0.08 ad = false).
  { intro ad. destruct (Rltb ad (-0.08)) eqn:E1; [ | reflexivity ].
    apply Rltb_true_iff in E1. cbn [andb]. apply Rltb_false_iff. lra. }
  assert (Hboost : forall boost dist st,
             Rltb 40 boost && Rltb 150 dist
             && (String.eqb st "attack_goal" || String.eqb st "defend_goal") = true ->
             40 < boost /\ Rltb 40 dist = true
             /\ (st = "attack_goal"%string \/ st = "defend_goal"%string)).
  { intros boost dist st Hu. apply andb_true_iff in Hu. destruct Hu as [Hu Hst].
    apply andb_true_iff in Hu. destruct Hu as [Hb40 Hd].
    apply Rltb_true_iff in Hb40. apply Rltb_true_iff in Hd.
    split; [ exact Hb40 | ]. split; [ apply Rltb_true_iff; lra | ].
    apply orb_true_iff in Hst. destruct Hst as [E | E]; apply String.eqb_eq in E; auto. }
  destruct (Rleb (AIBrain.think_timer b - dt) 0) eqn:Hthink.
  - apply Rleb_true_iff in Hthink.
    destruct (random_uniform (-0.05) 0.05 g) as [j g1].
    destruct (AIBrain.target _ car _ lm) as [tx0 ty0].
    destruct (random_uniform _ _ g1) as [jx g2].
    destruct (random_uniform _ _ g2) as [jy g3].
    cbn [fst snd AIBrain.left AIBrain.right AIBrain.back AIBrain.use_boost
         AIBrain.forward AIBrain.state AIBrain.think_timer].
    split; [ apply Hlr | ]. split; [ reflexivity | ].
    split; [ apply Hboost | intro; lra ].
  - apply Rleb_false_iff in Hthink.
    destruct (AIBrain.target _ car _ lm) as [tx0 ty0].
    destruct (random_uniform _ _ g) as [jx g2].
    destruct (random_uniform _ _ g2) as [jy g3].
    cbn [fst snd AIBrain.left AIBrain.right AIBrain.back AIBrain.use_boost
         AIBrain.forward AIBrain.state AIBrain.think_timer].
    split; [ apply Hlr | ]. split; [ reflexivity | ].
    split; [ apply Hboost | intro; split; reflexivity ].
Qed.
End Controller.

(** A MEDIUM brain that has conceded three goals in a row: the third one
    tightens its aim from 15 to 12, and it is still a MEDIUM brain. *)
Lemma difficulty_stays_in_band_witness :
  let b3 := AIBrain.adapt (AIBrain.conceded
              (AIBrain.adapt (AIBrain.conceded
                 (AIBrain.adapt (AIBrain.conceded (AIBrain.__init__ MEDIUM)))))) in
  AIBrain.aim_noise b3 = 15.0 - 3.0
  /\ 1 <= AIBrain.aim_noise b3 <= 40
  /\ AIBrain.diff b3 = MEDIUM.
Proof.
  cbv zeta. split.
  - cbn. unfold Rmax. destruct (Rle_dec 1.0 (15.0 - 3.0)); lra.
  - destruct (difficulty_stays_in_band (H := counter_random) MEDIUM
                (AIBrain.adapt (AIBrain.conceded
                   (AIBrain.adapt (AIBrain.conceded
                      (AIBrain.adapt (AIBrain.conceded (AIBrain.__init__ MEDIUM))))))))
      as (Ha & _ & _ & _ & Hd).
    + do 3 apply brain_conceded. apply brain_new.
    + split; assumption.
Defined.





(** ** The nearest boost pad *)

Definition pad_dist (car : Car.t) (pad : BoostPad.t) : R :=
  sqrt ((Car.x car - BoostPad.x pad) ^ 2 + (Car.y car - BoostPad.y pad) ^ 2).

(** What the search of [get_controls] holds after the pads [pads]: no pad
    and the bound 9999 when no active pad is closer than that, otherwise an
    active pad of the list with its distance, no farther than any other
    active pad. *)
Definition nearest_so_far (car : Car.t) (pads : list BoostPad.t)
    (acc : option BoostPad.t * R) : Prop :=
  (forall p, In p pads -> BoostPad.active p = true -> snd acc <= pad_dist car p)
  /\ match fst acc with
     | None => snd acc = 9999
     | Some p => In p pads /\ BoostPad.active p = true
                 /\ pad_dist car p = snd acc /\ snd acc < 9999
     end.

Lemma nearest_search (car : Car.t) (pads : list BoostPad.t) :
  nearest_so_far car pads (fold_left (AIBrain.nearer car) pads (None, 9999)).
Proof.
  induction pads as [ | pad pads IH] using rev_ind.
  - split; [ intros p [] | reflexivity ].
  - rewrite fold_left_app. cbn [fold_left].
    destruct (fold_left (AIBrain.nearer car) pads (None, 9999)) as [best bd].
    destruct IH as [Hmin Hbest]. cbn [fst snd] in *.
    unfold AIBrain.nearer. fold (pad_dist car pad). cbn [snd].
    destruct (BoostPad.active pad) eqn:Hact.
    + destruct (Rltb (pad_dist car pad) bd) eqn:Hcloser.
      * apply Rltb_true_iff in Hcloser. split; cbn [fst snd].
        -- intros p Hin Hp. apply in_app_or in Hin. destruct Hin as [Hin | [<- | []]].
           ++ specialize (Hmin p Hin Hp). lra.
           ++ lra.
        -- split; [ apply in_or_app; right; left; reflexivity | ].
           split; [ exact Hact | ]. split; [ reflexivity | ].
           destruct best; [ destruct Hbest as (_ & _ & _ & Hb); lra | lra ].
      * apply Rltb_false_iff in Hcloser. split; cbn [fst snd].
        -- intros p Hin Hp. apply in_app_or in Hin. destruct Hin as [Hin | [<- | []]].
           ++ exact (Hmin p Hin Hp).
           ++ exact Hcloser.
        -- destruct best; [ | exact Hbest ].
           destruct Hbest as (Hin & Hrest). split; [ apply in_or_app; auto | exact Hrest ].
    + split; cbn [fst snd].
      * intros p Hin Hp. apply in_app_or in Hin. destruct Hin as [Hin | [<- | []]].
        -- exact (Hmin p Hin Hp).
        -- congruence.
      * destruct best; [ | exact Hbest ].
        destruct Hbest as (Hin & Hrest). split; [ apply in_or_app; auto | exact Hrest ].
Qed.

(** X19. In the state [boost_hunt] the AI aims at an active boost pad that
    no other active pad is closer to its car than, and at the predicted ball
    position when no pad is active (within 9999). *)
Theorem boost_hunt_targets_nearest (car : Car.t) (pred : R * R) (lm : LevelMap.t) :
  (exists pad,
      In pad (LevelMap.boost_pads lm) /\ BoostPad.active pad = true
      /\ AIBrain.target "boost_hunt" car pred lm = (BoostPad.x pad, BoostPad.y pad)
      /\ forall p, In p (LevelMap.boost_pads lm) -> BoostPad.active p = true ->
                   pad_dist car pad <= pad_dist car p)
  \/ (AIBrain.target "boost_hunt" car pred lm = pred
      /\ forall p, In p (LevelMap.boost_pads lm) -> BoostPad.active p = true ->
                   9999 <= pad_dist car p).
Proof.
  pose proof (nearest_search car (LevelMap.boost_pads lm)) as [Hmin Hbest].
  unfold AIBrain.target. destruct pred as [bx by0]. cbn [String.eqb Ascii.eqb Bool.eqb].
  destruct (fst (fold_left (AIBrain.nearer car) (LevelMap.boost_pads lm) (None, 9999)))
    as [pad | ].
  - left. destruct Hbest as (Hin & Hact & Hd & _). exists pad.
    repeat split; try assumption. intros p Hp Ha. rewrite Hd. exact (Hmin p Hp Ha).
  - right. split; [ reflexivity | ]. intros p Hp Ha. rewrite <- Hbest. exact (Hmin p Hp Ha).
Qed.

(** ** The match clock *)







(** ** Particles *)

(** The particles after the ticks [dts]. *)
Definition particles_after (dts : list R) (ps : ParticleSystem.t) : ParticleSystem.t :=
  fold_left ParticleSystem.update dts ps.

(** [p] is [p0] after a tick of [dt]: moved by its velocity, slowed to 0.97
    of it, with [dt] off its life. *)
Definition particle_aged (dt : R) (p0 p : Particle.t) : Prop :=
  Particle.x p = Particle.x p0 + Particle.vx p0 * dt
  /\ Particle.y p = Particle.y p0 + Particle.vy p0 * dt
  /\ Particle.vx p = Particle.vx p0 * 0.97
  /\ Particle.vy p = Particle.vy p0 * 0.97
  /\ Particle.life p = Particle.life p0 - dt
  /\ Particle.max_life p = Particle.max_life p0
  /\ Particle.color p = Particle.color p0
  /\ Particle.size p = Particle.size p0
  /\ Particle.fade p = Particle.fade p0.

(** [p] is what is left of [p0] after the ticks [dts]: the same particle to
    look at, alive, and no younger under ticks [dt >= 0]. *)
Definition particle_left (dts : list R) (p0 p : Particle.t) : Prop :=
  0 < Particle.life p
  /\ Particle.max_life p = Particle.max_life p0
  /\ Particle.color p = Particle.color p0
  /\ Particle.size p = Particle.size p0
  /\ Particle.fade p = Particle.fade p0
  /\ (Forall (fun dt => 0 <= dt) dts -> Particle.life p <= Particle.life p0).

Lemma age_aged (dt : R) (p0 : Particle.t) : particle_aged dt p0 (ParticleSystem.age dt p0).
Proof. unfold particle_aged, ParticleSystem.age. cbn. repeat split; reflexivity. Qed.

Lemma particle_aged_unique (dt : R) (p0 p : Particle.t) :
  particle_aged dt p0 p -> p = ParticleSystem.age dt p0.
Proof.
  intros (Hx & Hy & Hvx & Hvy & Hl & Hm & Hc & Hs & Hf).
  destruct p. unfold ParticleSystem.age. cbn in *. congruence.
Qed.

Lemma particle_update_in (ps : ParticleSystem.t) (dt : R) (p : Particle.t) :
  In p (ParticleSystem.update ps dt) <->
  exists p0, In p0 ps /\ dt < Particle.life p0 /\ particle_aged dt p0 p.
Proof.
  unfold ParticleSystem.update. rewrite filter_In, in_map_iff. split.
  - intros [(p0 & Hp & Hin) Hlife]. exists p0. subst p.
    apply Rltb_true_iff in Hlife. cbn [ParticleSystem.age Particle.life] in Hlife.
    split; [ exact Hin | ]. split; [ lra | apply age_aged ].
  - intros (p0 & Hin & Hlife & Hp). apply particle_aged_unique in Hp. subst p.
    split; [ exists p0; tauto | ].
    apply Rltb_true_iff. cbn [ParticleSystem.age Particle.life]. lra.
Qed.

Lemma particle_update_length (ps : ParticleSystem.t) (dt : R) :
  (List.length (ParticleSystem.update ps dt) <= List.length ps)%nat.
Proof.
  unfold ParticleSystem.update.
  rewrite <- (length_map (ParticleSystem.age dt) ps). apply filter_length_le.
Qed.

Lemma particles_after_left (dts : list R) :
  forall ps dt,
    (List.length (particles_after (dt :: dts) ps) <= List.length ps)%nat
    /\ forall p, In p (particles_after (dt :: dts) ps) ->
                 exists p0, In p0 ps /\ particle_left (dt :: dts) p0 p.
Proof.
  induction dts as [ | d2 dts IH]; intros ps dt.
  - change (particles_after [dt] ps) with (ParticleSystem.update ps dt).
    split; [ apply particle_update_length | ].
    intros p Hp. apply particle_update_in in Hp.
    destruct Hp as (p0 & Hin & Hl & (_ & _ & _ & _ & El & Em & Ec & Es & Ef)).
    exists p0. split; [ exact Hin | ]. unfold particle_left.
    repeat split; try assumption; try lra.
    intro Hdts. inversion Hdts; subst. lra.
  - change (particles_after (dt :: d2 :: dts) ps)
      with (particles_after (d2 :: dts) (ParticleSystem.update ps dt)).
    destruct (IH (ParticleSystem.update ps dt) d2) as [Hlen Hleft].
    split; [ pose proof (particle_update_length ps dt); lia | ].
    intros p Hp. destruct (Hleft p Hp) as (p1 & Hin1 & Hpos & Em & Ec & Es & Ef & Hl).
    apply particle_update_in in Hin1.
    destruct Hin1 as (p0 & Hin & Hl0 & (_ & _ & _ & _ & El' & Em' & Ec' & Es' & Ef')).
    exists p0. split; [ exact Hin | ]. unfold particle_left.
    split; [ exact Hpos | ]. split; [ congruence | ]. split; [ congruence | ].
    split; [ congruence | ]. split; [ congruence | ].
    intro Hdts. inversion Hdts as [ | ? ? Hdt Hrest]; subst.
    specialize (Hl Hrest). lra.
Qed.

(** X21. In one [ParticleSystem.update] of [dt] a particle survives exactly
    when its life exceeds [dt]; a survivor is moved by its velocity times
    [dt], slowed to 0.97 of its velocity, and has [dt] off its life; so a
    tick at least as long as every life empties the system.  Across one or
    more updates particles are only dropped, never added, and every particle
    left is one of the original ones with a positive life, its full life,
    colour, size and fade kept, and no more life than it had when every
    [dt >= 0]. *)
Theorem particles_expire (ps : ParticleSystem.t) (dt : R) (dts : list R) :
  (forall p, In p (ParticleSystem.update ps dt) <->
             exists p0, In p0 ps /\ dt < Particle.life p0 /\ particle_aged dt p0 p)
  /\ (Forall (fun p0 => Particle.life p0 <= dt) ps -> ParticleSystem.update ps dt = [])
  /\ (List.length (particles_after (dt :: dts) ps) <= List.length ps)%nat
  /\ (forall p, In p (particles_after (dt :: dts) ps) ->
                exists p0, In p0 ps /\ particle_left (dt :: dts) p0 p).
Proof.
  split; [ | split; [ | apply particles_after_left ] ].
  - intro p. apply particle_update_in.
  - intro Hall. destruct (ParticleSystem.update ps dt) as [ | p rest] eqn:E;
      [ reflexivity | exfalso ].
    assert (Hin : In p (ParticleSystem.update ps dt)) by (rewrite E; left; reflexivity).
    apply particle_update_in in Hin. destruct Hin as (p0 & Hin0 & Hl & _).
    rewrite Forall_forall in Hall. specialize (Hall p0 Hin0). lra.
Qed.

Section Emit.
Context `{PyRandom}.

Lemma random_uniform_spread (spread : R) (g : gen) :
  0 <= spread -> 0 <= fst (random_uniform 0 spread g) <= spread.
Proof.
  intro Hs. rewrite random_uniform_fst. pose proof (random_range g) as Hu.
  split; nra.
Qed.

(** A particle as [emit] makes it around [(x, y)] and [(vx, vy)]. *)
Definition emitted (x y vx vy : R) (color : colour) (spread life size : R) (fade : bool)
    (p : Particle.t) : Prop :=
  Particle.x p = x /\ Particle.y p = y
  /\ v2_len (Particle.vx p - vx, Particle.vy p - vy) <= spread
  /\ Particle.life p = life /\ Particle.max_life p = life
  /\ Particle.color p = color /\ Particle.size p = size /\ Particle.fade p = fade.

Lemma spawn_emitted (x y vx vy : R) (color : colour) (spread life size : R)
    (fade : bool) (g : gen) :
  0 <= spread ->
  emitted x y vx vy color spread life size fade
          (fst (ParticleSystem.spawn x y vx vy color spread life size fade g)).
Proof.
  intro Hs. unfold ParticleSystem.spawn.
  destruct (random_uniform 0 (PI * 2) g) as [angle g1].
  pose proof (random_uniform_spread spread g1 Hs) as Hspd.
  destruct (random_uniform 0 spread g1) as [spd g2]. cbn [fst] in *.
  unfold emitted. cbn [Particle.x Particle.y Particle.vx Particle.vy Particle.life
                       Particle.max_life Particle.color Particle.size Particle.fade].
  repeat split.
  replace (v2_len (vx + cos angle * spd - vx, vy + sin angle * spd - vy)) with spd;
    [ lra | ].
  symmetry. apply v2_len_unique; [ lra | ]. cbn [fst snd].
  pose proof (sin2_cos2 angle) as Hsc. unfold Rsqr in Hsc.
  replace ((vx + cos angle * spd - vx) ^ 2 + (vy + sin angle * spd - vy) ^ 2)
    with ((sin angle * sin angle + cos angle * cos angle) * (spd * spd)) by ring.
  rewrite Hsc. ring.
Qed.

(** X22. [emit] appends exactly [count] particles and touches none that was
    there.  With a spread [>= 0] each new one starts at the given point with
    the given life, colour and size, and its velocity is within [spread] of
    the given one. *)
Theorem emit_appends (self : ParticleSystem.t) (x y vx vy : R) (color : colour)
    (count : nat) (spread life size : R) (fade : bool) (g : gen) :
  0 <= spread ->
  exists new,
    fst (ParticleSystem.emit self x y vx vy color count spread life size fade g)
    = self ++ new
    /\ List.length new = count
    /\ Forall (emitted x y vx vy color spread life size fade) new.
Proof.
  intro Hs. revert self g.
  induction count as [ | n IH]; intros self g; cbn [ParticleSystem.emit].
  - exists []. rewrite app_nil_r. repeat split. constructor.
  - pose proof (spawn_emitted x y vx vy color spread life size fade g Hs) as Hp.
    destruct (ParticleSystem.spawn x y vx vy color spread life size fade g) as [p g1].
    cbn [fst] in Hp.
    destruct (IH (self ++ [p]) g1) as (new & E & Hlen & Hall).
    exists (p :: new). rewrite E, <- app_assoc. cbn [app List.length].
    repeat split; [ congruence | constructor; assumption ].
Qed.
End Emit.

(** A burst of three particles into an empty system. *)
Lemma emit_appends_witness :
  exists new,
    fst (ParticleSystem.emit (H := counter_random) ParticleSystem.__init__
           640 360 0 0 (255, 255, 255)%Z 3 2 0.8 3 true 0%nat)
    = ParticleSystem.__init__ ++ new
    /\ List.length new = 3%nat
    /\ Forall (emitted 640 360 0 0 (255, 255, 255)%Z 2 0.8 3 true)
              new.
Proof.
  apply (emit_appends (H := counter_random)). lra.
Defined.

(** ** Hazard hits and the scoreboard *)

Section Match.
Context `{PyRandom}.

(** X23. The hazard check of a tick moves nothing but the player's velocity:
    position, heading, meter, score and trail are as they were, and each
    velocity component changes by a kick in [[-120, 120)].  With no hazard
    touching the car, the car and the generator are untouched. *)
Theorem hazard_kick_bounded (lm : LevelMap.t) (c : Car.t) (g : gen) :
  let c' := fst (Game.hazard_check lm c g) in
  (Car.x c' = Car.x c /\ Car.y c' = Car.y c /\ Car.angle c' = Car.angle c
   /\ Car.boost c' = Car.boost c /\ Car.score c' = Car.score c
   /\ Car.trail c' = Car.trail c)
  /\ -120 <= Car.vx c' - Car.vx c < 120
  /\ -120 <= Car.vy c' - Car.vy c < 120
  /\ (LevelMap.check_hazard_hit lm (Car.x c) (Car.y c) 18 = false ->
      Game.hazard_check lm c g = (c, g)).
Proof.
  cbv zeta. unfold Game.hazard_check.
  change (IZR (Z.max CAR_W CAR_H / 2)) with 18.
  destruct (LevelMap.check_hazard_hit lm (Car.x c) (Car.y c) 18).
  - pose proof (random_uniform_range (-120) 120 g ltac:(lra)) as Hx.
    destruct (random_uniform (-120) 120 g) as [kx g1].
    pose proof (random_uniform_range (-120) 120 g1 ltac:(lra)) as Hy.
    destruct (random_uniform (-120) 120 g1) as [ky g2].
    cbn [fst Game.kick Car.x Car.y Car.vx Car.vy Car.angle Car.boost Car.score
         Car.trail] in *.
    split; [ repeat split | ]. split; [ lra | ]. split; [ lra | discriminate ].
  - cbn [fst]. split; [ repeat split | ]. split; [ lra | ]. split; [ lra | reflexivity ].
Qed.

(** X24. The brain's books agree with the scoreboard: in every state of a
    match the AI's count of goals scored is the AI car's score and its count
    of goals conceded is the player's score, neither negative.  So the goal
    differential that [adapt] steers on is the score differential. *)
Theorem brain_counts_the_score (game : Game.t) :
  scoreboard_reachable game ->
  AIBrain.goals_scored (Game.ai_brain game) = Car.score (Game.ai_car game)
  /\ AIBrain.goals_conceded (Game.ai_brain game) = Car.score (Game.player game)
  /\ (0 <= Car.score (Game.ai_car game))%Z
  /\ (0 <= Car.score (Game.player game))%Z.
Proof.
  intro Hreach.
  induction Hreach as [st lid g game g' Hinit | game Hreach IH
                      | game game' Hreach IH Hp Ha Hs Hc].
  - unfold Game._init_game in Hinit.
    destruct (LevelMap.__init__ lid); [ | discriminate ].
    destruct (Ball.reset g). injection Hinit as <- _.
    cbn. repeat split; lia.
  - destruct IH as (Hs & Hc & Ha & Hp). unfold Game.goals.
    destruct (GoalZone.check_goal (Game.goal_l game) (Game.ball game)).
    + cbn [Game.ai_brain Game.ai_car Game.player].
      pose proof (adapt_frame (AIBrain.scored (Game.ai_brain game)))
        as (_ & _ & _ & _ & Es & Ec).
      rewrite Es, Ec. cbn [AIBrain.scored AIBrain.goals_scored AIBrain.goals_conceded
                           Game.add_score Car.score].
      repeat split; lia.
    + destruct (GoalZone.check_goal (Game.goal_r game) (Game.ball game)).
      * cbn [Game.ai_brain Game.ai_car Game.player].
        pose proof (adapt_frame (AIBrain.conceded (Game.ai_brain game)))
          as (_ & _ & _ & _ & Es & Ec).
        rewrite Es, Ec. cbn [AIBrain.conceded AIBrain.goals_scored
                             AIBrain.goals_conceded Game.add_score Car.score].
        repeat split; lia.
      * repeat split; assumption.
  - destruct IH as (Es & Ec & Hap & Hpp). repeat split; lia.
Qed.
End Match.

(** A match on the lunar level whose ball has rolled into the left goal:
    after the goal check the AI has one goal on the board and one in its
    books. *)
Lemma brain_counts_the_score_witness :
  exists game g',
    Game._init_game (H := counter_random) playing 0 0%nat = Some (game, g')
    /\ Car.score
         (Game.ai_car (Game.goals (with_ball game (Ball.mk 10 300 (-200) 0 [] 0)))) = 1%Z
    /\ AIBrain.goals_scored
         (Game.ai_brain (Game.goals (with_ball game (Ball.mk 10 300 (-200) 0 [] 0)))) = 1%Z.
Proof.
  destruct (init_returns (H := counter_random) 0 ltac:(lia)) as [c [m [_ [Em _]]]].
  destruct (Game._init_game (H := counter_random) playing 0 0%nat) as [[game g'] | ] eqn:Ei.
  - exists game, g'. split; [ reflexivity | ].
    assert (Hscore : Car.score
              (Game.ai_car (Game.goals (with_ball game (Ball.mk 10 300 (-200) 0 [] 0))))
              = 1%Z).
    { unfold Game._init_game in Ei. rewrite Em in Ei.
      destruct (Ball.reset (H := counter_random) 0%nat) as [b g1].
      injection Ei as <- _.
      unfold Game.goals, GoalZone.check_goal.
      cbn [with_ball Game.goal_l Game.ball Ball.x Ball.y].
      rewrite (py_int_IZR 10) by lia. rewrite (py_int_IZR 300) by lia.
      reflexivity. }
    split; [ exact Hscore | ].
    destruct (brain_counts_the_score (H := counter_random)
                (Game.goals (with_ball game (Ball.mk 10 300 (-200) 0 [] 0))))
      as (Hbooks & _).
    + apply scoreboard_goals.
      apply (scoreboard_other (H := counter_random) game); try reflexivity.
      exact (scoreboard_init (H := counter_random) playing 0%Z 0%nat game g' Ei).
    + rewrite Hbooks. exact Hscore.
  - exfalso. unfold Game._init_game in Ei. rewrite Em in Ei.
    destruct (Ball.reset (H := counter_random) 0%nat). discriminate.
Defined.

(** ** Steering *)

(** [a % b] for a positive [b] lies in [[0, b)]. *)
Lemma py_mod_range (a b : R) : 0 < b -> 0 <= py_mod a b < b.
Proof.
  intro Hb. unfold py_mod.
  destruct (base_Int_part (a / b)) as [Hle Hgt].
  assert (Ea : a = b * (a / b)) by (field; lra).
  set (q := a / b) in *. set (k := IZR (Int_part q)) in *.
  split; nra.
Qed.

(** Whole turns do not change a direction. *)
Lemma cos_sin_turns (x : R) (k : Z) :
  cos (x - 2 * PI * IZR k) = cos x /\ sin (x - 2 * PI * IZR k) = sin x.
Proof.
  destruct (Z_le_gt_dec 0 k) as [Hk | Hk].
  - assert (Ek : IZR k = INR (Z.to_nat k)).
    { rewrite INR_IZR_INZ, Z2Nat.id by exact Hk. reflexivity. }
    rewrite Ek. set (n := Z.to_nat k).
    rewrite <- (cos_period (x - 2 * PI * INR n) n), <- (sin_period (x - 2 * PI * INR n) n).
    split; f_equal; ring.
  - assert (Ek : IZR k = - INR (Z.to_nat (- k))).
    { rewrite INR_IZR_INZ, Z2Nat.id by lia. rewrite opp_IZR. ring. }
    rewrite Ek. set (n := Z.to_nat (- k)).
    replace (x - 2 * PI * - INR n) with (x + 2 * INR n * PI) by ring.
    split; [ apply cos_period | apply sin_period ].
Qed.

Lemma sqrt_slope (dx dy s : R) :
  0 < s -> s * s = dx * dx ->
  sqrt (1 + (dy / dx)²) = sqrt (dx ^ 2 + dy ^ 2) / s.
Proof.
  intros Hs Hsq.
  assert (Hdx : dx <> 0) by (intro E; subst dx; nra).
  pose proof (v2_len_nonneg (dx, dy)) as Hr. pose proof (v2_len_sqr (dx, dy)) as Hrr.
  unfold v2_len in Hr, Hrr. cbn [fst snd] in Hr, Hrr.
  set (r := sqrt (dx ^ 2 + dy ^ 2)) in *.
  apply sqrt_lem_1.
  - pose proof (Rle_0_sqr (dy / dx)). lra.
  - apply Rmult_le_pos; [ exact Hr | left; apply Rinv_0_lt_compat; exact Hs ].
  - replace (r / s * (r / s)) with ((r * r) / (s * s)) by (field; lra).
    rewrite Hrr, Hsq. unfold Rsqr. field. exact Hdx.
Qed.

(** [atan2(dy, dx)] is the direction of [(dx, dy)]. *)
Lemma atan2_cos_sin (dy dx : R) :
  0 < sqrt (dx ^ 2 + dy ^ 2) ->
  cos (atan2 dy dx) = dx / sqrt (dx ^ 2 + dy ^ 2)
  /\ sin (atan2 dy dx) = dy / sqrt (dx ^ 2 + dy ^ 2).
Proof.
  intro Hr. unfold atan2.
  destruct (Rltb 0 dx) eqn:Hpos.
  - apply Rltb_true_iff in Hpos.
    rewrite cos_atan, sin_atan, (sqrt_slope dx dy dx) by (lra || ring).
    split; field; lra.
  - apply Rltb_false_iff in Hpos.
    destruct (Rltb dx 0) eqn:Hneg.
    + apply Rltb_true_iff in Hneg.
      assert (Hs : sqrt (1 + (dy / dx)²) = sqrt (dx ^ 2 + dy ^ 2) / - dx)
        by (apply sqrt_slope; [ lra | ring ]).
      destruct (Rleb 0 dy).
      * rewrite neg_cos, neg_sin, cos_atan, sin_atan, Hs. split; field; lra.
      * rewrite cos_minus, sin_minus, cos_PI, sin_PI, cos_atan, sin_atan, Hs.
        split; field; lra.
    + apply Rltb_false_iff in Hneg.
      assert (dx = 0) by lra. subst dx.
      destruct (Rltb 0 dy) eqn:Hup.
      * apply Rltb_true_iff in Hup.
        assert (Er : sqrt (0 ^ 2 + dy ^ 2) = dy) by (apply sqrt_lem_1; nra).
        rewrite Er, cos_PI2, sin_PI2. split; field; lra.
      * apply Rltb_false_iff in Hup.
        destruct (Rltb dy 0) eqn:Hdown.
        -- apply Rltb_true_iff in Hdown.
           assert (Er : sqrt (0 ^ 2 + dy ^ 2) = - dy) by (apply sqrt_lem_1; nra).
           replace (- PI / 2) with (- (PI / 2)) by field.
           rewrite Er, cos_neg, sin_neg, cos_PI2, sin_PI2. split; field; lra.
        -- apply Rltb_false_iff in Hdown.
           assert (dy = 0) by lra. subst dy. exfalso.
           replace (0 ^ 2 + 0 ^ 2) with 0 in Hr by ring. rewrite sqrt_0 in Hr. lra.
Qed.

(** The heading error of [get_controls] towards the point [(tx, ty)]:
    [ad = (ta - car.angle + pi) % (pi * 2) - pi] with
    [ta = atan2(ty - car.y, tx - car.x)]. *)
Definition heading_error (car : Car.t) (tx ty : R) : R :=
  py_mod (atan2 (ty - Car.y car) (tx - Car.x car) - Car.angle car + PI) (PI * 2) - PI.

(** X25. The heading error the AI steers on is wrapped into [[-pi, pi)], and
    for a target away from the car it is exactly the turn that points the car
    at the target: the heading plus the error is the direction from the car
    to the target. *)
Theorem heading_error_points_at_target (car : Car.t) (tx ty : R) :
  let dx := tx - Car.x car in
  let dy := ty - Car.y car in
  let dist := sqrt (dx ^ 2 + dy ^ 2) in
  0 < dist ->
  - PI <= heading_error car tx ty < PI
  /\ cos (Car.angle car + heading_error car tx ty) = dx / dist
  /\ sin (Car.angle car + heading_error car tx ty) = dy / dist.
Proof.
  cbv zeta. intro Hd. unfold heading_error.
  set (dx := tx - Car.x car) in *. set (dy := ty - Car.y car) in *.
  pose proof (atan2_cos_sin dy dx Hd) as [Hc Hs].
  set (ta := atan2 dy dx) in *.
  assert (Hb : 0 < PI * 2) by (pose proof PI_RGT_0; lra).
  pose proof (py_mod_range (ta - Car.angle car + PI) (PI * 2) Hb) as Hm.
  split; [ lra | ].
  unfold py_mod in *.
  set (k := Int_part ((ta - Car.angle car + PI) / (PI * 2))) in *.
  replace (Car.angle car + (ta - Car.angle car + PI - PI * 2 * IZR k - PI))
    with (ta - 2 * PI * IZR k) by ring.
  destruct (cos_sin_turns ta k) as [Ec Es]. rewrite Ec, Es. split; assumption.
Qed.

(** The AI's car on its kick-off spot, aiming at the centre spot. *)
Lemma heading_error_points_at_target_witness :
  cos (Car.angle (Car.__init__ 1100 360 false None)
       + heading_error (Car.__init__ 1100 360 false None) 640 360)
  = (640 - 1100) / sqrt ((640 - 1100) ^ 2 + (360 - 360) ^ 2).
Proof.
  apply (heading_error_points_at_target (Car.__init__ 1100 360 false None) 640 360).
  cbn [Car.__init__ Car.x Car.y]. apply sqrt_lt_R0. lra.
Defined.

Section Steers.
Context `{PyRandom}.

Lemma jitter_bounded (a : R) (g : gen) : Rabs (fst (random_uniform (- a) a g)) <= Rabs a.
Proof.
  rewrite random_uniform_fst. pose proof (random_range g) as Hu.
  set (u := fst (random g)) in *.
  unfold Rabs. destruct (Rcase_abs (- a + (a - - a) * u)), (Rcase_abs a); nra.
Qed.

(** X26. The AI steers at its target moved by a jitter of at most its aim
    noise on each axis: it turns left when the heading error towards that
    point is below -0.08, right when it is above 0.08, and drives forward
    when the point is more than 40 away. *)
Theorem get_controls_steers (b : AIBrain.t) (car : Car.t) (ball : Ball.t)
        (lm : LevelMap.t) (dt : R) (np : list string -> list R -> string) (g : gen) :
  let b' := fst (fst (AIBrain.get_controls b car ball lm dt np g)) in
  let c := snd (fst (AIBrain.get_controls b car ball lm dt np g)) in
  let aim := AIBrain.target (AIBrain.state b') car (AIBrain.predict_ball ball 20 0.05) lm in
  exists jx jy,
    Rabs jx <= Rabs (AIBrain.aim_noise b) /\ Rabs jy <= Rabs (AIBrain.aim_noise b)
    /\ AIBrain.left c = Rltb (heading_error car (fst aim + jx) (snd aim + jy)) (-0.08)
    /\ AIBrain.right c = Rltb 0.08 (heading_error car (fst aim + jx) (snd aim + jy))
    /\ AIBrain.forward c
       = Rltb 40 (sqrt ((fst aim + jx - Car.x car) ^ 2 + (snd aim + jy - Car.y car) ^ 2)).
Proof.
  cbv zeta. unfold AIBrain.get_controls.
  destruct (Rleb (AIBrain.think_timer b - dt) 0).
  - destruct (random_uniform (-0.05) 0.05 g) as [j g1].
    destruct (AIBrain.target _ car _ lm) as [tx0 ty0] eqn:Et.
    pose proof (jitter_bounded (AIBrain.aim_noise b) g1) as Hx.
    destruct (random_uniform _ _ g1) as [jx g2].
    pose proof (jitter_bounded (AIBrain.aim_noise b) g2) as Hy.
    destruct (random_uniform _ _ g2) as [jy g3].
    cbn [fst snd AIBrain.state AIBrain.left AIBrain.right AIBrain.forward] in *.
    rewrite Et. exists jx, jy. cbn [fst snd]. repeat split; assumption.
  - destruct (AIBrain.target _ car _ lm) as [tx0 ty0] eqn:Et.
    pose proof (jitter_bounded (AIBrain.aim_noise b) g) as Hx.
    destruct (random_uniform _ _ g) as [jx g2].
    pose proof (jitter_bounded (AIBrain.aim_noise b) g2) as Hy.
    destruct (random_uniform _ _ g2) as [jy g3].
    cbn [fst snd AIBrain.state AIBrain.left AIBrain.right AIBrain.forward] in *.
    rewrite Et. exists jx, jy. cbn [fst snd]. repeat split; assumption.
Qed.
End Steers.

(** ** What the generator places *)

Lemma IZR_between (a b v : Z) : (a <= v <= b)%Z -> IZR a <= IZR v <= IZR b.
Proof. intros [Ha Hb]. split; apply IZR_le; assumption. Qed.

(** The bounds of an integer draw, as reals. *)
Ltac real_bounds H :=
  match type of H with
  | (?a <= ?v <= ?b)%Z =>
      let a' := eval vm_compute in a in
      let b' := eval vm_compute in b in
      apply (IZR_between a' b' v) in H
  end.

Ltac draws_return :=
  repeat lazymatch goal with
    | |- returns (fun _ => True) ?c => change (total c)
    | |- total (ret _) => apply total_ret
    | |- total (uniform _ _) => apply total_uniform
    | |- total (randint _ _) => apply total_randint; unfold SCREEN_W, SCREEN_H; lia
    | |- total (bind _ _) => apply total_bind; [ | intro ]
    end.

(** An anomaly of one of the level's [kinds], its circle inside the screen,
    with the strength of its kind: a black hole pulls, a repulsor has a
    negative strength, a nebula a small positive one. *)
Definition anomaly_placed (kinds : list anomaly_kind) (a : GravityAnomaly.t) : Prop :=
  In (GravityAnomaly.kind a) kinds
  /\ 220 <= GravityAnomaly.x a <= 1060 /\ 130 <= GravityAnomaly.y a <= 590
  /\ 55 <= GravityAnomaly.radius a <= 115
  /\ match GravityAnomaly.kind a with
     | black_hole => 100 <= GravityAnomaly.strength a <= 220
     | repulsor => -110 <= GravityAnomaly.strength a <= -50
     | nebula => 25 <= GravityAnomaly.strength a <= 55
     end.

(** A pad ready to be picked up, away from the walls. *)
Definition pad_placed (p : BoostPad.t) : Prop :=
  BoostPad.active p = true /\ BoostPad.cooldown p = 0 /\ BoostPad.radius p = 22
  /\ 120 <= BoostPad.x p <= 1160 /\ 90 <= BoostPad.y p <= 630.

(** An asteroid inside the walls, no faster than 80 by 64. *)
Definition asteroid_placed (a : MovingAsteroid.t) : Prop :=
  200 <= MovingAsteroid.x a <= 1080 /\ 90 <= MovingAsteroid.y a <= 630
  /\ 14 <= MovingAsteroid.radius a <= 32
  /\ Rabs (MovingAsteroid.vx a) <= 80 /\ Rabs (MovingAsteroid.vy a) <= 64.

(** A pulse ring at its smallest, growing. *)
Definition ring_placed (pr : PulseRing.t) : Prop :=
  PulseRing.radius pr = 10 /\ 80 <= PulseRing.max_radius pr <= 160
  /\ 80 <= PulseRing.speed pr <= 160
  /\ 200 <= PulseRing.cx pr <= 1080 /\ 100 <= PulseRing.cy pr <= 620.

Definition corridor_placed (gc : GravityCorridor.t) : Prop :=
  200 <= GravityCorridor.x gc <= 1080 /\ 100 <= GravityCorridor.y gc <= 620
  /\ 40 <= GravityCorridor.width gc <= 80 /\ 80 <= GravityCorridor.height gc <= 180
  /\ 150 <= GravityCorridor.strength gc <= 300.

Definition placed (c : Level.t) (m : LevelMap.t) : Prop :=
  Forall (anomaly_placed (Level.anomaly_types c)) (LevelMap.anomalies m)
  /\ Forall pad_placed (LevelMap.boost_pads m)
  /\ Forall asteroid_placed (LevelMap.asteroids m)
  /\ Forall ring_placed (LevelMap.pulse_rings m)
  /\ Forall corridor_placed (LevelMap.gravity_corridors m).

Section Placed.
Context `{PyRandom}.

Lemma returns_gen_pad :
  returns (fun p => 120 <= IZR (fst p) <= 1160 /\ 90 <= IZR (snd p) <= 630)
          LevelMap.gen_pad.
Proof.
  unfold LevelMap.gen_pad.
  eapply returns_bind; [ apply (returns_randint 120 (SCREEN_W - 120)); vm_compute; discriminate | ].
  intros px Hx. cbv beta in Hx. real_bounds Hx.
  eapply returns_bind; [ apply (returns_randint 90 (SCREEN_H - 90)); vm_compute; discriminate | ].
  intros py Hy. cbv beta in Hy. real_bounds Hy.
  apply returns_ret. cbn [fst snd]. split; assumption.
Qed.

Lemma returns_gen_anomaly (k0 : anomaly_kind) (kinds : list anomaly_kind) :
  returns (anomaly_placed (k0 :: kinds)) (LevelMap.gen_anomaly (k0 :: kinds)).
Proof.
  unfold LevelMap.gen_anomaly.
  eapply returns_bind; [ apply returns_choice | ]. intros kind Hk. cbv beta in Hk.
  eapply returns_bind; [ apply (returns_randint 220 (SCREEN_W - 220)); vm_compute; discriminate | ].
  intros ax Hx. cbv beta in Hx. real_bounds Hx.
  eapply returns_bind; [ apply (returns_randint 130 (SCREEN_H - 130)); vm_compute; discriminate | ].
  intros ay Hy. cbv beta in Hy. real_bounds Hy.
  eapply returns_bind; [ apply (returns_randint 55 115); lia | ].
  intros r Hr. cbv beta in Hr. real_bounds Hr.
  destruct kind; cbn [anomaly_kind_eqb].
  - eapply returns_bind; [ apply (returns_uniform_between 100 220); lra | ].
    intros s Hs. cbv beta in Hs.
    eapply (returns_bind (fun s' => s' = s)); [ apply returns_ret; reflexivity | ].
    intros s' ->.
    apply returns_ret. unfold anomaly_placed.
    cbn [GravityAnomaly.kind GravityAnomaly.x GravityAnomaly.y GravityAnomaly.radius
         GravityAnomaly.strength]. tauto.
  - eapply returns_bind; [ apply (returns_uniform (-50) (-110)) | ].
    intros s [u [Hu Es]].
    eapply (returns_bind (fun s' => s' = s)); [ apply returns_ret; reflexivity | ].
    intros s' ->.
    apply returns_ret. unfold anomaly_placed.
    cbn [GravityAnomaly.kind GravityAnomaly.x GravityAnomaly.y GravityAnomaly.radius
         GravityAnomaly.strength].
    repeat split; try tauto; subst s; lra.
  - apply returns_after; [ draws_return | intro s0 ].
    eapply returns_bind; [ apply (returns_uniform_between 25 55); lra | ].
    intros s Hs. cbv beta in Hs.
    apply returns_ret. unfold anomaly_placed.
    cbn [GravityAnomaly.kind GravityAnomaly.x GravityAnomaly.y GravityAnomaly.radius
         GravityAnomaly.strength]. tauto.
Qed.

Lemma returns_gen_asteroid (lid : Z) : returns asteroid_placed (LevelMap.gen_asteroid lid).
Proof.
  unfold LevelMap.gen_asteroid. cbv zeta.
  eapply returns_bind; [ apply (returns_randint 200 (SCREEN_W - 200)); vm_compute; discriminate | ].
  intros ax Hx. cbv beta in Hx. real_bounds Hx.
  eapply returns_bind; [ apply (returns_randint 90 (SCREEN_H - 90)); vm_compute; discriminate | ].
  intros ay Hy. cbv beta in Hy. real_bounds Hy.
  eapply returns_bind; [ apply (returns_randint 14 32); lia | ].
  intros r Hr. cbv beta in Hr. real_bounds Hr.
  set (spd := if (lid =? 3)%Z then 60 else 80).
  assert (Hspd : 0 <= spd <= 80) by (unfold spd; destruct (lid =? 3)%Z; lra).
  eapply returns_bind; [ apply (returns_uniform_between (- spd) spd); lra | ].
  intros avx Hvx. cbv beta in Hvx.
  eapply returns_bind;
    [ apply (returns_uniform_between (- spd * 0.8) (spd * 0.8)); lra | ].
  intros avy Hvy. cbv beta in Hvy.
  apply returns_after; [ draws_return | intro ang ].
  apply returns_after; [ draws_return | intro spin ].
  apply returns_ret. unfold asteroid_placed.
  cbn [MovingAsteroid.x MovingAsteroid.y MovingAsteroid.radius MovingAsteroid.vx
       MovingAsteroid.vy].
  repeat split; try tauto; apply Rabs_le; lra.
Qed.

Lemma returns_gen_ring (accent : colour) : returns ring_placed (LevelMap.gen_ring accent).
Proof.
  unfold LevelMap.gen_ring.
  eapply returns_bind; [ apply (returns_randint 200 (SCREEN_W - 200)); vm_compute; discriminate | ].
  intros rx Hx. cbv beta in Hx. real_bounds Hx.
  eapply returns_bind; [ apply (returns_randint 100 (SCREEN_H - 100)); vm_compute; discriminate | ].
  intros ry Hy. cbv beta in Hy. real_bounds Hy.
  eapply returns_bind; [ apply (returns_randint 80 160); lia | ].
  intros mr Hm. cbv beta in Hm. real_bounds Hm.
  eapply returns_bind; [ apply (returns_uniform_between 80 160); lra | ].
  intros sp Hs. cbv beta in Hs.
  apply returns_ret. unfold ring_placed.
  cbn [PulseRing.radius PulseRing.max_radius PulseRing.speed PulseRing.cx PulseRing.cy].
  tauto.
Qed.

Lemma returns_gen_corridor : returns corridor_placed LevelMap.gen_corridor.
Proof.
  unfold LevelMap.gen_corridor.
  eapply returns_bind; [ apply (returns_randint 200 (SCREEN_W - 200)); vm_compute; discriminate | ].
  intros gx Hx. cbv beta in Hx. real_bounds Hx.
  eapply returns_bind; [ apply (returns_randint 100 (SCREEN_H - 100)); vm_compute; discriminate | ].
  intros gy Hy. cbv beta in Hy. real_bounds Hy.
  eapply returns_bind; [ apply (returns_randint 40 80); lia | ].
  intros w Hw. cbv beta in Hw. real_bounds Hw.
  eapply returns_bind; [ apply (returns_randint 80 180); lia | ].
  intros h Hh. cbv beta in Hh. real_bounds Hh.
  eapply returns_bind; [ apply (returns_uniform_between 150 300); lra | ].
  intros s Hs. cbv beta in Hs.
  apply returns_after; [ draws_return | intro dir ].
  apply returns_ret. unfold corridor_placed.
  cbn [GravityCorridor.x GravityCorridor.y GravityCorridor.width GravityCorridor.height
       GravityCorridor.strength].
  tauto.
Qed.

Lemma returns_hazards {A : Type} (P : A -> Prop) (on : bool) (n : nat) (body : Rng A) :
  returns P body ->
  returns (Forall P) (if on then repeatM n body else ret []).
Proof.
  intro Hb. destruct on.
  - eapply returns_weaken; [ apply (returns_repeatM P n body Hb) | ].
    intros l [_ Hl]. exact Hl.
  - apply returns_ret. constructor.
Qed.

Lemma returns_generate_placed (lid : Z) (c : Level.t) :
  Level.anomaly_types c <> [] -> returns (placed c) (LevelMap._generate lid c).
Proof.
  intro Hk. unfold LevelMap._generate.
  apply returns_after; [ apply total_randint; lia | intro n ].
  eapply returns_bind; [ apply (returns_repeatM _ _ _ returns_gen_pad) | ].
  intros more [_ Hmore].
  eapply (returns_bind (Forall (anomaly_placed (Level.anomaly_types c)))).
  { destruct (Level.anomaly_types c) as [ | k0 kinds]; [ congruence | ].
    eapply returns_weaken; [ apply (returns_repeatM _ _ _ (returns_gen_anomaly k0 kinds)) | ].
    intros l [_ Hl]. exact Hl. }
  intros anomalies Han.
  eapply returns_bind; [ apply (returns_repeatM _ _ _ (returns_gen_asteroid lid)) | ].
  intros asteroids [_ Hast].
  apply returns_after.
  { eapply returns_total. apply (returns_hazards (fun _ => True)).
    unfold LevelMap.gen_shard. draws_return. }
  intro shards.
  eapply returns_bind; [ apply (returns_hazards _ _ _ _ returns_gen_corridor) | ].
  intros corridors Hco.
  eapply returns_bind;
    [ apply (returns_hazards _ _ _ _ (returns_gen_ring (Level.accent c))) | ].
  intros rings Hri.
  apply returns_after.
  { eapply returns_total. apply (returns_hazards (fun _ => True)).
    unfold LevelMap.gen_node. draws_return. }
  intro nodes.
  apply returns_ret. unfold placed.
  cbn [LevelMap.anomalies LevelMap.boost_pads LevelMap.asteroids LevelMap.pulse_rings
       LevelMap.gravity_corridors].
  repeat split; try assumption.
  apply Forall_forall. intros p Hp. apply in_map_iff in Hp.
  destruct Hp as (q & <- & Hq). unfold pad_placed, BoostPad.new.
  cbn [BoostPad.active BoostPad.cooldown BoostPad.radius BoostPad.x BoostPad.y].
  destruct Hq as [<- | Hq].
  - cbn [fst snd]. change (IZR (SCREEN_W / 2)) with 640.
    change (IZR (SCREEN_H / 2)) with 360. repeat split; lra.
  - rewrite Forall_forall in Hmore. specialize (Hmore q Hq). tauto.
Qed.

(** Every level of the catalogue builds a map whose objects are [placed]. *)
Lemma init_placed (lid : Z) :
  (0 <= lid < 5)%Z ->
  exists c m, py_index LEVELS lid = Some c /\ LevelMap.__init__ lid = Some m
              /\ placed c m.
Proof.
  intro Hlid. unfold LevelMap.__init__.
  assert (Hc : exists c, py_index LEVELS lid = Some c /\ Level.anomaly_types c <> []).
  { assert (Hcases : lid = 0%Z \/ lid = 1%Z \/ lid = 2%Z \/ lid = 3%Z \/ lid = 4%Z) by lia.
    destruct Hcases as [-> | [-> | [-> | [-> | ->]]]];
      (eexists; split; [ reflexivity | discriminate ]). }
  destruct Hc as [c [Ec Hk]]. rewrite Ec.
  assert (Hr : returns (placed c)
                 (_ <- TerrainRenderer._bake lid ;; LevelMap._generate lid c)).
  { apply returns_after; [ apply total_bake | intros _ ].
    apply returns_generate_placed. exact Hk. }
  destruct (Hr (Random (lid * 137 + 42)%Z)) as [m [g1 [Em Hm]]].
  exists c, m. rewrite Em. split; [ reflexivity | ]. split; [ reflexivity | exact Hm ].
Qed.

(** X27. On every level of the catalogue the generated gravity anomalies are
    of the kinds the level lists, each with its circle inside the screen
    (centre in [[220, 1060]] by [[130, 590]], radius in [[55, 115]]) and the
    strength of its kind: 100 to 220 for a black hole, -110 to -50 for a
    repulsor, 25 to 55 for a nebula. *)
Theorem generated_anomalies (lid : Z) :
  (0 <= lid < 5)%Z ->
  exists c m,
    py_index LEVELS lid = Some c /\ LevelMap.__init__ lid = Some m
    /\ Forall (anomaly_placed (Level.anomaly_types c)) (LevelMap.anomalies m)
    /\ Forall (fun a => 0 < GravityAnomaly.x a - GravityAnomaly.radius a
                        /\ GravityAnomaly.x a + GravityAnomaly.radius a < IZR SCREEN_W
                        /\ 0 < GravityAnomaly.y a - GravityAnomaly.radius a
                        /\ GravityAnomaly.y a + GravityAnomaly.radius a < IZR SCREEN_H)
              (LevelMap.anomalies m).
Proof.
  intro Hlid. destruct (init_placed lid Hlid) as (c & m & Ec & Em & Han & _).
  exists c, m. repeat split; try assumption.
  eapply Forall_impl; [ | exact Han ].
  intros a (_ & Hx & Hy & Hr & _).
  change (IZR SCREEN_W) with 1280. change (IZR SCREEN_H) with 720. lra.
Qed.

(** X28. On every level of the catalogue the generated map has every boost
    pad active, with no cooldown and radius 22; every asteroid inside the
    walls ([radius <= x <= SCREEN_W - radius], the same on y) and no faster
    than 80 by 64; every pulse ring at radius 10 below its [max_radius] with
    a positive speed; and every gravity corridor with a strength between 150
    and 300. *)
Theorem generated_objects (lid : Z) :
  (0 <= lid < 5)%Z ->
  exists c m,
    py_index LEVELS lid = Some c /\ LevelMap.__init__ lid = Some m
    /\ Forall pad_placed (LevelMap.boost_pads m)
    /\ Forall (fun a => asteroid_placed a
                        /\ MovingAsteroid.radius a <= MovingAsteroid.x a
                           <= IZR SCREEN_W - MovingAsteroid.radius a
                        /\ MovingAsteroid.radius a <= MovingAsteroid.y a
                           <= IZR SCREEN_H - MovingAsteroid.radius a)
              (LevelMap.asteroids m)
    /\ Forall (fun pr => ring_placed pr
                         /\ 10 <= PulseRing.radius pr <= PulseRing.max_radius pr
                         /\ 0 <= PulseRing.speed pr)
              (LevelMap.pulse_rings m)
    /\ Forall corridor_placed (LevelMap.gravity_corridors m).
Proof.
  intro Hlid.
  destruct (init_placed lid Hlid) as (c & m & Ec & Em & _ & Hpads & Hast & Hri & Hco).
  exists c, m. repeat split; try assumption.
  - eapply Forall_impl; [ | exact Hast ].
    intros a Ha. split; [ exact Ha | ]. destruct Ha as (Hx & Hy & Hr & _).
    change (IZR SCREEN_W) with 1280. change (IZR SCREEN_H) with 720. lra.
  - eapply Forall_impl; [ | exact Hri ].
    intros pr Hp. split; [ exact Hp | ]. destruct Hp as (Er & Hm & Hs & _). lra.
Qed.
End Placed.

(** The black hole station, with the counting generator. *)
Lemma generated_anomalies_witness :
  exists c m,
    py_index LEVELS 3 = Some c /\ LevelMap.__init__ (H := counter_random) 3 = Some m
    /\ Forall (anomaly_placed (Level.anomaly_types c)) (LevelMap.anomalies m).
Proof.
  destruct (generated_anomalies (H := counter_random) 3 ltac:(lia))
    as (c & m & Ec & Em & Han & _).
  exists c, m. repeat split; assumption.
Defined.

(** The pulsar core, with the counting generator. *)
Lemma generated_objects_witness :
  exists c m,
    py_index LEVELS 4 = Some c /\ LevelMap.__init__ (H := counter_random) 4 = Some m
    /\ Forall pad_placed (LevelMap.boost_pads m).
Proof.
  destruct (generated_objects (H := counter_random) 4 ltac:(lia))
    as (c & m & Ec & Em & Hp & _).
  exists c, m. repeat split; assumption.
Defined.

(** ** Key presses *)

Section KeyPresses.
Context `{PyRandom}.





(** A match as [_init_game] leaves it. *)
Definition fresh_match (game : Game.t) : Prop :=
  Game.time_left game = 120 /\ Game.combo game = 1%Z /\ Game.winner game = None
  /\ Car.score (Game.player game) = 0%Z /\ Car.score (Game.ai_car game) = 0%Z.

Lemma start_fresh (lid sel sel' : Z) (g g' : gen) (game : Game.t) :
  Events.start lid sel g = Some (Events.Go game sel' g') ->
  Game.state game = playing /\ Game.level_id game = lid /\ fresh_match game.
Proof.
  unfold Events.start, Game._init_game.
  destruct (LevelMap.__init__ lid) as [lm | ]; [ | discriminate ].
  destruct (Ball.reset g) as [b g1]. intro E. injection E as <- _ _.
  unfold fresh_match, Game.MATCH_TIME.
  cbn [Game.state Game.level_id Game.time_left Game.combo Game.winner Game.player
       Game.ai_car Car.__init__ Car.score].
  repeat split. lra.
Qed.

(** X30. What a key press can do to the phase of the match.  It never leads
    into [goal_flash] or [gameover], and never changes a score or the clock
    of a match it does not restart.  It leads to [playing] only by starting
    a fresh match (120 s, no goals, combo 1) or, with the space bar after a
    goal, by the kick-off, which keeps the scores and the clock and puts both
    cars at rest on their spots; and back to the menu only with Escape. *)
Theorem key_press_phases (self self' : Game.t) (sel sel' : Z) (k : key) (g g' : gen) :
  Events.keydown self sel k g = Some (Events.Go self' sel' g') ->
  (Game.state self' = Game.state self /\ self' = self)
  \/ (Game.state self' = playing /\ Game.state self <> goal_flash /\ fresh_match self')
  \/ (Game.state self' = playing /\ Game.state self = goal_flash /\ k = K_SPACE
      /\ Game.time_left self' = Game.time_left self
      /\ Car.score (Game.player self') = Car.score (Game.player self)
      /\ Car.score (Game.ai_car self') = Car.score (Game.ai_car self)
      /\ (Car.x (Game.player self') = 180 /\ Car.vx (Game.player self') = 0
          /\ Car.vy (Game.player self') = 0)
      /\ (Car.x (Game.ai_car self') = 1100 /\ Car.vx (Game.ai_car self') = 0
          /\ Car.vy (Game.ai_car self') = 0)
      /\ Ball.x (Game.ball self') = 640 /\ Ball.y (Game.ball self') = 360)
  \/ (Game.state self' = select /\ k = K_ESCAPE /\ Game.state self <> select
      /\ self' = Events.set_state self select).
Proof.
  unfold Events.keydown. intro E.
  destruct (Game.state self) eqn:Est; destruct k;
    try discriminate;
    try (injection E as <- _ _; left; split; [ exact Est | reflexivity ]);
    try (apply start_fresh in E; destruct E as (Hs & _ & Hf);
         right; left; split; [ exact Hs | split; [ discriminate | exact Hf ] ]);
    try (injection E as <- _ _; right; right; right;
         split; [ reflexivity | split; [ reflexivity | split; [ discriminate | reflexivity ] ] ]).
  right; right; left.
  unfold Game.reset_positions in E.
  pose proof (ball_reset_spec g) as (Bx & By & _).
  destruct (Ball.reset g) as [b g1]. cbn [fst] in Bx, By.
  injection E as <- _ _.
  cbn [Game.state Game.time_left Game.player Game.ai_car Game.ball Events.set_state
       Game.kickoff Car.score Car.x Car.vx Car.vy].
  change (IZR (SCREEN_W - 180)) with 1100.
  repeat split; try reflexivity; assumption.
Qed.
End KeyPresses.


(** Escape during [idle_match]: back to the menu. *)
Lemma key_press_phases_witness :
  (Game.state (Events.set_state idle_match select) = Game.state idle_match
   /\ Events.set_state idle_match select = idle_match)
  \/ (Game.state (Events.set_state idle_match select) = playing
      /\ Game.state idle_match <> goal_flash
      /\ fresh_match (Events.set_state idle_match select))
  \/ (Game.state (Events.set_state idle_match select) = playing
      /\ Game.state idle_match = goal_flash /\ K_ESCAPE = K_SPACE
      /\ Game.time_left (Events.set_state idle_match select) = Game.time_left idle_match
      /\ Car.score (Game.player (Events.set_state idle_match select))
         = Car.score (Game.player idle_match)
      /\ Car.score (Game.ai_car (Events.set_state idle_match select))
         = Car.score (Game.ai_car idle_match)
      /\ (Car.x (Game.player (Events.set_state idle_match select)) = 180
          /\ Car.vx (Game.player (Events.set_state idle_match select)) = 0
          /\ Car.vy (Game.player (Events.set_state idle_match select)) = 0)
      /\ (Car.x (Game.ai_car (Events.set_state idle_match select)) = 1100
          /\ Car.vx (Game.ai_car (Events.set_state idle_match select)) = 0
          /\ Car.vy (Game.ai_car (Events.set_state idle_match select)) = 0)
      /\ Ball.x (Game.ball (Events.set_state idle_match select)) = 640
      /\ Ball.y (Game.ball (Events.set_state idle_match select)) = 360)
  \/ (Game.state (Events.set_state idle_match select) = select
      /\ K_ESCAPE = K_ESCAPE /\ Game.state idle_match <> select
      /\ Events.set_state idle_match select = Events.set_state idle_match select).
Proof.
  apply (key_press_phases (H := counter_random) idle_match
           (Events.set_state idle_match select) 0 0 K_ESCAPE 0%nat 0%nat).
  reflexivity.
Defined.
